(** * WCDB migration core: the stepper [MigrateHandle], its duration sampler
    and the engine-wide notification hub [Global].

    Sources embedded here:
    - [src/apple/objc/core/migration/MigrateHandle.cpp]
    - [src/apple/objc/core/sqlite/Global.cpp]

    The C++ is embedded shallowly: member functions become state-passing
    functions over a record of the object's fields, the engine primitives of
    the base class [Handle] become operations on a small explicit engine
    state, and [double] is IEEE binary64 ([PrimFloat]). *)

From Stdlib Require Import QArith Qpower Lqa ZArith List Bool String Floats.
From stdpp Require Import gmap strings list.

Set Default Proof Using "Type".

(** ** Arithmetic of [double]

    The sampler only adds, multiplies, divides and compares durations.  Its
    code is written over this signature and run at IEEE binary64, which is
    what the compiled code computes with. *)

Class DoubleOps (D : Type) := {
  dzero : D;
  dadd : D -> D -> D;
  dmul : D -> D -> D;
  ddiv : D -> D -> D;
  dlt : D -> D -> bool;
  dle : D -> D -> bool;
  disnan : D -> bool
}.

(** [a > b] and [a >= b] of C++ are [b < a] and [b <= a]. *)
Definition dgt {D} `{DoubleOps D} (a b : D) : bool := dlt b a.

#[export] Instance binary64 : DoubleOps float := {|
  dzero := 0%float;
  dadd := PrimFloat.add;
  dmul := PrimFloat.mul;
  ddiv := PrimFloat.div;
  dlt := PrimFloat.ltb;
  dle := PrimFloat.leb;
  disnan := PrimFloat.is_nan
|}.

(** ** The duration sampler ([MigrateHandle::Sample], [addSample],
    [calculateTimeIntervalWithinTransaction]) *)

Section Sampler.

Context {D : Type} `{DoubleOps D}.

(** [MigrateHandle::Sample]. *)
Record Sample := mkSample {
  timeIntervalWithinTransaction : D;
  timeIntervalWholeTransaction : D
}.

(** [Sample::Sample()]: both durations zero. *)
Definition Sample_init : Sample := mkSample dzero dzero.

(** The test of the loop in [calculateTimeIntervalWithinTransaction]: the
    samples that count are those with both durations positive. *)
Definition valid (s : Sample) : bool :=
  dgt (timeIntervalWithinTransaction s) dzero
  && dgt (timeIntervalWholeTransaction s) dzero.

(** [CoreConst.h] is not among the sources: [MigrateMaxExpectingDuration]
    and [MigrateMaxInitializeDuration] are parameters. *)
Variable MigrateMaxExpectingDuration : D.
Variable MigrateMaxInitializeDuration : D.

(** One iteration of the range-for over [m_samples]; the accumulator is the
    pair of running totals. *)
Definition accumulate (acc : D * D) (sample : Sample) : D * D :=
  if valid sample
  then (dadd (fst acc) (timeIntervalWithinTransaction sample),
        dadd (snd acc) (timeIntervalWholeTransaction sample))
  else acc.

Definition calculateTimeIntervalWithinTransaction (m_samples : list Sample) : D :=
  let totals := fold_left accumulate m_samples (dzero, dzero) in
  let totalTimeIntervalWithinTransaction := fst totals in
  let totalTimeIntervalWholeTransaction := snd totals in
  let timeIntervalWithinTransaction :=
    ddiv (dmul MigrateMaxExpectingDuration totalTimeIntervalWithinTransaction)
         totalTimeIntervalWholeTransaction in
  if dgt timeIntervalWithinTransaction MigrateMaxExpectingDuration
     || dle timeIntervalWithinTransaction dzero
     || disnan timeIntervalWithinTransaction
  then MigrateMaxInitializeDuration
  else timeIntervalWithinTransaction.

(** The budget as the specification words it: the totals are sums over the
    valid samples, taken in ring order. *)
Definition total (f : Sample -> D) (l : list Sample) : D :=
  fold_left (fun a s => dadd a (f s)) l dzero.

Definition next_budget_seconds (m_samples : list Sample) : D :=
  let vs := List.filter valid m_samples in
  let b := ddiv (dmul MigrateMaxExpectingDuration
                      (total timeIntervalWithinTransaction vs))
                (total timeIntervalWholeTransaction vs) in
  if dgt b MigrateMaxExpectingDuration || dle b dzero || disnan b
  then MigrateMaxInitializeDuration
  else b.

End Sampler.

Arguments Sample D : clear implicits.

(** ** Descriptors and statements

    [Schema], [MigrationInfo] and the statement builders are declared in
    headers that are not among the sources; they are modelled from the
    specification's data model. *)

(** Modelled from the spec: [Schema] is missing.  "Schema identifier: either
    the distinguished value main, or a user-defined name.  Two schemas are
    'targeting the same schema' iff they refer to the same attached database
    path and use the same schema name."  A named schema therefore carries,
    beside its name, the path of the database it refers to. *)
Inductive Schema := Schema_main | Schema_named (database : string) (name : string).

#[export] Instance Schema_eq_dec : EqDecision Schema.
Proof. solve_decision. Defined.

Definition isMain (s : Schema) : bool :=
  match s with Schema_main => true | Schema_named _ _ => false end.

(** Modelled from the spec: [Syntax::Schema::isTargetingSameSchema] is missing.
    Two schemas target the same schema when both are main, or both are named,
    refer to the same database path and use the same name: the two
    identifiers are equal. *)
Definition isTargetingSameSchema (a b : Schema) : bool := bool_decide (a = b).

(** Modelled from the spec: [MigrationInfo] is missing.  "Two infos are equal
    iff all four identifying fields are equal; identity-by-pointer is
    acceptable because infos are interned": the pointer comparison
    [m_migratingInfo != info] is equality of descriptors. *)
Record MigrationInfo := mkInfo {
  getTable : string;
  getSourceDatabase : string;
  getSchemaForSourceDatabase : Schema;
  getSourceTable : string
}.

#[export] Instance MigrationInfo_eq_dec : EqDecision MigrationInfo.
Proof. solve_decision. Defined.

(** The statements the stepper hands to the engine. *)
Inductive Statement :=
| StatementAttach (path : string) (schema : Schema)
| StatementDetach (schema : Schema)
| StatementForDroppingSourceTable (info : MigrationInfo)
| StatementForMigratingOneRow (info : MigrationInfo)
| StatementForDeletingMigratedOneRow (info : MigrationInfo).

(** ** The database handle (base class [Handle])

    [Handle] is not among the sources.  Modelled from the spec: its primitives
    [execute], [prepare], [step], [changes], [table_exists],
    [run_transaction] act on the state below.  Every primitive that can fail
    consults the oracle [failing] at the index [calls] and advances it; every
    clock reading takes the next value of [elapsed].  [journal] lists the
    primitives performed, oldest first, with their results. *)

Definition Row := Z.

Inductive Event :=
| EvExecute (s : Statement) (ok : bool)
| EvPrepare (s : Statement) (ok : bool)
| EvStep (s : Statement) (ok : bool)
| EvTableExists (table : string) (ok : bool)
| EvBegin (ok : bool)
| EvCommit (ok : bool)
| EvRollback.

Record Handle := mkHandle {
  calls : nat;
  failing : nat -> bool;
  reads : nat;
  elapsed : nat -> float;
  isInTransaction : bool;
  isPrepared : bool;
  getChanges : Z;
  mainTables : list string;
  source : MigrationInfo -> list Row;
  destination : MigrationInfo -> list Row;
  journal : list Event
}.

(** The result the engine gives to the primitive about to be performed. *)
Definition succeeds (e : Handle) : bool := negb (failing e (calls e)).

(** A primitive was performed: it is journalled and the oracle advances. *)
Definition performed (ev : Event) (e : Handle) : Handle :=
  mkHandle (S (calls e)) (failing e) (reads e) (elapsed e) (isInTransaction e)
           (isPrepared e) (getChanges e) (mainTables e) (source e)
           (destination e) (journal e ++ [ev]).

Definition withTransaction (b : bool) (e : Handle) : Handle :=
  mkHandle (calls e) (failing e) (reads e) (elapsed e) b
           (isPrepared e) (getChanges e) (mainTables e) (source e)
           (destination e) (journal e).

Definition withRows (src dst : MigrationInfo -> list Row) (changed : Z)
    (e : Handle) : Handle :=
  mkHandle (calls e) (failing e) (reads e) (elapsed e) (isInTransaction e)
           (isPrepared e) changed (mainTables e) src dst (journal e).

Definition withRead (e : Handle) : Handle :=
  mkHandle (calls e) (failing e) (S (reads e)) (elapsed e) (isInTransaction e)
           (isPrepared e) (getChanges e) (mainTables e) (source e)
           (destination e) (journal e).

Definition setRows (i : MigrationInfo) (rows : list Row)
    (f : MigrationInfo -> list Row) : MigrationInfo -> list Row :=
  fun j => if decide (j = i) then rows else f j.

(** What a statement does to the tables when the engine runs it with success.
    Modelled from the spec: "copies exactly one row from source into
    destination", zero changes when the source is drained; "deletes from
    source the row corresponding to the one just inserted"; "removes the
    source table".  Attaching and detaching move no rows. *)
Definition run (s : Statement) (e : Handle) : Handle :=
  match s with
  | StatementAttach _ _ | StatementDetach _ => e
  | StatementForDroppingSourceTable i =>
      withRows (setRows i [] (source e)) (destination e) 0 e
  | StatementForMigratingOneRow i =>
      match source e i with
      | r :: _ =>
          withRows (source e) (setRows i (r :: destination e i) (destination e)) 1 e
      | [] => withRows (source e) (destination e) 0 e
      end
  | StatementForDeletingMigratedOneRow i =>
      match source e i with
      | _ :: rest => withRows (setRows i rest (source e)) (destination e) 1 e
      | [] => withRows (source e) (destination e) 0 e
      end
  end.

(** [Handle::execute]. *)
Definition Handle_execute (s : Statement) (e : Handle) : bool * Handle :=
  let ok := succeeds e in
  (ok, performed (EvExecute s ok) (if ok then run s e else e)).

(** [HandleStatement::step] of a statement prepared from [s]. *)
Definition Handle_step (s : Statement) (e : Handle) : bool * Handle :=
  let ok := succeeds e in
  (ok, performed (EvStep s ok) (if ok then run s e else e)).

(** [Handle::tableExists] on the main schema: (succeed, exists). *)
Definition Handle_tableExists (table : string) (e : Handle) : bool * bool * Handle :=
  let ok := succeeds e in
  (ok, ok && bool_decide (table ∈ mainTables e), performed (EvTableExists table ok) e).

(** Leaving a transaction without committing: the tables are those of [before]. *)
Definition rolledBack (before e : Handle) : Handle :=
  performed EvRollback
    (withTransaction false (withRows (source before) (destination before) (getChanges e) e)).

(** ** The stepper's state *)

Record MigrateHandle := mkMigrateHandle {
  handle : Handle;
  m_attached : Schema;
  m_migratingInfo : option MigrationInfo;
  m_migrateStatement : option Statement;
  m_removeMigratedStatement : option Statement;
  m_samples : list (Sample float);
  m_samplePointing : nat
}.

Definition withHandle (e : Handle) (h : MigrateHandle) : MigrateHandle :=
  mkMigrateHandle e (m_attached h) (m_migratingInfo h) (m_migrateStatement h)
                  (m_removeMigratedStatement h) (m_samples h) (m_samplePointing h).

Definition withAttached (s : Schema) (h : MigrateHandle) : MigrateHandle :=
  mkMigrateHandle (handle h) s (m_migratingInfo h) (m_migrateStatement h)
                  (m_removeMigratedStatement h) (m_samples h) (m_samplePointing h).

Definition withMigratingInfo (i : option MigrationInfo) (h : MigrateHandle) : MigrateHandle :=
  mkMigrateHandle (handle h) (m_attached h) i (m_migrateStatement h)
                  (m_removeMigratedStatement h) (m_samples h) (m_samplePointing h).

Definition withSamples (l : list (Sample float)) (p : nat) (h : MigrateHandle) : MigrateHandle :=
  mkMigrateHandle (handle h) (m_attached h) (m_migratingInfo h) (m_migrateStatement h)
                  (m_removeMigratedStatement h) l p.

(** The two [HandleStatement] members are addressed by name. *)
Inductive Slot := MigrateStatement | RemoveMigratedStatement.

Definition slot (sl : Slot) (h : MigrateHandle) : option Statement :=
  match sl with
  | MigrateStatement => m_migrateStatement h
  | RemoveMigratedStatement => m_removeMigratedStatement h
  end.

Definition withSlot (sl : Slot) (s : option Statement) (h : MigrateHandle) : MigrateHandle :=
  match sl with
  | MigrateStatement =>
      mkMigrateHandle (handle h) (m_attached h) (m_migratingInfo h) s
                      (m_removeMigratedStatement h) (m_samples h) (m_samplePointing h)
  | RemoveMigratedStatement =>
      mkMigrateHandle (handle h) (m_attached h) (m_migratingInfo h) (m_migrateStatement h)
                      s (m_samples h) (m_samplePointing h)
  end.

(** ** Control: a call returns, aborts on a failed assertion, or is cut off

    [OutOfFuel] bounds the row loop of [migrateRows]; it is shown not to
    occur ([migrateRows_terminates]).  Every outcome carries the state
    reached, so that the journal can be read whatever the outcome. *)

Inductive outcome (A : Type) :=
| Returns (a : A) (h : MigrateHandle)
| Aborts (h : MigrateHandle)
| OutOfFuel (h : MigrateHandle).

Arguments Returns {A} a h.
Arguments Aborts {A} h.
Arguments OutOfFuel {A} h.

Definition final {A} (o : outcome A) : MigrateHandle :=
  match o with Returns _ h | Aborts h | OutOfFuel h => h end.

Definition M (A : Type) : Type := MigrateHandle -> outcome A.

#[export] Instance M_ret : MRet M := fun A a h => Returns a h.

#[export] Instance M_bind : MBind M := fun A B f m h =>
  match m h with
  | Returns a h' => f a h'
  | Aborts h' => Aborts h'
  | OutOfFuel h' => OutOfFuel h'
  end.

Definition gets {A} (f : MigrateHandle -> A) : M A := fun h => Returns (f h) h.

Definition modify (f : MigrateHandle -> MigrateHandle) : M unit := fun h => Returns tt (f h).

(** A primitive of the base class, run on the handle inside the stepper. *)
Definition engine {A} (f : Handle -> A * Handle) : M A :=
  fun h => let (a, e) := f (handle h) in Returns a (withHandle e h).

(** ** The stepper ([MigrateHandle.cpp]) *)

Section Stepper.

(** [Assertion.hpp] is not among the sources.  [WCTInnerAssert] is an
    assertion of debug builds: with [assertions] on, a false condition aborts
    the process; with [assertions] off the macro expands to nothing. *)
Variable assertions : bool.

(** [numberOfSamples] (declared in the header) and the two constants of
    [CoreConst.h] are parameters. *)
Variable numberOfSamples : nat.
Variable MigrateMaxExpectingDuration : float.
Variable MigrateMaxInitializeDuration : float.

Definition WCTInnerAssert (cond : MigrateHandle -> bool) : M unit :=
  fun h => if assertions && negb (cond h) then Aborts h else Returns tt h.

(** [MigrateHandle::MigrateHandle()] on a database handle [e]: no schema
    attached, no info, both statements unprepared, the ring zeroed. *)
Definition MigrateHandle_new (e : Handle) : MigrateHandle :=
  mkMigrateHandle e Schema_main None None None
                  (replicate numberOfSamples Sample_init) 0.

(** *** Engine primitives as seen from the stepper *)

Definition execute (s : Statement) : M bool := engine (Handle_execute s).

Definition tableExists (table : string) : M (bool * bool) :=
  engine (fun e => let '(ok, ex, e') := Handle_tableExists table e in ((ok, ex), e')).

(** [HandleStatement::isPrepared], [prepare], [step], [reset], [finalize]. *)
Definition statement_isPrepared (sl : Slot) : M bool :=
  gets (fun h => bool_decide (is_Some (slot sl h))).

Definition statement_prepare (sl : Slot) (s : Statement) : M bool :=
  fun h =>
    let ok := succeeds (handle h) in
    let h' := withHandle (performed (EvPrepare s ok) (handle h)) h in
    Returns ok (if ok then withSlot sl (Some s) h' else h').

Definition statement_step (sl : Slot) : M bool :=
  fun h =>
    match slot sl h with
    | Some s => engine (Handle_step s) h
    | None => Returns false h
    end.

Definition statement_reset (sl : Slot) : M unit := mret tt.

Definition statement_finalize (sl : Slot) : M unit := modify (withSlot sl None).

(** Modelled from the spec: [SteadyClock] ([Time.hpp]) is missing.
    [SteadyClock::now()] marks the start of the measurement;
    [timeIntervalSinceSteadyClockToNow] returns the seconds elapsed since,
    which is the next reading of the clock oracle. *)
Definition timeIntervalSinceSteadyClockToNow : M float :=
  engine (fun e => (elapsed e (reads e), withRead e)).

(** Modelled from the spec: [Handle::runTransaction] is missing.  "opens tx,
    calls body, commits on true/rolls back on false".  A transaction that
    cannot be opened does not run the body; a commit that fails rolls back.
    The variables the body captures by reference are its second result:
    [captured] holds their values when the body never runs. *)
Definition runTransaction {X} (captured : X) (transaction : M (bool * X)) : M (bool * X) :=
  fun h =>
    let e := handle h in
    if succeeds e then
      match transaction (withHandle (withTransaction true (performed (EvBegin true) e)) h) with
      | Returns (true, x) h2 =>
          let e2 := handle h2 in
          if succeeds e2
          then Returns (true, x)
                 (withHandle (withTransaction false (performed (EvCommit true) e2)) h2)
          else Returns (false, x)
                 (withHandle (rolledBack e (performed (EvCommit false) e2)) h2)
      | Returns (false, x) h2 =>
          Returns (false, x) (withHandle (rolledBack e (handle h2)) h2)
      | Aborts h2 => Aborts h2
      | OutOfFuel h2 => OutOfFuel h2
      end
    else Returns (false, captured) (withHandle (performed (EvBegin false) e) h).

(** *** [finalizeMigrationStatement] *)
Definition finalizeMigrationStatement : M unit :=
  statement_finalize MigrateStatement ;;
  statement_finalize RemoveMigratedStatement.

(** *** [attach], [detach], [reAttach] *)
Definition attach (newPath : string) (newSchema : Schema) : M bool :=
  WCTInnerAssert (fun h => negb (isInTransaction (handle h))) ;;
  WCTInnerAssert (fun h => negb (isPrepared (handle h))) ;;
  WCTInnerAssert (fun h => isMain (m_attached h)) ;;
  if negb (isMain newSchema) then
    succeed ← execute (StatementAttach newPath newSchema);
    (if succeed : bool then modify (withAttached newSchema) else mret tt) ;;
    mret succeed
  else mret true.

Definition detach : M bool :=
  WCTInnerAssert (fun h => negb (isInTransaction (handle h))) ;;
  WCTInnerAssert (fun h => negb (isPrepared (handle h))) ;;
  attached ← gets m_attached;
  if negb (isMain attached) then
    succeed ← execute (StatementDetach attached);
    (if succeed : bool then modify (withAttached Schema_main) else mret tt) ;;
    mret succeed
  else mret true.

Definition reAttach (newPath : string) (newSchema : Schema) : M bool :=
  WCTInnerAssert (fun h => negb (isInTransaction (handle h))) ;;
  WCTInnerAssert (fun h => negb (isPrepared (handle h))) ;;
  attached ← gets m_attached;
  succeed ← (if negb (isTargetingSameSchema attached newSchema)
             then (detached ← detach;
                   if detached : bool then attach newPath newSchema else mret false)
             else mret true);
  modify (withMigratingInfo None) ;;
  finalizeMigrationStatement ;;
  mret succeed.

(** *** [dropSourceTable] *)
Definition dropSourceTable (info : MigrationInfo) : M bool :=
  reattached ← reAttach (getSourceDatabase info) (getSchemaForSourceDatabase info);
  if reattached : bool then
    modify (withMigratingInfo (Some info)) ;;
    execute (StatementForDroppingSourceTable info)
  else mret false.

(** *** [migrateRow]: (succeed, migrated) *)
Definition migrateRow : M (bool * bool) :=
  WCTInnerAssert (fun h => bool_decide (is_Some (m_migrateStatement h))
                           && bool_decide (is_Some (m_removeMigratedStatement h))) ;;
  WCTInnerAssert (fun h => isInTransaction (handle h)) ;;
  statement_reset MigrateStatement ;;
  statement_reset RemoveMigratedStatement ;;
  stepped ← statement_step MigrateStatement;
  if stepped : bool then
    changes ← gets (fun h => getChanges (handle h));
    if negb (changes =? 0)%Z then
      succeed ← statement_step RemoveMigratedStatement;
      mret (succeed, false)
    else mret (true, true)
  else mret (false, false).

(** *** [addSample] *)
Definition addSample (timeIntervalWithinTransaction timeIntervalForWholeTransaction : float)
    : M unit :=
  WCTInnerAssert (fun _ => (0 <? timeIntervalWithinTransaction)%float) ;;
  WCTInnerAssert (fun _ => (0 <? timeIntervalForWholeTransaction)%float) ;;
  WCTInnerAssert (fun h => bool_decide (m_samplePointing h < numberOfSamples)) ;;
  WCTInnerAssert (fun _ => (timeIntervalWithinTransaction <? timeIntervalForWholeTransaction)%float) ;;
  modify (fun h =>
    let samples := <[m_samplePointing h :=
                      mkSample timeIntervalWithinTransaction timeIntervalForWholeTransaction]>
                   (m_samples h) in
    let pointing := S (m_samplePointing h) in
    withSamples samples (if bool_decide (numberOfSamples ≤ pointing) then 0 else pointing) h).

(** *** [migrateRows]: (return value, done) *)

(** The [do ... while] of the transaction body.  [fuel] bounds the number of
    iterations; the result is (succeed, (migrated, cost)). *)
Fixpoint migrateLoop (fuel : nat) (timeIntervalWithinTransaction : float)
    : M (bool * (bool * float)) :=
  match fuel with
  | O => fun h => OutOfFuel h
  | S fuel' =>
      '(succeed, migrated) ← migrateRow;
      cost ← timeIntervalSinceSteadyClockToNow;
      if succeed && negb migrated && (cost <? timeIntervalWithinTransaction)%float
      then migrateLoop fuel' timeIntervalWithinTransaction
      else mret (succeed, (migrated, cost))
  end.

(** Lines 148-172 of [migrateRows]: the budget, the transaction and the
    sample.  [fuel] is the bound of [migrateLoop]: one iteration per row of
    the source and one more to find it drained. *)
Definition migrateRows_transaction (info : MigrationInfo) : M (bool * bool) :=
  timeIntervalWithinTransaction ←
    gets (fun h => calculateTimeIntervalWithinTransaction
                     MigrateMaxExpectingDuration MigrateMaxInitializeDuration
                     (m_samples h));
  fuel ← gets (fun h => S (length (source (handle h) info)));
  '(succeed, (migrated, timeIntervalWithinTransaction)) ←
    runTransaction (false, timeIntervalWithinTransaction)
                   (migrateLoop fuel timeIntervalWithinTransaction);
  if succeed : bool then
    timeIntervalWholeTranscation ← timeIntervalSinceSteadyClockToNow;
    addSample timeIntervalWithinTransaction timeIntervalWholeTranscation ;;
    mret (true, migrated)
  else mret (false, false).

(** [migrateRows].  Where the statements are prepared [m_migratingInfo] is
    [info], so they are prepared from [info]. *)
Definition migrateRows (info : MigrationInfo) : M (bool * bool) :=
  '(succeed, exists_) ← tableExists (getTable info);
  if negb succeed then mret (false, false)
  else if negb exists_ then mret (true, true)
  else
    migratingInfo ← gets m_migratingInfo;
    reattached ← (if bool_decide (migratingInfo ≠ Some info) then
                    ok ← reAttach (getSourceDatabase info) (getSchemaForSourceDatabase info);
                    if ok : bool
                    then modify (withMigratingInfo (Some info)) ;; mret true
                    else mret false
                  else mret true);
    if negb reattached then mret (false, false)
    else
      migratePrepared ← statement_isPrepared MigrateStatement;
      prepared1 ← (if migratePrepared : bool then mret true
                   else statement_prepare MigrateStatement (StatementForMigratingOneRow info));
      if negb prepared1 then mret (false, false)
      else
        removePrepared ← statement_isPrepared RemoveMigratedStatement;
        prepared2 ← (if removePrepared : bool then mret true
                     else statement_prepare RemoveMigratedStatement
                            (StatementForDeletingMigratedOneRow info));
        if negb prepared2 then mret (false, false)
        else migrateRows_transaction info.

End Stepper.

(** ** The notification hub ([Global.cpp])

    A notification is a [std::function]: empty ([nullptr]) or a callable.
    Callables are told apart by an identifier.  The three registries are
    [StringViewMap]s keyed by the subscriber's name; the readers-writer lock
    is not modelled, each operation below being one critical section. *)

Definition Callable := nat.

Definition LogNotification := option Callable.
Definition FileOpenedNotification := option Callable.
Definition WillLockNotification := option Callable.
Definition LockDidChangeNotification := option Callable.
Definition WillShmLockNotification := option Callable.
Definition ShmLockDidChangeNotification := option Callable.

(** [Global::LockEvent]. *)
Record LockEvent := mkLockEvent {
  willLock : WillLockNotification;
  lockDidChange : LockDidChangeNotification;
  willShmLock : WillShmLockNotification;
  shmLockDidChange : ShmLockDidChangeNotification
}.

Record Global := mkGlobal {
  m_logNotifications : gmap string LogNotification;
  m_fileOpenedNotifications : gmap string FileOpenedNotification;
  m_lockEventNotifications : gmap string LockEvent
}.

(** The hub as constructed: nothing registered. *)
Definition Global_new : Global := mkGlobal ∅ ∅ ∅.

(** [Global::PagerLock] and [Global::ShmLock], with the engine's values fixed
    by the [static_assert]s. *)
Inductive PagerLock :=
| PagerLock_None | PagerLock_Shared | PagerLock_Reserved | PagerLock_Pending
| PagerLock_Exclusive.

Inductive ShmLock := ShmLock_Shared | ShmLock_Exclusive.

#[export] Instance PagerLock_eq_dec : EqDecision PagerLock.
Proof. solve_decision. Defined.

Definition SQLITE_SHM_SHARED : Z := 4.
Definition SQLITE_SHM_EXCLUSIVE : Z := 8.

(** The cast [(PagerLock) type_]: an engine value outside the enumeration has
    no name. *)
Definition PagerLock_of_int (type_ : Z) : option PagerLock :=
  match type_ with
  | 0 => Some PagerLock_None
  | 1 => Some PagerLock_Shared
  | 2 => Some PagerLock_Reserved
  | 3 => Some PagerLock_Pending
  | 4 => Some PagerLock_Exclusive
  | _ => None
  end%Z.

(** One invocation of a callable with its arguments. *)
Inductive Call :=
| CallLog (cb : Callable) (rc : Z) (message : string)
| CallFileOpened (cb : Callable) (fd : Z) (path : string) (flags mode : Z)
| CallWillLock (cb : Callable) (path : string) (type : option PagerLock)
| CallLockDidChange (cb : Callable) (path : string) (type : option PagerLock)
| CallWillShmLock (cb : Callable) (path : string) (type : ShmLock) (mask : Z)
| CallShmLockDidChange (cb : Callable) (path : string) (identifier : Z)
    (sharedMask exclusiveMask : Z).

(** What a dispatch did: the invocations made, each with the name of the
    entry it was made for.  [None]: the dispatch did not complete (a failed
    assertion, or a call through an empty [std::function]). *)
Definition Dispatch := option (list (string * Call)).

Section Hub.

Variable assertions : bool.

(** *** Log *)
Definition setNotificationForLog (name : string) (notification : LogNotification)
    (g : Global) : Global :=
  if bool_decide (notification ≠ None)
  then mkGlobal (<[name := notification]> (m_logNotifications g))
                (m_fileOpenedNotifications g) (m_lockEventNotifications g)
  else mkGlobal (delete name (m_logNotifications g))
                (m_fileOpenedNotifications g) (m_lockEventNotifications g).

Definition postLogNotification (rc : Z) (message : string) (g : Global) : Dispatch :=
  mapM (fun iter : string * LogNotification =>
          cb ← iter.2; Some (iter.1, CallLog cb rc message))
       (map_to_list (m_logNotifications g)).

(** *** File opened *)
Definition setNotificationWhenFileOpened (name : string)
    (notification : FileOpenedNotification) (g : Global) : Global :=
  if bool_decide (notification ≠ None)
  then mkGlobal (m_logNotifications g)
                (<[name := notification]> (m_fileOpenedNotifications g))
                (m_lockEventNotifications g)
  else mkGlobal (m_logNotifications g)
                (delete name (m_fileOpenedNotifications g))
                (m_lockEventNotifications g).

Definition postFileOpenedNotification (fd : Z) (path : string) (flags mode : Z)
    (g : Global) : Dispatch :=
  mapM (fun iter : string * FileOpenedNotification =>
          cb ← iter.2; Some (iter.1, CallFileOpened cb fd path flags mode))
       (map_to_list (m_fileOpenedNotifications g)).

(** *** Lock *)
Definition setNotificationForLockEvent (name : string)
    (willLock : WillLockNotification) (lockDidChange : LockDidChangeNotification)
    (willShmLock : WillShmLockNotification)
    (shmLockDidChange : ShmLockDidChangeNotification) (g : Global) : Global :=
  let event := mkLockEvent willLock lockDidChange willShmLock shmLockDidChange in
  mkGlobal (m_logNotifications g) (m_fileOpenedNotifications g)
           (<[name := event]> (m_lockEventNotifications g)).

(** The loop shared by the four lock dispatchers: an entry whose callback
    for this event is empty is passed over. *)
Definition lockEventCalls (pick : LockEvent -> option Callable)
    (call : Callable -> Call) (g : Global) : list (string * Call) :=
  omap (fun iter : string * LockEvent => cb ← pick iter.2; Some (iter.1, call cb))
       (map_to_list (m_lockEventNotifications g)).

(** [WCTInnerAssert] in a dispatcher. *)
Definition asserted (cond : bool) (d : Dispatch) : Dispatch :=
  if assertions && negb cond then None else d.

Definition nonEmpty (path : string) : bool := negb (String.eqb path "").

Definition postWillLockNotification (path_ : string) (type_ : Z) (g : Global) : Dispatch :=
  let type := PagerLock_of_int type_ in
  asserted (nonEmpty path_)
    (asserted (bool_decide (type = Some PagerLock_Shared ∨ type = Some PagerLock_Reserved
                            ∨ type = Some PagerLock_Exclusive))
       (Some (lockEventCalls willLock (fun cb => CallWillLock cb path_ type) g))).

Definition postLockDidChangeNotification (path_ : string) (type_ : Z) (g : Global)
    : Dispatch :=
  let type := PagerLock_of_int type_ in
  asserted (nonEmpty path_)
    (asserted (bool_decide (is_Some type))
       (Some (lockEventCalls lockDidChange (fun cb => CallLockDidChange cb path_ type) g))).

Definition postWillShmLockNotification (path_ : string) (flags mask : Z) (g : Global)
    : Dispatch :=
  let shared := negb (Z.land flags SQLITE_SHM_SHARED =? 0)%Z in
  let exclusive := negb (Z.land flags SQLITE_SHM_EXCLUSIVE =? 0)%Z in
  let type := if shared then ShmLock_Shared else ShmLock_Exclusive in
  asserted (nonEmpty path_)
    (asserted (if shared then negb exclusive else exclusive)
       (Some (lockEventCalls willShmLock (fun cb => CallWillShmLock cb path_ type mask) g))).

Definition postShmLockDidChangeNotification (path_ : string) (identifier : Z)
    (sharedMask exclusiveMask : Z) (g : Global) : Dispatch :=
  asserted (negb (identifier =? 0)%Z)
    (asserted (nonEmpty path_)
       (Some (lockEventCalls shmLockDidChange
                (fun cb => CallShmLockDidChange cb path_ identifier sharedMask exclusiveMask)
                g))).

End Hub.

(** The registrations a client can make, and a sequence of them. *)
Inductive Registration :=
| RegisterLog (name : string) (notification : LogNotification)
| RegisterFileOpened (name : string) (notification : FileOpenedNotification)
| RegisterLockEvent (name : string) (willLock : WillLockNotification)
    (lockDidChange : LockDidChangeNotification) (willShmLock : WillShmLockNotification)
    (shmLockDidChange : ShmLockDidChangeNotification).

Definition register (g : Global) (r : Registration) : Global :=
  match r with
  | RegisterLog name n => setNotificationForLog name n g
  | RegisterFileOpened name n => setNotificationWhenFileOpened name n g
  | RegisterLockEvent name w l ws sl => setNotificationForLockEvent name w l ws sl g
  end.

Definition registerAll (rs : list Registration) (g : Global) : Global :=
  fold_left register rs g.

(** * Vocabulary of the properties *)

(** ** The sampler *)

(** Invariant S4 of the specification: every valid sample of the ring has
    its whole time above its time within the transaction. *)
Definition samples_proper (l : list (Sample float)) : Prop :=
  forall s, s ∈ l -> valid s = true ->
            (timeIntervalWithinTransaction s <? timeIntervalWholeTransaction s)%float = true.

(** ** Doubles as numbers

    What the budget of the sampler is to the quotient of the specification
    is stated on the rationals that the doubles denote. *)

(** The rational a double denotes; zero for the values that denote none. *)
Definition value_of (x : spec_float) : Q :=
  match x with
  | S754_finite s m e =>
      ((if s then - inject_Z (Z.pos m) else inject_Z (Z.pos m)) * 2 ^ e)%Q
  | _ => 0%Q
  end.

Definition value (x : float) : Q := value_of (Prim2SF x).

(** A positive normal double: neither zero, subnormal, infinite nor NaN. *)
Definition normal (x : float) : bool :=
  match classify x with PNormal => true | _ => false end.

(** [a] and [b] are within the factor [t] of each other. *)
Definition within_factor (t a b : Q) : Prop := (a <= b * t)%Q /\ (b <= a * t)%Q.

(** The factor that one rounding to a normal double stays within:
    [1 / (1 - 2^-51)]. *)
Definition rho : Q := 2251799813685248 # 2251799813685247.

(** The factor that the budget of a ring with [n] valid samples stays
    within: [2 * n] roundings. *)
Definition tolerance (n : nat) : Q := (rho ^ (2 * Z.of_nat n))%Q.

(** The running totals of a sum stay normal doubles. *)
Fixpoint sums_normal (f : Sample float -> float) (vs : list (Sample float))
    (acc : float) : bool :=
  match vs with
  | [] => true
  | s :: vs' => normal (acc + f s) && sums_normal f vs' (acc + f s)
  end.

(** Neither underflow nor overflow in the computation of the budget: the
    maximum, each running total over the valid samples, the product and the
    quotient are normal doubles. *)
Definition in_normal_range (MAX : float) (l : list (Sample float)) : bool :=
  let vs := List.filter valid l in
  let A := total timeIntervalWithinTransaction vs in
  let W := total timeIntervalWholeTransaction vs in
  normal MAX
  && sums_normal timeIntervalWithinTransaction vs 0
  && sums_normal timeIntervalWholeTransaction vs 0
  && normal (MAX * A) && normal (MAX * A / W).

(** The sum of the numbers that one duration of the samples denotes. *)
Definition sum_of (f : Sample float -> float) (vs : list (Sample float)) : Q :=
  fold_right (fun s q => (value (f s) + q)%Q) 0%Q vs.

(** What a running total is to the sum so far, after [c] samples: the zero
    it starts from, or a normal double within [c - 1] roundings of the
    sum. *)
Definition total_of (c : nat) (t : float) (T : Q) : Prop :=
  match c with
  | O => Prim2SF t = S754_zero false /\ (T == 0)%Q
  | S j => normal t = true /\ (0 < T)%Q /\ within_factor (rho ^ Z.of_nat j) (value t) T
  end.

(** The position of a number [x] against the integer [m], as [SpecFloat]
    records it while it shifts a mantissa: [x] is [m], or strictly between
    [m] and [m + 1] and below, at or above the middle. *)
Definition inbetween (m : Z) (x : Q) (l : location) : Prop :=
  match l with
  | loc_Exact => (x == inject_Z m)%Q
  | loc_Inexact c =>
      (inject_Z m < x)%Q /\ (x < inject_Z m + 1)%Q
      /\ (x ?= inject_Z m + (1 # 2))%Q = c
  end.

(** A clock whose readings are positive and strictly increasing. *)
Definition advancing (clock : nat -> float) : Prop :=
  forall n, (0 <? clock n)%float = true /\ (clock n <? clock (S n))%float = true.

(** The four conditions asserted by [addSample]. *)
Definition sample_ok (numberOfSamples pointing : nat) (within whole : float) : bool :=
  (0 <? within)%float && (0 <? whole)%float
  && bool_decide (pointing < numberOfSamples) && (within <? whole)%float.

(** The ring and the cursor after [addSample]. *)
Definition recorded (numberOfSamples : nat) (within whole : float) (h : MigrateHandle)
    : MigrateHandle :=
  withSamples (<[m_samplePointing h := mkSample within whole]> (m_samples h))
              (if bool_decide (numberOfSamples ≤ S (m_samplePointing h)) then 0
               else S (m_samplePointing h))
              h.

(** ** The hub *)

(** Every stored log notification is a callable: the registration stores
    only non-empty ones. *)
Definition log_callable (g : Global) : Prop :=
  forall name n, m_logNotifications g !! name = Some n -> is_Some n.

(** ** The journal of a call, and states derived from a state *)

(** The events a call performed: what it appended to the journal. *)
Definition performedBy (h h' : MigrateHandle) : list Event :=
  drop (length (journal (handle h))) (journal (handle h')).

(** The preconditions asserted by [attach], [detach] and [reAttach]: no open
    transaction, main statement not prepared. *)
Definition violated (h : MigrateHandle) : bool :=
  isInTransaction (handle h) || isPrepared (handle h).

(** [m_migratingInfo = nullptr; finalizeMigrationStatement()]. *)
Definition cleared (h : MigrateHandle) : MigrateHandle :=
  withSlot RemoveMigratedStatement None
    (withSlot MigrateStatement None (withMigratingInfo None h)).

(** The state after [execute s]. *)
Definition executed (s : Statement) (h : MigrateHandle) : MigrateHandle :=
  withHandle (Handle_execute s (handle h)).2 h.

(** The state after [step] of a statement prepared from [s]. *)
Definition stepped (s : Statement) (h : MigrateHandle) : MigrateHandle :=
  withHandle (Handle_step s (handle h)).2 h.

(** The state in which the body of the transaction starts. *)
Definition begun (h : MigrateHandle) : MigrateHandle :=
  withHandle (withTransaction true (performed (EvBegin true) (handle h))) h.

(** The budget and the bound of the loop, as [migrateRows_transaction] takes
    them from the state it is entered in. *)
Definition budget_of (MAX B0 : float) (h : MigrateHandle) : float :=
  calculateTimeIntervalWithinTransaction MAX B0 (m_samples h).

Definition fuel_of (info : MigrationInfo) (h : MigrateHandle) : nat :=
  S (length (source (handle h) info)).

Definition isStep (ev : Event) : Prop :=
  match ev with EvStep _ _ => True | _ => False end.

Definition isPrelude (ev : Event) : Prop :=
  match ev with
  | EvExecute _ _ | EvPrepare _ _ | EvTableExists _ _ => True
  | _ => False
  end.

Definition isTransactionEvent (ev : Event) : Prop :=
  match ev with
  | EvBegin _ | EvStep _ _ | EvCommit _ | EvRollback => True
  | _ => False
  end.

(** Neither a statement is prepared nor a schema attached or detached. *)
Definition isResumeEvent (ev : Event) : Prop :=
  match ev with
  | EvExecute _ _ | EvPrepare _ _ => False
  | _ => True
  end.

(** The transaction failed: it could not be opened, or it was rolled back. *)
Definition transactionFailed (evs : list Event) : Prop :=
  EvBegin false ∈ evs \/ EvRollback ∈ evs.

(** The transaction committed. *)
Definition transactionCommitted (evs : list Event) : Prop := EvCommit true ∈ evs.

(** [h'] is [h] after events that all satisfy [P]. *)
Definition journalled (P : Event -> Prop) (h h' : MigrateHandle) : Prop :=
  exists evs, journal (handle h') = journal (handle h) ++ evs /\ Forall P evs.

(** ** What a part of a call leaves as it was *)

(** What no part of [migrateRows] but [addSample] touches. *)
Definition same_sampler (h h' : MigrateHandle) : Prop :=
  m_samples h' = m_samples h /\ m_samplePointing h' = m_samplePointing h.

(** The oracles and the flags of the engine, which no primitive changes
    outside [runTransaction]. *)
Definition same_engine (e e' : Handle) : Prop :=
  failing e' = failing e /\ elapsed e' = elapsed e
  /\ isInTransaction e' = isInTransaction e /\ isPrepared e' = isPrepared e
  /\ mainTables e' = mainTables e.

Definition same_rows (e e' : Handle) : Prop :=
  source e' = source e /\ destination e' = destination e.

Definition same_statements (h h' : MigrateHandle) : Prop :=
  m_migrateStatement h' = m_migrateStatement h
  /\ m_removeMigratedStatement h' = m_removeMigratedStatement h
  /\ m_migratingInfo h' = m_migratingInfo h
  /\ m_attached h' = m_attached h.

(** Invariant S1 of the specification, for the statements: a prepared
    statement was prepared from the descriptor in [m_migratingInfo]. *)
Definition prepared_from_info (h : MigrateHandle) : Prop :=
  (forall s, m_migrateStatement h = Some s ->
             exists i, m_migratingInfo h = Some i /\ s = StatementForMigratingOneRow i)
  /\ (forall s, m_removeMigratedStatement h = Some s ->
                exists i, m_migratingInfo h = Some i
                          /\ s = StatementForDeletingMigratedOneRow i).

(** The statements are prepared from [info] if they are prepared at all. *)
Definition prepared_from (info : MigrationInfo) (h : MigrateHandle) : Prop :=
  (forall s, m_migrateStatement h = Some s -> s = StatementForMigratingOneRow info)
  /\ (forall s, m_removeMigratedStatement h = Some s ->
                s = StatementForDeletingMigratedOneRow info).

(** Both statements prepared, inside a transaction: what [migrateRow] asserts. *)
Definition stepping (h : MigrateHandle) : Prop :=
  is_Some (m_migrateStatement h) /\ is_Some (m_removeMigratedStatement h)
  /\ isInTransaction (handle h) = true.

(** What the row loop leaves as it was. *)
Definition loop_frame (h h' : MigrateHandle) : Prop :=
  journalled isStep h h' /\ same_sampler h h' /\ same_statements h h'
  /\ same_engine (handle h) (handle h')
  /\ reads (handle h) <= reads (handle h').

(** What the part of [migrateRows] before the transaction leaves as it was. *)
Definition prelude_frame (h h' : MigrateHandle) : Prop :=
  journalled isPrelude h h' /\ same_sampler h h'
  /\ same_engine (handle h) (handle h') /\ same_rows (handle h) (handle h')
  /\ reads (handle h') = reads (handle h).

(** [h1] is the state in which [migrateRows info], called in [h], enters its
    transaction part. *)
Definition ready (info : MigrationInfo) (h h1 : MigrateHandle) : Prop :=
  prelude_frame h h1
  /\ is_Some (m_migrateStatement h1)
  /\ is_Some (m_removeMigratedStatement h1)
  /\ m_migratingInfo h1 = Some info
  /\ (prepared_from_info h ->
      m_migrateStatement h1 = Some (StatementForMigratingOneRow info)
      /\ m_removeMigratedStatement h1 = Some (StatementForDeletingMigratedOneRow info)).

(** [migrateRows] ended before its transaction part. *)
Definition early (assertions : bool) (h : MigrateHandle) (out : outcome (bool * bool))
    : Prop :=
  prelude_frame h (final out)
  /\ (prepared_from_info h -> prepared_from_info (final out))
  /\ match out with
     | Returns r _ => r = (false, false) \/ r = (true, true)
     | Aborts _ => assertions = true
     | OutOfFuel _ => False
     end.

(** ** The parts of [migrateRows] *)

Section PrepareStatements.

Variable assertions : bool.
Variable numberOfSamples : nat.
Variable MigrateMaxExpectingDuration : float.
Variable MigrateMaxInitializeDuration : float.

(** Lines 137-146 of [migrateRows] and what follows, entered with
    [m_migratingInfo = info]. *)
Definition migrateRows_prepare (info : MigrationInfo) : M (bool * bool) :=
  migratePrepared ← statement_isPrepared MigrateStatement;
  prepared1 ← (if migratePrepared : bool then mret true
               else statement_prepare MigrateStatement (StatementForMigratingOneRow info));
  if negb prepared1 then mret (false, false)
  else
    removePrepared ← statement_isPrepared RemoveMigratedStatement;
    prepared2 ← (if removePrepared : bool then mret true
                 else statement_prepare RemoveMigratedStatement
                        (StatementForDeletingMigratedOneRow info));
    if negb prepared2 then mret (false, false)
    else migrateRows_transaction assertions numberOfSamples MigrateMaxExpectingDuration
           MigrateMaxInitializeDuration info.

End PrepareStatements.

(** The ways the transaction part of [migrateRows], entered in [h1], can
    end.  [steps] are the statement steps of the loop. *)
Inductive transacted (assertions : bool) (numberOfSamples : nat) (MAX B0 : float)
    (info : MigrationInfo) (h1 : MigrateHandle) : outcome (bool * bool) -> Prop :=
| transacted_not_begun h' :
    journal (handle h') = journal (handle h1) ++ [EvBegin false] ->
    same_sampler h1 h' -> same_statements h1 h' ->
    same_rows (handle h1) (handle h') ->
    transacted assertions numberOfSamples MAX B0 info h1 (Returns (false, false) h')
| transacted_rolled_back h' steps tail :
    journal (handle h') = journal (handle h1) ++ EvBegin true :: steps ++ tail ->
    Forall isStep steps ->
    tail = [EvRollback] \/ tail = [EvCommit false; EvRollback] ->
    same_sampler h1 h' -> same_statements h1 h' ->
    same_rows (handle h1) (handle h') ->
    transacted assertions numberOfSamples MAX B0 info h1 (Returns (false, false) h')
| transacted_committed out h' steps migrated cost whole hl :
    migrateLoop assertions (fuel_of info h1) (budget_of MAX B0 h1) (begun h1)
    = Returns (true, (migrated, cost)) hl ->
    journal (handle h') = journal (handle h1) ++ EvBegin true :: steps ++ [EvCommit true] ->
    Forall isStep steps ->
    2 <= reads (handle h') ->
    cost = elapsed (handle h1) (reads (handle h') - 2) ->
    whole = elapsed (handle h1) (reads (handle h') - 1) ->
    same_statements h1 h' ->
    same_rows (handle hl) (handle h') ->
    (out = Returns (true, migrated) h'
     /\ m_samples h' = m_samples (recorded numberOfSamples cost whole h1)
     /\ m_samplePointing h' = m_samplePointing (recorded numberOfSamples cost whole h1)
     /\ (assertions = true ->
         sample_ok numberOfSamples (m_samplePointing h1) cost whole = true))
    \/ (out = Aborts h' /\ assertions = true
        /\ sample_ok numberOfSamples (m_samplePointing h1) cost whole = false
        /\ same_sampler h1 h') ->
    transacted assertions numberOfSamples MAX B0 info h1 out
| transacted_out_of_fuel h' steps :
    migrateLoop assertions (fuel_of info h1) (budget_of MAX B0 h1) (begun h1)
    = OutOfFuel h' ->
    journal (handle h') = journal (handle h1) ++ EvBegin true :: steps ->
    Forall isStep steps ->
    transacted assertions numberOfSamples MAX B0 info h1 (OutOfFuel h').

(** ** The states a stepper can be in

    A new stepper, and what the operations that return leave.
    [sourceTableExists] changes the stepper through [reAttach] only. *)
Inductive reachable (assertions : bool) (numberOfSamples : nat) (MAX B0 : float)
    : MigrateHandle -> Prop :=
| reachable_new e :
    reachable assertions numberOfSamples MAX B0 (MigrateHandle_new numberOfSamples e)
| reachable_migrateRows info h r h' :
    reachable assertions numberOfSamples MAX B0 h ->
    migrateRows assertions numberOfSamples MAX B0 info h = Returns r h' ->
    reachable assertions numberOfSamples MAX B0 h'
| reachable_dropSourceTable info h ok h' :
    reachable assertions numberOfSamples MAX B0 h ->
    dropSourceTable assertions info h = Returns ok h' ->
    reachable assertions numberOfSamples MAX B0 h'
| reachable_reAttach p s h ok h' :
    reachable assertions numberOfSamples MAX B0 h ->
    reAttach assertions p s h = Returns ok h' ->
    reachable assertions numberOfSamples MAX B0 h'.

(** ** Examples: one descriptor, and a database with the destination table
    ["T"], the given source rows, engine failures and clock readings *)

(** The maximum and the initial budget used in the examples: the doubles
    nearest to 0.01 and 0.005. *)
Definition MAX_example : float := 0x1.47ae147ae147bp-7.
Definition B0_example : float := 0x1.47ae147ae147bp-8.

Definition info_example : MigrationInfo :=
  mkInfo "T" "/old.db" (Schema_named "/old.db" "old") "T".

Definition Handle_example (rows : list Row) (failing : nat -> bool)
    (elapsed : nat -> float) : Handle :=
  mkHandle 0 failing 0 elapsed false false 0 ["T"%string] (fun _ => rows) (fun _ => []) [].

Definition never : nat -> bool := fun _ => false.
Definition only (n : nat) : nat -> bool := fun m => Nat.eqb m n.

(** Clock readings: [2^-20] at the first reading and [2^-19] after, which is
    a clock that advances; and one that stands still at [2^-20]. *)
Definition clock_advancing : nat -> float :=
  fun n => match n with O => 0x1p-20%float | S _ => 0x1p-19%float end.

Definition clock_stalled : nat -> float := fun _ => 0x1p-20%float.

(** Readings above every budget: the loop stops after one row. *)
Definition clock_slow : nat -> float :=
  fun n => match n with O => 1%float | S _ => 2%float end.

(** ** The claims that fail, as they are stated *)

(** The claim C2 reads, on the numbers the doubles denote and up to a
    tolerance factor [t]: whenever every valid sample has its whole time [k]
    times its time within the transaction, the budget is the quotient of the
    maximum by [k]. *)
Definition budget_is_maximum_over_ratio (MAX B0 : float) (l : list (Sample float))
    (k t : Q) : Prop :=
  (forall s, In s l -> valid s = true ->
             (value (timeIntervalWholeTransaction s)
              == k * value (timeIntervalWithinTransaction s))%Q) ->
  within_factor t (value (calculateTimeIntervalWithinTransaction MAX B0 l))
    (value MAX / k)%Q.

(** C6 reads: of two consecutive calls [reAttach(P, S)] the second executes
    no attach and no detach; and when the schema differs the call detaches
    and then attaches. *)
Definition second_reattach_is_idle (assertions : bool) (p : string) (s : Schema)
    (h : MigrateHandle) : Prop :=
  forall ok h' ok' h'',
    reAttach assertions p s h = Returns ok h' ->
    reAttach assertions p s h' = Returns ok' h'' ->
    performedBy h' h'' = [].

Definition detaches_then_attaches (assertions : bool) (p : string) (s : Schema)
    (h : MigrateHandle) : Prop :=
  forall ok h',
    reAttach assertions p s h = Returns ok h' ->
    isTargetingSameSchema (m_attached h) s = false ->
    exists detached attached_,
      performedBy h h'
      = (if isMain (m_attached h) then []
         else [EvExecute (StatementDetach (m_attached h)) detached])
        ++ [EvExecute (StatementAttach p s) attached_].




(** * Further operations of the two files *)

(** ** The hub: [Global::open] and the registrations made so far *)

(** [Global::open], the replacement of the VFS system call: the real [open]
    ([open_] below) is called, the file-opened subscribers are told its
    result, and that result is returned. *)
Definition Global_open (open_ : string -> Z -> Z -> Z) (path : string) (flags mode : Z)
    (g : Global) : Z * Dispatch :=
  let fd := open_ path flags mode in
  (fd, postFileOpenedNotification fd path flags mode g).

(** The last registration made for [name] in each of the three registries:
    for the log and the file-opened registry the notification last given
    (possibly the empty one), for the lock registry the four callbacks last
    given. *)
Fixpoint lastLog (name : string) (rs : list Registration) : option LogNotification :=
  match rs with
  | [] => None
  | r :: rs' =>
      match lastLog name rs' with
      | Some n => Some n
      | None =>
          match r with
          | RegisterLog name' n => if decide (name' = name) then Some n else None
          | _ => None
          end
      end
  end.

Fixpoint lastFileOpened (name : string) (rs : list Registration)
    : option FileOpenedNotification :=
  match rs with
  | [] => None
  | r :: rs' =>
      match lastFileOpened name rs' with
      | Some n => Some n
      | None =>
          match r with
          | RegisterFileOpened name' n => if decide (name' = name) then Some n else None
          | _ => None
          end
      end
  end.

Fixpoint lastLockEvent (name : string) (rs : list Registration) : option LockEvent :=
  match rs with
  | [] => None
  | r :: rs' =>
      match lastLockEvent name rs' with
      | Some ev => Some ev
      | None =>
          match r with
          | RegisterLockEvent name' w l ws sl =>
              if decide (name' = name) then Some (mkLockEvent w l ws sl) else None
          | _ => None
          end
      end
  end.

(** Every stored file-opened notification is a callable. *)
Definition fileOpened_callable (g : Global) : Prop :=
  forall name n, m_fileOpenedNotifications g !! name = Some n -> is_Some n.

(** The bits of the engine's flags that [postWillShmLockNotification] tests. *)
Definition shm_shared (flags : Z) : bool := negb (Z.land flags SQLITE_SHM_SHARED =? 0)%Z.
Definition shm_exclusive (flags : Z) : bool :=
  negb (Z.land flags SQLITE_SHM_EXCLUSIVE =? 0)%Z.

(** What a lock dispatcher does with the registry: it stops at an assertion,
    which only a build with assertions can do, or it calls, once each and
    with the arguments [call] gives them, the entries whose callback for
    this event is not empty. *)
Definition calls_once (assertions : bool) (pick : LockEvent -> option Callable)
    (call : Callable -> Call) (g : Global) (d : Dispatch) : Prop :=
  match d with
  | None => assertions = true
  | Some calls =>
      NoDup calls.*1
      /\ forall name c,
           (name, c) ∈ calls <->
           exists ev cb, m_lockEventNotifications g !! name = Some ev
                         /\ pick ev = Some cb /\ c = call cb
  end.

(** What a registry holds for a notification given to a setter that removes
    on the empty notification. *)
Definition stored (n : option Callable) : option (option Callable) :=
  match n with
  | Some cb => Some (Some cb)
  | None => None
  end.

(** ** The stepper: [sourceTableExists] *)

(** Modelled from the spec: [MigrationUserInfo] is missing.  "The
    user-facing variant carrying source and destination table names before
    interning; yields the source schema identifier the same way." *)
Module MigrationUserInfo.

Record t := mk {
  getTable : string;
  getSourceDatabase : string;
  getSchemaForSourceDatabase : Schema;
  getSourceTable : string
}.

End MigrationUserInfo.

Section InfoInitializer.

Variable assertions : bool.

(** The tables of the databases that can be attached, by schema; the tables
    of the main schema are [mainTables]. *)
Variable attachedTables : Schema -> list string.

(** [Handle::tableExists] with a schema: (succeed, exists).  Modelled as
    [Handle_tableExists] is. *)
Definition Handle_tableExistsIn (schema : Schema) (table : string) (e : Handle)
    : bool * bool * Handle :=
  let ok := succeeds e in
  let tables := if isMain schema then mainTables e else attachedTables schema in
  (ok, ok && bool_decide (table ∈ tables), performed (EvTableExists table ok) e).

(** [sourceTableExists]: (succeed, exists). *)
Definition sourceTableExists (userInfo : MigrationUserInfo.t) : M (bool * bool) :=
  let schema := MigrationUserInfo.getSchemaForSourceDatabase userInfo in
  reattached ← reAttach assertions (MigrationUserInfo.getSourceDatabase userInfo) schema;
  if negb reattached then mret (false, false)
  else engine (fun e =>
                 let '(ok, ex, e') :=
                   Handle_tableExistsIn schema (MigrationUserInfo.getSourceTable userInfo) e in
                 ((ok, ex), e')).

End InfoInitializer.

(** ** Vocabulary of the further properties *)

(** The schemas the engine has attached beside main, after an event: a
    successful attach adds its schema, a successful detach removes its
    schema, nothing else matters. *)
Definition attachedAfter (l : list Schema) (ev : Event) : list Schema :=
  match ev with
  | EvExecute (StatementAttach _ s) true => s :: l
  | EvExecute (StatementDetach s) true => filter (fun x => x ≠ s) l
  | _ => l
  end.

(** What [m_attached] says is attached beside main. *)
Definition schemasOf (s : Schema) : list Schema := if isMain s then [] else [s].

(** From [h] to [h'] the journal grew, and [m_attached] followed what the
    engine attached and detached. *)
Definition tracks (h h' : MigrateHandle) : Prop :=
  exists evs, journal (handle h') = journal (handle h) ++ evs
              /\ fold_left attachedAfter evs (schemasOf (m_attached h))
                 = schemasOf (m_attached h').

(** Whatever state a call is made in, its final state is related to it by [R]. *)
Definition respects {A} (R : MigrateHandle -> MigrateHandle -> Prop) (m : M A) : Prop :=
  forall h, R h (final (m h)).

(** The states of the stepper constructed on the engine [e]: the new stepper,
    and what the four operations that return leave. *)
Inductive reachableFrom (assertions : bool) (numberOfSamples : nat) (MAX B0 : float)
    (attachedTables : Schema -> list string) (e : Handle) : MigrateHandle -> Prop :=
| from_new :
    reachableFrom assertions numberOfSamples MAX B0 attachedTables e
      (MigrateHandle_new numberOfSamples e)
| from_migrateRows info h r h' :
    reachableFrom assertions numberOfSamples MAX B0 attachedTables e h ->
    migrateRows assertions numberOfSamples MAX B0 info h = Returns r h' ->
    reachableFrom assertions numberOfSamples MAX B0 attachedTables e h'
| from_dropSourceTable info h ok h' :
    reachableFrom assertions numberOfSamples MAX B0 attachedTables e h ->
    dropSourceTable assertions info h = Returns ok h' ->
    reachableFrom assertions numberOfSamples MAX B0 attachedTables e h'
| from_sourceTableExists userInfo h r h' :
    reachableFrom assertions numberOfSamples MAX B0 attachedTables e h ->
    sourceTableExists assertions attachedTables userInfo h = Returns r h' ->
    reachableFrom assertions numberOfSamples MAX B0 attachedTables e h'
| from_reAttach p s h ok h' :
    reachableFrom assertions numberOfSamples MAX B0 attachedTables e h ->
    reAttach assertions p s h = Returns ok h' ->
    reachableFrom assertions numberOfSamples MAX B0 attachedTables e h'.

(** The ring has its [numberOfSamples] slots and the cursor points at one. *)
Definition ring_shaped (numberOfSamples : nat) (h : MigrateHandle) : Prop :=
  length (m_samples h) = numberOfSamples /\ m_samplePointing h < numberOfSamples.

(** [addSample] for each sample of a list, oldest first. *)
Fixpoint addSamples (assertions : bool) (numberOfSamples : nat) (l : list (Sample float))
    : M unit :=
  match l with
  | [] => mret tt
  | s :: l' =>
      addSample assertions numberOfSamples (timeIntervalWithinTransaction s)
                (timeIntervalWholeTransaction s) ;;
      addSamples assertions numberOfSamples l'
  end.

(** An engine none of whose primitives ever fails. *)
Definition reliable (h : MigrateHandle) : Prop := forall n, failing (handle h) n = false.

(** The driver of a migration: [migrateRows] is called again while it
    succeeds without being done, at most [n] times. *)
Fixpoint migrateAll (assertions : bool) (numberOfSamples : nat) (MAX B0 : float)
    (n : nat) (info : MigrationInfo) : M (bool * bool) :=
  match n with
  | O => mret (true, false)
  | S n' =>
      '(ok, done) ← migrateRows assertions numberOfSamples MAX B0 info;
      if ok && negb done
      then migrateAll assertions numberOfSamples MAX B0 n' info
      else mret (ok, done)
  end.

(** Neither the oracle of failures nor the tables of the main schema nor any
    row changed. *)
Definition same_database (h h' : MigrateHandle) : Prop :=
  failing (handle h') = failing (handle h)
  /\ mainTables (handle h') = mainTables (handle h)
  /\ same_rows (handle h) (handle h').

(** An attach or a detach was executed. *)
Definition isSchemaEvent (ev : Event) : Prop :=
  match ev with
  | EvExecute (StatementAttach _ _) _ | EvExecute (StatementDetach _) _ => True
  | _ => False
  end.

(** The engine refused a primitive: its oracle of failures is not the one
    that never fails. *)
Definition refusing (h : MigrateHandle) : Prop := exists n, failing (handle h) n = true.

(** The rows [moved] left the head of the source table of [info] for the head
    of its destination table, last moved first. *)
Definition rows_moved (info : MigrationInfo) (h h' : MigrateHandle) (moved : list Row)
    : Prop :=
  source (handle h) info = moved ++ source (handle h') info
  /\ destination (handle h') info = rev moved ++ destination (handle h) info.

(** How a call of [migrateRows] made in [h] has ended, [moved] being the rows
    it moved. *)
Definition moved_or_kept (assertions : bool) (info : MigrationInfo) (h : MigrateHandle)
    (moved : list Row) (out : outcome (bool * bool)) : Prop :=
  match out with
  | Returns (ok, done) h' =>
      failing (handle h') = failing (handle h)
      /\ mainTables (handle h') = mainTables (handle h)
      /\ (ok = true ->
          rows_moved info h h' moved
          /\ (done = false -> moved <> [])
          /\ (done = true -> source (handle h') info = []))
      /\ (ok = false ->
          done = false /\ moved = [] /\ same_rows (handle h) (handle h') /\ refusing h)
  | Aborts h' => assertions = true /\ rows_moved info h h' moved
  | OutOfFuel _ => False
  end.

(** The conditions [addSample] asserts on a sample. *)
Definition sample_proper (s : Sample float) : bool :=
  (0 <? timeIntervalWithinTransaction s)%float
  && (0 <? timeIntervalWholeTransaction s)%float
  && (timeIntervalWithinTransaction s <? timeIntervalWholeTransaction s)%float.

(** The first half of invariant S1 of the specification: the schema of the
    info being migrated is the attached one. *)
Definition attached_for_info (h : MigrateHandle) : Prop :=
  forall i, m_migratingInfo h = Some i -> m_attached h = getSchemaForSourceDatabase i.

(** One half of invariant S2 of the specification: the delete statement is
    prepared only when the migrate statement is. *)
Definition delete_after_migrate (h : MigrateHandle) : Prop :=
  is_Some (m_removeMigratedStatement h) -> is_Some (m_migrateStatement h).

Definition coherent (h : MigrateHandle) : Prop :=
  attached_for_info h /\ delete_after_migrate h.

(** * Properties *)

(** ** The budget of the sampler *)

Section SamplerFacts.

Context {D : Type} `{DoubleOps D}.

Lemma fold_accumulate (l : list (Sample D)) (a b : D) :
  fold_left accumulate l (a, b)
  = (fold_left (fun x s => dadd x (timeIntervalWithinTransaction s)) (List.filter valid l) a,
     fold_left (fun x s => dadd x (timeIntervalWholeTransaction s)) (List.filter valid l) b).
Proof.
  revert a b. induction l as [|s l IH]; intros a b; simpl; [reflexivity|].
  unfold accumulate at 2. destruct (valid s); simpl; apply IH.
Qed.

(** The loop of the code computes the budget the specification describes. *)
Lemma calculate_refines (MAX B0 : D) (l : list (Sample D)) :
  calculateTimeIntervalWithinTransaction MAX B0 l = next_budget_seconds MAX B0 l.
Proof.
  unfold calculateTimeIntervalWithinTransaction, next_budget_seconds, total.
  rewrite fold_accumulate. reflexivity.
Qed.

End SamplerFacts.

(** In binary64, [x * 0 / 0] is NaN whatever [x] is. *)
Lemma nan_of_zero_totals (x : float) : PrimFloat.is_nan (x * 0 / 0)%float = true.
Proof.
  unfold PrimFloat.is_nan.
  rewrite FloatAxioms.eqb_spec, FloatAxioms.div_spec, FloatAxioms.mul_spec.
  destruct (Prim2SF x); reflexivity.
Qed.

Lemma calculate_no_valid_sample (MAX B0 : float) (l : list (Sample float)) :
  List.filter valid l = [] ->
  calculateTimeIntervalWithinTransaction MAX B0 l = B0.
Proof.
  intros E. rewrite calculate_refines. unfold next_budget_seconds. rewrite E.
  cbn [total fold_left dzero dmul ddiv disnan binary64].
  rewrite nan_of_zero_totals, orb_true_r. reflexivity.
Qed.

Lemma float_is_nan_spec (x : float) :
  PrimFloat.is_nan x = true <-> Prim2SF x = S754_nan.
Proof.
  unfold PrimFloat.is_nan. rewrite FloatAxioms.eqb_spec.
  destruct (Prim2SF x) as [s|s| |s m e]; simpl.
  - split; discriminate.
  - destruct s; split; discriminate.
  - tauto.
  - unfold SFeqb, SFcompare. rewrite Z.compare_refl, Pos.compare_cont_refl.
    destruct s; simpl; split; discriminate.
Qed.

(** ** Doubles as numbers: one rounding

    [SpecFloat] rounds a mantissa by shifting it right while it records
    what it drops, and then rounding to nearest, ties to even.  Followed
    on the rationals, a finite result is off the number rounded by little
    against its unit in the last place; when it is a normal double, that is
    within the factor [rho]. *)

Section Rounding.

Local Open Scope Q_scope.

Lemma pow2_pos (e : Z) : 0 < 2 ^ e.
Proof. apply Qpower_0_lt. reflexivity. Qed.

Lemma pow2_add (a b : Z) : 2 ^ (a + b) == 2 ^ a * 2 ^ b.
Proof. apply Qpower_plus. discriminate. Qed.

Lemma pow2_le (a b : Z) : (a <= b)%Z -> 2 ^ a <= 2 ^ b.
Proof. intros H. apply Qpower_le_compat_l; [exact H|]. discriminate. Qed.

Lemma pow2_half (a b : Z) : (a + 1 <= b)%Z -> 2 * 2 ^ a <= 2 ^ b.
Proof.
  intros H. pose proof (pow2_le (a + 1) b H) as Hle.
  rewrite pow2_add in Hle. change (2 ^ 1) with 2 in Hle. lra.
Qed.

Lemma inject_Z_xI (p : positive) : inject_Z (Z.pos p~1) = 2 * inject_Z (Z.pos p) + 1.
Proof. rewrite (Pos2Z.inj_xI p), inject_Z_plus, inject_Z_mult. reflexivity. Qed.

Lemma inject_Z_xO (p : positive) : inject_Z (Z.pos p~0) = 2 * inject_Z (Z.pos p).
Proof. rewrite (Pos2Z.inj_xO p), inject_Z_mult. reflexivity. Qed.

Lemma inbetween_ext (m : Z) (x y : Q) (l : location) :
  x == y -> inbetween m x l -> inbetween m y l.
Proof.
  intros E. destruct l as [|c]; simpl.
  - intros H. rewrite <- E. exact H.
  - intros (H1 & H2 & H3). rewrite <- E. auto.
Qed.

Lemma inbetween_bounds (m : Z) (x : Q) (l : location) :
  inbetween m x l -> inject_Z m <= x /\ x < inject_Z m + 1.
Proof.
  destruct l as [|c]; simpl.
  - intros H. lra.
  - intros (H1 & H2 & _). lra.
Qed.

Ltac compare_to_order :=
  repeat match goal with
    | H : (_ ?= _) = Lt |- _ => apply <- Qlt_alt in H
    | H : (_ ?= _) = Gt |- _ => apply <- Qgt_alt in H
    | H : (_ ?= _) = Eq |- _ => apply <- Qeq_alt in H
    | |- (_ ?= _) = Lt => apply -> Qlt_alt
    | |- (_ ?= _) = Gt => apply -> Qgt_alt
    | |- (_ ?= _) = Eq => apply -> Qeq_alt
    end.

Lemma shr_1_inbetween (mrs : shr_record) (x : Q) :
  (0 <= shr_m mrs)%Z ->
  inbetween (shr_m mrs) x (loc_of_shr_record mrs) ->
  (0 <= shr_m (shr_1 mrs))%Z
  /\ inbetween (shr_m (shr_1 mrs)) (x / 2) (loc_of_shr_record (shr_1 mrs)).
Proof.
  destruct mrs as [m r s]. cbn [shr_m]. intros Hm H.
  destruct m as [|p|p]; [| |lia].
  - split; [reflexivity|].
    destruct r, s; cbn [shr_1 shr_m loc_of_shr_record orb inbetween] in H |- *;
      try destruct H as (H1 & H2 & H3);
      change (inject_Z 0) with 0 in *;
      compare_to_order; repeat split; compare_to_order;
      unfold Qdiv; change (/ 2) with (1 # 2); lra.
  - destruct p as [p|p|]; (split; [cbn; lia|]);
      destruct r, s; cbn [shr_1 shr_m loc_of_shr_record orb inbetween] in H |- *;
      try destruct H as (H1 & H2 & H3);
      rewrite ?inject_Z_xI, ?inject_Z_xO in *;
      change (inject_Z 0) with 0 in *; change (inject_Z 1) with 1 in *;
      compare_to_order; repeat split; compare_to_order;
      unfold Qdiv; change (/ 2) with (1 # 2); lra.
Qed.

Lemma iter_pos_shr_1_inbetween (p : positive) :
  forall (mrs : shr_record) (x : Q),
    (0 <= shr_m mrs)%Z ->
    inbetween (shr_m mrs) x (loc_of_shr_record mrs) ->
    (0 <= shr_m (SpecFloat.iter_pos shr_1 p mrs))%Z
    /\ inbetween (shr_m (SpecFloat.iter_pos shr_1 p mrs)) (x / 2 ^ Z.pos p)
         (loc_of_shr_record (SpecFloat.iter_pos shr_1 p mrs)).
Proof.
  induction p as [p IH|p IH|]; intros mrs x Hm H; cbn [SpecFloat.iter_pos].
  - destruct (shr_1_inbetween mrs x Hm H) as [Hm1 H1].
    destruct (IH _ _ Hm1 H1) as [Hm2 H2].
    destruct (IH _ _ Hm2 H2) as [Hm3 H3].
    split; [exact Hm3|]. eapply inbetween_ext; [|exact H3].
    rewrite (Pos2Z.inj_xI p).
    replace (2 * Z.pos p + 1)%Z with (Z.pos p + Z.pos p + 1)%Z by lia.
    rewrite 2!pow2_add. change (2 ^ 1) with 2.
    pose proof (pow2_pos (Z.pos p)). field. lra.
  - destruct (IH _ _ Hm H) as [Hm2 H2].
    destruct (IH _ _ Hm2 H2) as [Hm3 H3].
    split; [exact Hm3|]. eapply inbetween_ext; [|exact H3].
    rewrite (Pos2Z.inj_xO p).
    replace (2 * Z.pos p)%Z with (Z.pos p + Z.pos p)%Z by lia.
    rewrite pow2_add.
    pose proof (pow2_pos (Z.pos p)). field. lra.
  - exact (shr_1_inbetween mrs x Hm H).
Qed.

(** [shr]: the shifted mantissa, at the new exponent, brackets the same
    number; and either nothing was shifted or the exponent grew. *)
Lemma shr_inbetween (mrs : shr_record) (e n : Z) (mrs' : shr_record) (e' : Z) (x : Q) :
  shr mrs e n = (mrs', e') ->
  (0 <= shr_m mrs)%Z ->
  inbetween (shr_m mrs) x (loc_of_shr_record mrs) ->
  exists x',
    (0 <= shr_m mrs')%Z
    /\ inbetween (shr_m mrs') x' (loc_of_shr_record mrs')
    /\ x' * 2 ^ e' == x * 2 ^ e
    /\ ((mrs' = mrs /\ e' = e) \/ (e + 1 <= e')%Z).
Proof.
  intros E Hm H. unfold shr in E.
  destruct n as [|p|p]; try (injection E as <- <-; exists x; split; [exact Hm|];
                              split; [exact H|]; split; [reflexivity|left; auto]).
  injection E as <- <-.
  destruct (iter_pos_shr_1_inbetween p mrs x Hm H) as [Hm' H'].
  exists (x / 2 ^ Z.pos p). split; [exact Hm'|]. split; [exact H'|]. split.
  - change (e + Z.pos p)%Z with (Z.add e (Z.pos p)). rewrite pow2_add.
    pose proof (pow2_pos (Z.pos p)). field. lra.
  - right. change (e + Z.pos p)%Z with (Z.add e (Z.pos p)). lia.
Qed.

Lemma loc_of_shr_record_of_loc (m : Z) (l : location) :
  loc_of_shr_record (shr_record_of_loc m l) = l.
Proof. destruct l as [|[]]; reflexivity. Qed.

Lemma shr_m_shr_record_of_loc (m : Z) (l : location) :
  shr_m (shr_record_of_loc m l) = m.
Proof. destruct l as [|[]]; reflexivity. Qed.

(** Rounding to nearest moves the mantissa by at most one half. *)
Lemma round_nearest_even_close (m : Z) (x : Q) (l : location) :
  inbetween m x l ->
  (m <= round_nearest_even m l)%Z
  /\ x - (1 # 2) <= inject_Z (round_nearest_even m l)
  /\ inject_Z (round_nearest_even m l) <= x + (1 # 2).
Proof.
  destruct l as [|[]]; cbn [inbetween round_nearest_even].
  - intros H. split; [lia|]. lra.
  - intros (H1 & H2 & H3). compare_to_order.
    change IntDef.Z.even with Z.even. destruct (Z.even m).
    + split; [lia|]. lra.
    + split; [lia|]. rewrite inject_Z_plus. change (inject_Z 1) with 1. lra.
  - intros (H1 & H2 & H3). compare_to_order. split; [lia|]. lra.
  - intros (H1 & H2 & H3). compare_to_order. split; [lia|].
    rewrite inject_Z_plus. change (inject_Z 1) with 1. lra.
Qed.

(** [binary_round_aux]: when the result is finite, it is off the number
    rounded by at most five quarters of its unit in the last place. *)
Lemma binary_round_aux_close (prec emax : Z) (sx : bool) (mx ex : Z) (lx : location)
    (x : Q) (sf : bool) (mf : positive) (ef : Z) :
  (0 <= mx)%Z ->
  inbetween mx x lx ->
  binary_round_aux prec emax sx mx ex lx = S754_finite sf mf ef ->
  x * 2 ^ ex - (5 # 4) * 2 ^ ef <= inject_Z (Z.pos mf) * 2 ^ ef
  /\ inject_Z (Z.pos mf) * 2 ^ ef <= x * 2 ^ ex + (5 # 4) * 2 ^ ef.
Proof.
  intros Hm H E. unfold binary_round_aux, shr_fexp in E.
  destruct (shr (shr_record_of_loc mx lx) ex _) as [mrs' e'] eqn:E1.
  destruct (shr (shr_record_of_loc _ loc_Exact) e' _) as [mrs'' e''] eqn:E2.
  destruct (shr_inbetween _ _ _ _ _ x E1) as (x' & Hm' & H' & Ex' & _).
  { rewrite shr_m_shr_record_of_loc. exact Hm. }
  { rewrite shr_m_shr_record_of_loc, loc_of_shr_record_of_loc. exact H. }
  destruct (round_nearest_even_close _ _ _ H') as (Hr & Hlo & Hhi).
  set (m2 := round_nearest_even (shr_m mrs') (loc_of_shr_record mrs')) in *.
  destruct (shr_inbetween _ _ _ _ _ (inject_Z m2) E2) as (x'' & Hm'' & H'' & Ex'' & Hcase).
  { cbn [shr_record_of_loc shr_m]. lia. }
  { cbn [shr_record_of_loc shr_m loc_of_shr_record inbetween]. reflexivity. }
  destruct (shr_m mrs'') as [|m|m] eqn:Em; try discriminate.
  destruct (e'' <=? emax - prec)%Z; try discriminate.
  injection E as _ <- <-.
  apply inbetween_bounds in H''. destruct H'' as [Hb1 Hb2].
  pose proof (pow2_pos e') as P'. pose proof (pow2_pos e'') as P''.
  destruct Hcase as [[-> ->]|Hstep].
  - cbn [shr_record_of_loc shr_m] in Em. rewrite <- Em.
    rewrite <- Ex'. split; nra.
  - pose proof (pow2_half _ _ Hstep) as Hhalf.
    rewrite <- Ex'.
    assert (inject_Z m2 * 2 ^ e' - 2 ^ e'' <= inject_Z (Z.pos m) * 2 ^ e''
            /\ inject_Z (Z.pos m) * 2 ^ e'' <= inject_Z m2 * 2 ^ e') as [Ha Hb].
    { rewrite <- Ex''. split; nra. }
    split; nra.
Qed.

(** *** The operations on doubles *)

Lemma digits2_pos_bounds (m : positive) :
  (2 ^ (Z.pos (digits2_pos m) - 1) <= Z.pos m < 2 ^ Z.pos (digits2_pos m))%Z.
Proof.
  induction m as [m IH|m IH|]; cbn [digits2_pos].
  - change (PosDef.Pos.succ (digits2_pos m)) with (Pos.succ (digits2_pos m)).
    rewrite Pos2Z.inj_succ, (Pos2Z.inj_xI m).
    replace (Z.succ (Z.pos (digits2_pos m)) - 1)%Z
      with (Z.succ (Z.pos (digits2_pos m) - 1)) by lia.
    rewrite !Z.pow_succ_r by lia. lia.
  - change (PosDef.Pos.succ (digits2_pos m)) with (Pos.succ (digits2_pos m)).
    rewrite Pos2Z.inj_succ, (Pos2Z.inj_xO m).
    replace (Z.succ (Z.pos (digits2_pos m)) - 1)%Z
      with (Z.succ (Z.pos (digits2_pos m) - 1)) by lia.
    rewrite !Z.pow_succ_r by lia. lia.
  - cbn. lia.
Qed.

Lemma normal_spec (x : float) :
  normal x = true ->
  exists m e, Prim2SF x = S754_finite false m e
              /\ (4503599627370496 <= Z.pos m < 9007199254740992)%Z.
Proof.
  unfold normal. rewrite FloatAxioms.classify_spec. unfold SF64classify, SFclassify.
  destruct (Prim2SF x) as [[]|[]| |[] m e]; try discriminate.
  - destruct (Z.pos (digits2_pos m) =? prec)%Z; discriminate.
  - destruct (Z.pos (digits2_pos m) =? prec)%Z eqn:Ed; [|discriminate].
    intros _. exists m, e. split; [reflexivity|].
    apply Z.eqb_eq in Ed. pose proof (digits2_pos_bounds m) as Hb.
    rewrite Ed in Hb. exact Hb.
Qed.

Lemma value_finite (x : float) (m : positive) (e : Z) :
  Prim2SF x = S754_finite false m e -> value x = inject_Z (Z.pos m) * 2 ^ e.
Proof. intros E. unfold value. rewrite E. reflexivity. Qed.

Lemma inject_Z_pos (m : positive) : 0 < inject_Z (Z.pos m).
Proof. unfold Qlt. simpl. lia. Qed.

Lemma value_finite_pos (x : float) (m : positive) (e : Z) :
  Prim2SF x = S754_finite false m e -> 0 < value x.
Proof.
  intros E. rewrite (value_finite _ _ _ E).
  pose proof (pow2_pos e).
  pose proof (inject_Z_pos m). nra.
Qed.

(** One rounding to a normal double stays within [rho]. *)
Lemma rounded_within (v : Q) (mf : positive) (ef : Z) :
  (4503599627370496 <= Z.pos mf)%Z ->
  v - (5 # 4) * 2 ^ ef <= inject_Z (Z.pos mf) * 2 ^ ef ->
  inject_Z (Z.pos mf) * 2 ^ ef <= v + (5 # 4) * 2 ^ ef ->
  within_factor rho (inject_Z (Z.pos mf) * 2 ^ ef) v.
Proof.
  intros Hm Hlo Hhi. rewrite Zle_Qle in Hm.
  set (M := inject_Z (Z.pos mf)) in *.
  change (inject_Z 4503599627370496) with 4503599627370496 in Hm.
  pose proof (pow2_pos ef) as Hu. set (u := 2 ^ ef) in *.
  unfold within_factor, rho. split; nra.
Qed.

Lemma iter_xO (m d : positive) :
  Z.pos (Pos.iter xO m d) = (Z.pos m * 2 ^ Z.pos d)%Z.
Proof.
  induction d as [|d IH] using Pos.peano_ind.
  - cbn. lia.
  - rewrite Pos.iter_succ, (Pos2Z.inj_xO (Pos.iter xO m d)), IH, Pos2Z.inj_succ,
      Z.pow_succ_r by lia. lia.
Qed.

Lemma inject_Z_pow2 (n : Z) : (0 <= n)%Z -> inject_Z (2 ^ n) == 2 ^ n.
Proof. intros H. rewrite Zpower_Qpower by exact H. reflexivity. Qed.

Lemma shl_align_value (m : positive) (e e' : Z) :
  inject_Z (Z.pos (fst (shl_align m e e'))) * 2 ^ snd (shl_align m e e')
  == inject_Z (Z.pos m) * 2 ^ e.
Proof.
  unfold shl_align. destruct (e' - e)%Z as [|d|d] eqn:Ed; cbn [fst snd]; try reflexivity.
  change (PosDef.Pos.iter xO m d) with (Pos.iter xO m d).
  rewrite iter_xO, inject_Z_mult, inject_Z_pow2 by lia.
  replace e with (Z.pos d + e')%Z by lia.
  rewrite pow2_add. ring.
Qed.

Lemma shl_align_exponent (m : positive) (e e' : Z) :
  (e' <= e)%Z -> snd (shl_align m e e') = e'.
Proof.
  intros H. unfold shl_align. destruct (e' - e)%Z as [|d|d] eqn:Ed; cbn [snd]; lia.
Qed.

(** A product that is a normal double is within [rho] of the product of
    the numbers. *)
Lemma mul_within (x y : float) (mx my : positive) (ex ey : Z) :
  Prim2SF x = S754_finite false mx ex ->
  Prim2SF y = S754_finite false my ey ->
  normal (x * y) = true ->
  within_factor rho (value (x * y)) (value x * value y).
Proof.
  intros Ex Ey Hn. destruct (normal_spec _ Hn) as (mf & ef & Ef & Hm & _).
  rewrite (value_finite _ _ _ Ef), (value_finite _ _ _ Ex), (value_finite _ _ _ Ey).
  rewrite FloatAxioms.mul_spec, Ex, Ey in Ef. unfold SF64mul, SFmul in Ef.
  destruct (binary_round_aux_close _ _ _ (Z.pos (mx * my)) _ loc_Exact
              (inject_Z (Z.pos (mx * my))) _ _ _
              (Pos2Z.is_nonneg _) (Qeq_refl _) Ef) as [Hlo Hhi].
  assert (inject_Z (Z.pos (mx * my)) * 2 ^ (ex + ey)
          == inject_Z (Z.pos mx) * 2 ^ ex * (inject_Z (Z.pos my) * 2 ^ ey)) as Ev.
  { rewrite Pos2Z.inj_mul, inject_Z_mult, pow2_add. ring. }
  rewrite Ev in Hlo, Hhi.
  apply rounded_within; assumption.
Qed.

(** A sum of two positive doubles that is a normal double is within [rho]
    of the sum of the numbers. *)
Lemma add_within (x y : float) (mx my : positive) (ex ey : Z) :
  Prim2SF x = S754_finite false mx ex ->
  Prim2SF y = S754_finite false my ey ->
  normal (x + y) = true ->
  within_factor rho (value (x + y)) (value x + value y).
Proof.
  intros Ex Ey Hn. destruct (normal_spec _ Hn) as (mf & ef & Ef & Hm & _).
  rewrite (value_finite _ _ _ Ef), (value_finite _ _ _ Ex), (value_finite _ _ _ Ey).
  rewrite FloatAxioms.add_spec, Ex, Ey in Ef. unfold SF64add, SFadd in Ef.
  cbv zeta in Ef. set (ez := Z.min ex ey) in *.
  pose proof (shl_align_value mx ex ez) as Vx.
  pose proof (shl_align_value my ey ez) as Vy.
  rewrite (shl_align_exponent mx ex ez) in Vx by lia.
  rewrite (shl_align_exponent my ey ez) in Vy by lia.
  set (ax := fst (shl_align mx ex ez)) in *.
  set (ay := fst (shl_align my ey ez)) in *.
  change (cond_Zopp false (Z.pos ax) + cond_Zopp false (Z.pos ay))%Z
    with (Z.pos (ax + ay)) in Ef.
  unfold binary_normalize, binary_round in Ef.
  pose proof (shl_align_value (ax + ay) ez
                (fexp prec emax (Z.pos (digits2_pos (ax + ay)) + ez))) as Vz.
  destruct (shl_align (ax + ay) ez _) as [mz ez'].
  cbn [fst snd] in Vz.
  destruct (binary_round_aux_close _ _ _ (Z.pos mz) _ loc_Exact
              (inject_Z (Z.pos mz)) _ _ _
              (Pos2Z.is_nonneg _) (Qeq_refl _) Ef) as [Hlo Hhi].
  assert (inject_Z (Z.pos mz) * 2 ^ ez'
          == inject_Z (Z.pos mx) * 2 ^ ex + inject_Z (Z.pos my) * 2 ^ ey) as Ev.
  { rewrite Vz, <- Vx, <- Vy, Pos2Z.inj_add, inject_Z_plus. ring. }
  rewrite Ev in Hlo, Hhi.
  apply rounded_within; assumption.
Qed.

(** Adding to the zero a sum starts from changes nothing. *)
Lemma add_zero (x y : float) (my : positive) (ey : Z) :
  Prim2SF x = S754_zero false ->
  Prim2SF y = S754_finite false my ey ->
  Prim2SF (x + y) = S754_finite false my ey.
Proof.
  intros Ex Ey. rewrite FloatAxioms.add_spec, Ex, Ey. reflexivity.
Qed.

Lemma new_location_inbetween (d r q : Z) :
  (0 <= r < d)%Z ->
  inbetween q (inject_Z q + inject_Z r / inject_Z d) (new_location d r).
Proof.
  intros [Hr Hd].
  assert (0 < inject_Z d) as HD by (change 0 with (inject_Z 0); rewrite <- Zlt_Qlt; lia).
  assert (0 <= inject_Z r) as HR by (change 0 with (inject_Z 0); rewrite <- Zle_Qle; lia).
  assert (inject_Z r < inject_Z d) as HRD by (rewrite <- Zlt_Qlt; lia).
  set (t := inject_Z r / inject_Z d).
  assert (inject_Z r == t * inject_Z d) as Et by (unfold t; field; lra).
  clearbody t.
  assert (r = 0%Z -> t == 0) as Hzero.
  { intros ->. change (inject_Z 0) with 0 in Et. nra. }
  assert (r <> 0%Z -> 0 < t /\ t < 1) as Hpos.
  { intros Hne.
    assert (0 < inject_Z r) by (change 0 with (inject_Z 0); rewrite <- Zlt_Qlt; lia).
    split; nra. }
  unfold new_location, new_location_even, new_location_odd.
  change IntDef.Z.even with Z.even. change IntDef.Z.eqb with Z.eqb.
  change IntDef.Z.compare with Z.compare. change IntDef.Z.mul with Z.mul.
  change IntDef.Z.add with Z.add.
  destruct (Z.even d) eqn:Ee; cbv beta; destruct (r =? 0)%Z eqn:E0;
    try (apply Z.eqb_eq in E0; cbn [inbetween]; rewrite (Hzero E0); ring);
    apply Z.eqb_neq in E0; destruct (Hpos E0) as [Ht0 Ht1]; cbn [inbetween];
    (split; [lra|]); (split; [lra|]).
  - destruct (Z.compare_spec (2 * r) d) as [Hc|Hc|Hc].
    + apply (f_equal inject_Z) in Hc. rewrite inject_Z_mult in Hc.
      change (inject_Z 2) with 2 in Hc.
      apply -> Qeq_alt. rewrite <- Hc in Et, HD. nra.
    + rewrite Zlt_Qlt, inject_Z_mult in Hc. change (inject_Z 2) with 2 in Hc.
      apply -> Qlt_alt. nra.
    + rewrite Zlt_Qlt, inject_Z_mult in Hc. change (inject_Z 2) with 2 in Hc.
      apply -> Qgt_alt. nra.
  - assert (2 * r <> d)%Z as Hodd.
    { intros <-. rewrite Z.even_mul in Ee. discriminate. }
    destruct (Z.compare_spec (2 * r + 1) d) as [Hc|Hc|Hc].
    + assert (2 * r < d)%Z as Hlt by lia.
      rewrite Zlt_Qlt, inject_Z_mult in Hlt. change (inject_Z 2) with 2 in Hlt.
      apply -> Qlt_alt. nra.
    + assert (2 * r < d)%Z as Hlt by lia.
      rewrite Zlt_Qlt, inject_Z_mult in Hlt. change (inject_Z 2) with 2 in Hlt.
      apply -> Qlt_alt. nra.
    + assert (d < 2 * r)%Z as Hlt by lia.
      rewrite Zlt_Qlt, inject_Z_mult in Hlt. change (inject_Z 2) with 2 in Hlt.
      apply -> Qgt_alt. nra.
Qed.

Lemma SFdiv_core_binary_inbetween (mx my : positive) (ex ey : Z) (q e' : Z)
    (l : location) :
  SFdiv_core_binary prec emax (Z.pos mx) ex (Z.pos my) ey = (q, e', l) ->
  (0 <= q)%Z
  /\ inbetween q (inject_Z (Z.pos mx) * 2 ^ ex / (inject_Z (Z.pos my) * 2 ^ ey) / 2 ^ e') l.
Proof.
  unfold SFdiv_core_binary. cbv zeta.
  set (e0 := Z.min _ _).
  assert (0 <= ex - ey - e0)%Z as Hs by (unfold e0; lia).
  set (m' := match (ex - ey - e0)%Z with
             | 0%Z => Z.pos mx
             | Z.pos _ => Z.shiftl (Z.pos mx) (ex - ey - e0)
             | Z.neg _ => 0%Z
             end).
  assert (m' = Z.pos mx * 2 ^ (ex - ey - e0))%Z as Em.
  { unfold m'. destruct (ex - ey - e0)%Z as [|s|s] eqn:Es; [cbn; lia| |lia].
    rewrite Z.shiftl_mul_pow2 by lia. reflexivity. }
  clearbody m'.
  change IntDef.Z.div_eucl with Z.div_eucl.
  pose proof (Z_div_mod m' (Z.pos my) ltac:(lia)) as Hdiv.
  destruct (Z.div_eucl m' (Z.pos my)) as [q0 r0]. destruct Hdiv as [Hq Hr].
  intros [= <- <- <-].
  split; [nia|].
  eapply inbetween_ext; [|apply new_location_inbetween; exact Hr].
  pose proof (pow2_pos ey). pose proof (pow2_pos e0). pose proof (inject_Z_pos my).
  assert (inject_Z m' == inject_Z (Z.pos my) * inject_Z q0 + inject_Z r0) as Eq.
  { rewrite Hq, inject_Z_plus, inject_Z_mult. reflexivity. }
  assert (inject_Z m' == inject_Z (Z.pos mx) * 2 ^ (ex - ey - e0)) as Eq'.
  { rewrite Em, inject_Z_mult, inject_Z_pow2 by lia. reflexivity. }
  assert (2 ^ ex == 2 ^ (ex - ey - e0) * 2 ^ ey * 2 ^ e0) as Epow.
  { rewrite <- !pow2_add. replace (ex - ey - e0 + ey + e0)%Z with ex by lia. reflexivity. }
  rewrite Epow. set (P := 2 ^ (ex - ey - e0)) in *.
  transitivity (inject_Z m' / inject_Z (Z.pos my)).
  - rewrite Eq. field. lra.
  - rewrite Eq'. field. lra.
Qed.

(** A quotient of two positive doubles that is a normal double is within
    [rho] of the quotient of the numbers. *)
Lemma div_within (x y : float) (mx my : positive) (ex ey : Z) :
  Prim2SF x = S754_finite false mx ex ->
  Prim2SF y = S754_finite false my ey ->
  normal (x / y) = true ->
  within_factor rho (value (x / y)) (value x / value y).
Proof.
  intros Ex Ey Hn. destruct (normal_spec _ Hn) as (mf & ef & Ef & Hm & _).
  rewrite (value_finite _ _ _ Ef), (value_finite _ _ _ Ex), (value_finite _ _ _ Ey).
  rewrite FloatAxioms.div_spec, Ex, Ey in Ef. unfold SF64div, SFdiv in Ef.
  destruct (SFdiv_core_binary prec emax (Z.pos mx) ex (Z.pos my) ey)
    as [[q e'] l] eqn:Ec.
  destruct (SFdiv_core_binary_inbetween _ _ _ _ _ _ _ Ec) as [Hq Hin].
  destruct (binary_round_aux_close _ _ _ _ _ _ _ _ _ _ Hq Hin Ef) as [Hlo Hhi].
  pose proof (pow2_pos e'). pose proof (pow2_pos ey). pose proof (inject_Z_pos my).
  assert (inject_Z (Z.pos mx) * 2 ^ ex / (inject_Z (Z.pos my) * 2 ^ ey) / 2 ^ e' * 2 ^ e'
          == inject_Z (Z.pos mx) * 2 ^ ex / (inject_Z (Z.pos my) * 2 ^ ey)) as Ev.
  { field. lra. }
  rewrite Ev in Hlo, Hhi.
  apply rounded_within; assumption.
Qed.

End Rounding.

(** ** The budget within its tolerance *)

Section Budget.

Local Open Scope Q_scope.

Lemma rho_above_1 : 1 <= rho.
Proof. unfold rho. apply Qle_bool_iff. reflexivity. Qed.

Lemma rho_pow_above_1 (n : nat) : 1 <= rho ^ Z.of_nat n.
Proof. apply Qpower_1_le; [apply rho_above_1|lia]. Qed.

Lemma rho_pow_succ (n : nat) : rho ^ Z.of_nat (S n) == rho ^ Z.of_nat n * rho.
Proof.
  rewrite Nat2Z.inj_succ. unfold Z.succ. rewrite Qpower_plus by discriminate.
  reflexivity.
Qed.

Lemma within_ext (t t' a a' b b' : Q) :
  t == t' -> a == a' -> b == b' -> within_factor t a b -> within_factor t' a' b'.
Proof. intros Et Ea Eb [H1 H2]. unfold within_factor. rewrite <- Et, <- Ea, <- Eb. auto. Qed.

Lemma within_refl (t a : Q) : 1 <= t -> 0 <= a -> within_factor t a a.
Proof. intros Ht Ha. split; nra. Qed.

Lemma within_add (t a b c d : Q) :
  within_factor t a b -> within_factor t c d -> within_factor t (a + c) (b + d).
Proof. intros [H1 H2] [H3 H4]. split; lra. Qed.

Lemma within_trans (t1 t2 a b c : Q) :
  0 <= t1 -> 0 <= t2 ->
  within_factor t1 a b -> within_factor t2 b c -> within_factor (t1 * t2) a c.
Proof. intros Ht1 Ht2 [H1 H2] [H3 H4]. split; nra. Qed.

Lemma within_mul (t1 t2 a b c d : Q) :
  0 <= a -> 0 <= b -> 0 <= c -> 0 <= d -> 0 <= t1 -> 0 <= t2 ->
  within_factor t1 a b -> within_factor t2 c d -> within_factor (t1 * t2) (a * c) (b * d).
Proof.
  intros Ha Hb Hc Hd Ht1 Ht2 [H1 H2] [H3 H4]. split.
  - apply Qle_trans with (b * t1 * (d * t2)); [|lra].
    apply Qle_trans with (b * t1 * c); [nra|]. assert (0 <= b * t1) by nra. nra.
  - apply Qle_trans with (a * t1 * (c * t2)); [|lra].
    apply Qle_trans with (a * t1 * d); [nra|]. assert (0 <= a * t1) by nra. nra.
Qed.

Lemma within_inv (t a b : Q) : 0 < a -> 0 < b -> within_factor t a b -> within_factor t (/ a) (/ b).
Proof.
  intros Ha Hb [H1 H2].
  assert (0 < / a) as Hia by (apply Qinv_lt_0_compat; exact Ha).
  assert (0 < / b) as Hib by (apply Qinv_lt_0_compat; exact Hb).
  assert (a * / a == 1) as Ea by (field; lra).
  assert (b * / b == 1) as Eb by (field; lra).
  assert (0 <= / a * / b) as Hab by nra.
  split.
  - assert (/ a * / b * b <= / a * / b * (a * t)) as Hm by nra.
    assert (/ a * / b * b == / a) as E1
        by (transitivity (/ a * (b * / b)); [ring|rewrite Eb; ring]).
    assert (/ a * / b * (a * t) == / b * t) as E2
        by (transitivity (a * / a * (/ b * t)); [ring|rewrite Ea; ring]).
    rewrite E1, E2 in Hm. exact Hm.
  - assert (/ a * / b * a <= / a * / b * (b * t)) as Hm by nra.
    assert (/ a * / b * a == / b) as E1
        by (transitivity (a * / a * / b); [ring|rewrite Ea; ring]).
    assert (/ a * / b * (b * t) == / a * t) as E2
        by (transitivity (b * / b * (/ a * t)); [ring|rewrite Eb; ring]).
    rewrite E1, E2 in Hm. exact Hm.
Qed.

Lemma within_div (t1 t2 a b c d : Q) :
  0 <= a -> 0 <= b -> 0 < c -> 0 < d -> 0 <= t1 -> 0 <= t2 ->
  within_factor t1 a b -> within_factor t2 c d -> within_factor (t1 * t2) (a / c) (b / d).
Proof.
  intros Ha Hb Hc Hd Ht1 Ht2 H1 H2. unfold Qdiv.
  apply within_mul; try assumption.
  - apply Qlt_le_weak, Qinv_lt_0_compat; exact Hc.
  - apply Qlt_le_weak, Qinv_lt_0_compat; exact Hd.
  - apply within_inv; assumption.
Qed.

(** A double above zero is a positive number or the positive infinity. *)
Lemma above_zero (x : float) :
  (0 <? x)%float = true ->
  (exists m e, Prim2SF x = S754_finite false m e) \/ Prim2SF x = S754_infinity false.
Proof.
  rewrite FloatAxioms.ltb_spec. change (Prim2SF 0) with (S754_zero false).
  unfold SFltb. destruct (Prim2SF x) as [s|s| |s m e]; cbn.
  - destruct s; discriminate.
  - destruct s; [discriminate|]. auto.
  - discriminate.
  - destruct s; [discriminate|]. eauto.
Qed.

Lemma normal_finite (x : float) :
  normal x = true -> exists m e, Prim2SF x = S754_finite false m e.
Proof. intros H. destruct (normal_spec x H) as (m & e & E & _). eauto. Qed.

Lemma normal_positive (x : float) : normal x = true -> 0 < value x.
Proof.
  intros H. destruct (normal_finite x H) as (m & e & E).
  exact (value_finite_pos _ _ _ E).
Qed.

(** One more sample in a running total. *)
Lemma total_of_step (c : nat) (t a : float) (T : Q) :
  total_of c t T ->
  (0 <? a)%float = true ->
  normal (t + a) = true ->
  total_of (S c) (t + a) (T + value a).
Proof.
  intros Ht Ha Hn.
  destruct (above_zero a Ha) as [(ma & ea & Ea)|Ea].
  - pose proof (value_finite_pos _ _ _ Ea) as Hpa.
    destruct c as [|j]; cbn [total_of] in Ht |- *.
    + destruct Ht as [Et ET]. split; [exact Hn|]. split; [lra|].
      pose proof (add_zero t a ma ea Et Ea) as Es.
      assert (value (t + a) = value a) as -> by (unfold value; rewrite Es, Ea; reflexivity).
      eapply within_ext; [reflexivity|reflexivity| |apply within_refl].
      * rewrite ET. ring.
      * change (rho ^ Z.of_nat 0) with 1. lra.
      * lra.
    + destruct Ht as (Hnt & HT & Hw).
      destruct (normal_finite t Hnt) as (mt & et & Et).
      pose proof (value_finite_pos _ _ _ Et) as Hpt.
      split; [exact Hn|]. split; [lra|].
      pose proof (add_within t a _ _ _ _ Et Ea Hn) as Hr.
      pose proof (rho_pow_above_1 j) as Hj. pose proof rho_above_1 as H1.
      eapply within_ext; [symmetry; apply rho_pow_succ|reflexivity|reflexivity|].
      eapply within_ext; [apply Qmult_comm|reflexivity|reflexivity|].
      eapply within_trans; [lra|lra|exact Hr|].
      apply within_add; [exact Hw|]. apply within_refl; lra.
  - exfalso. destruct (normal_finite _ Hn) as (m & e & E).
    rewrite FloatAxioms.add_spec, Ea in E. unfold SF64add, SFadd in E.
    destruct (Prim2SF t) as [[]|[]| |]; discriminate.
Qed.

Lemma total_of_ext (c : nat) (t : float) (T T' : Q) :
  T == T' -> total_of c t T -> total_of c t T'.
Proof.
  intros E. destruct c as [|j]; cbn [total_of].
  - intros [H1 H2]. split; [exact H1|]. rewrite <- E. exact H2.
  - intros (H1 & H2 & H3). split; [exact H1|]. split; [rewrite <- E; exact H2|].
    eapply within_ext; [reflexivity|reflexivity|exact E|exact H3].
Qed.

Lemma total_of_fold (f : Sample float -> float) (vs : list (Sample float)) :
  (forall s, In s vs -> (0 <? f s)%float = true) ->
  forall (c : nat) (t : float) (T : Q),
    total_of c t T ->
    sums_normal f vs t = true ->
    total_of (length vs + c) (fold_left (fun a s => (a + f s)%float) vs t)
      (T + sum_of f vs).
Proof.
  induction vs as [|s vs IH]; intros Hpos c t T Ht Hn.
  - cbn [length fold_left sum_of fold_right Nat.add].
    eapply total_of_ext; [|exact Ht]. ring.
  - cbn [sums_normal] in Hn. apply andb_true_iff in Hn as [Hn1 Hn2].
    cbn [fold_left length sum_of fold_right].
    replace (S (length vs) + c)%nat with (length vs + S c)%nat by lia.
    assert (total_of (S c) (t + f s) (T + value (f s))) as Hs.
    { apply total_of_step; [exact Ht| |exact Hn1]. apply Hpos. left. reflexivity. }
    specialize (IH (fun s' Hs' => Hpos s' (or_intror Hs')) _ _ _ Hs Hn2).
    eapply total_of_ext; [|exact IH]. unfold sum_of. ring.
Qed.

(** Among normal doubles, [<?] is the order of the numbers. *)
Lemma ltb_value (x y : float) :
  normal x = true -> normal y = true -> (x <? y)%float = true -> value x < value y.
Proof.
  intros Hx Hy. destruct (normal_spec x Hx) as (mx & ex & Ex & _ & Hmx).
  destruct (normal_spec y Hy) as (my & ey & Ey & Hmy & _).
  rewrite FloatAxioms.ltb_spec, (value_finite _ _ _ Ex), (value_finite _ _ _ Ey), Ex, Ey.
  unfold SFltb, SFcompare.
  rewrite Zlt_Qlt in Hmx. rewrite Zle_Qle in Hmy.
  change (inject_Z 9007199254740992) with 9007199254740992 in Hmx.
  change (inject_Z 4503599627370496) with 4503599627370496 in Hmy.
  pose proof (pow2_pos ex) as Hux. pose proof (pow2_pos ey) as Huy.
  pose proof (inject_Z_pos mx) as Hpx.
  destruct (Z.compare_spec ex ey) as [->|Hlt|Hgt]; try discriminate.
  - change (Pos.compare_cont Eq mx my) with (Pos.compare mx my).
    destruct (Pos.compare_spec mx my) as [->|Hm|Hm]; try discriminate.
    intros _. assert (inject_Z (Z.pos mx) < inject_Z (Z.pos my)) by (rewrite <- Zlt_Qlt; lia).
    nra.
  - intros _. pose proof (pow2_half ex ey ltac:(lia)) as Hh.
    apply Qlt_le_trans with (9007199254740992 * 2 ^ ex); [nra|].
    apply Qle_trans with (4503599627370496 * 2 ^ ey); nra.
Qed.

Lemma normal_not_below (x : float) : normal x = true -> (x <=? 0)%float = false.
Proof.
  intros H. destruct (normal_finite x H) as (m & e & E).
  rewrite FloatAxioms.leb_spec, E. reflexivity.
Qed.

Lemma normal_not_nan (x : float) : normal x = true -> PrimFloat.is_nan x = false.
Proof.
  intros H. destruct (normal_finite x H) as (m & e & E).
  destruct (PrimFloat.is_nan x) eqn:En; [|reflexivity].
  apply float_is_nan_spec in En. congruence.
Qed.

Lemma valid_above_zero (s : Sample float) :
  valid s = true ->
  (0 <? timeIntervalWithinTransaction s)%float = true
  /\ (0 <? timeIntervalWholeTransaction s)%float = true.
Proof. intros H. apply andb_true_iff in H. exact H. Qed.

Lemma tolerance_above_1 (n : nat) : 1 <= tolerance n.
Proof. unfold tolerance. apply Qpower_1_le; [apply rho_above_1|lia]. Qed.

(** The budget in binary64, when nothing underflows or overflows: the
    quotient the code computes is within the tolerance of the maximum times
    the share of the valid samples' time spent within transactions, and it
    is the budget unless it is above the maximum. *)
Lemma budget_within (MAX B0 : float) (l : list (Sample float)) :
  in_normal_range MAX l = true ->
  let vs := List.filter valid l in
  let q := (MAX * total timeIntervalWithinTransaction vs
            / total timeIntervalWholeTransaction vs)%float in
  calculateTimeIntervalWithinTransaction MAX B0 l = (if (MAX <? q)%float then B0 else q)
  /\ normal q = true
  /\ 0 < sum_of timeIntervalWithinTransaction vs
  /\ 0 < sum_of timeIntervalWholeTransaction vs
  /\ within_factor (tolerance (length vs)) (value q)
       (value MAX * sum_of timeIntervalWithinTransaction vs
        / sum_of timeIntervalWholeTransaction vs).
Proof.
  intros Hr vs q. unfold in_normal_range in Hr. fold vs in Hr. cbv zeta in Hr.
  apply andb_true_iff in Hr as [Hr Hq]. apply andb_true_iff in Hr as [Hr Hp].
  apply andb_true_iff in Hr as [Hr HsW]. apply andb_true_iff in Hr as [HM HsA].
  fold q in Hq.
  assert (forall s, In s vs -> valid s = true) as Hvalid.
  { intros s Hs. unfold vs in Hs. apply filter_In in Hs. tauto. }
  pose proof (total_of_fold timeIntervalWithinTransaction vs
                (fun s Hs => proj1 (valid_above_zero s (Hvalid s Hs)))
                0 0%float 0 (conj eq_refl (Qeq_refl 0)) HsA) as HA.
  pose proof (total_of_fold timeIntervalWholeTransaction vs
                (fun s Hs => proj2 (valid_above_zero s (Hvalid s Hs)))
                0 0%float 0 (conj eq_refl (Qeq_refl 0)) HsW) as HW.
  change (fold_left _ vs 0%float) with (total timeIntervalWithinTransaction vs) in HA.
  change (fold_left _ vs 0%float) with (total timeIntervalWholeTransaction vs) in HW.
  set (A := total timeIntervalWithinTransaction vs) in *.
  set (W := total timeIntervalWholeTransaction vs) in *.
  rewrite Nat.add_0_r in HA, HW.
  destruct (normal_finite MAX HM) as (mM & eM & EM).
  pose proof (value_finite_pos _ _ _ EM) as HpM.
  destruct (length vs) as [|j] eqn:En; cbn [total_of] in HA, HW.
  { exfalso. destruct HA as [EA _]. destruct (normal_finite _ Hp) as (m & e & E).
    rewrite FloatAxioms.mul_spec, EM, EA in E. discriminate. }
  destruct HA as (HnA & HTA & HwA). destruct HW as (HnW & HTW & HwW).
  set (SA := sum_of timeIntervalWithinTransaction vs) in *.
  set (SW := sum_of timeIntervalWholeTransaction vs) in *.
  assert (0 + SA == SA) as E0A by ring. assert (0 + SW == SW) as E0W by ring.
  rewrite E0A in HTA. rewrite E0W in HTW.
  apply (within_ext _ _ _ _ _ _ (Qeq_refl _) (Qeq_refl _) E0A) in HwA.
  apply (within_ext _ _ _ _ _ _ (Qeq_refl _) (Qeq_refl _) E0W) in HwW.
  split.
  { rewrite calculate_refines. unfold next_budget_seconds. fold vs. fold A. fold W.
    cbn [dgt dlt dle disnan dmul ddiv dzero binary64]. fold q.
    rewrite (normal_not_below q Hq), (normal_not_nan q Hq), !orb_false_r.
    reflexivity. }
  split; [exact Hq|]. split; [exact HTA|]. split; [exact HTW|].
  destruct (normal_finite A HnA) as (mA & eA & EA).
  destruct (normal_finite W HnW) as (mW & eW & EW).
  destruct (normal_finite _ Hp) as (mp & ep & Ep).
  pose proof (value_finite_pos _ _ _ EA) as HpA.
  pose proof (value_finite_pos _ _ _ EW) as HpW.
  pose proof (value_finite_pos _ _ _ Ep) as Hpp.
  pose proof (mul_within MAX A _ _ _ _ EM EA Hp) as Hmul.
  pose proof (div_within (MAX * A) W _ _ _ _ Ep EW Hq) as Hdiv.
  pose proof (rho_pow_above_1 j) as Hj. pose proof rho_above_1 as H1.
  set (r := rho ^ Z.of_nat j) in *.
  assert (within_factor (1 * r) (value MAX * value A) (value MAX * SA)) as Ha.
  { apply within_mul; try lra; [apply within_refl; lra|exact HwA]. }
  assert (within_factor (rho * (1 * r)) (value (MAX * A)) (value MAX * SA)) as Hb.
  { eapply within_trans; [lra|lra|exact Hmul|exact Ha]. }
  assert (within_factor (rho * (1 * r) * r) (value (MAX * A) / value W) (value MAX * SA / SW)) as Hc.
  { apply within_div; try lra; try nra; [exact Hb|exact HwW]. }
  assert (within_factor (rho * (rho * (1 * r) * r)) (value q) (value MAX * SA / SW)) as Hd.
  { eapply within_trans; [lra|nra|exact Hdiv|exact Hc]. }
  eapply within_ext; [|reflexivity|reflexivity|exact Hd].
  unfold tolerance, r.
  replace (2 * Z.of_nat (S j))%Z with (1 + (1 + Z.of_nat j + Z.of_nat j))%Z by lia.
  rewrite !Qpower_plus by discriminate. change (rho ^ 1) with rho. ring.
Qed.

End Budget.

Section BudgetTheorems.

Local Open Scope Q_scope.

Lemma sum_of_ratio (k : Q) (vs : list (Sample float)) :
  (forall s, In s vs -> value (timeIntervalWholeTransaction s)
                        == k * value (timeIntervalWithinTransaction s)) ->
  sum_of timeIntervalWholeTransaction vs == k * sum_of timeIntervalWithinTransaction vs.
Proof.
  induction vs as [|s vs IH]; intros Hk; cbn [sum_of fold_right]; [ring|].
  fold (sum_of timeIntervalWholeTransaction vs).
  fold (sum_of timeIntervalWithinTransaction vs).
  rewrite (Hk s (or_introl eq_refl)), IH; [ring|].
  intros s' Hs'. apply Hk. right. exact Hs'.
Qed.

Lemma not_above (MAX q : float) :
  normal MAX = true -> normal q = true -> value q <= value MAX ->
  (MAX <? q)%float = false.
Proof.
  intros HM Hq Hle. destruct (MAX <? q)%float eqn:E; [|reflexivity].
  pose proof (ltb_value MAX q HM Hq E). lra.
Qed.

Lemma budget_share (MAX B0 : float) (l : list (Sample float)) :
  in_normal_range MAX l = true ->
  let vs := List.filter valid l in
  let share := sum_of timeIntervalWithinTransaction vs
               / sum_of timeIntervalWholeTransaction vs in
  let q := (MAX * total timeIntervalWithinTransaction vs
            / total timeIntervalWholeTransaction vs)%float in
  let b := calculateTimeIntervalWithinTransaction MAX B0 l in
  within_factor (tolerance (length vs)) (value q) (value MAX * share)
  /\ b = (if (MAX <? q)%float then B0 else q)
  /\ (tolerance (length vs) * sum_of timeIntervalWithinTransaction vs
      <= sum_of timeIntervalWholeTransaction vs -> b = q).
Proof.
  intros Hr vs share q b.
  destruct (budget_within MAX B0 l Hr) as (Hb & Hq & HA & HW & Hw).
  fold vs in HA, HW, Hw. fold q in Hq, Hw.
  change (b = (if (MAX <? q)%float then B0 else q)) in Hb.
  assert (within_factor (tolerance (length vs)) (value q) (value MAX * share)) as Hw'.
  { eapply within_ext; [reflexivity|reflexivity| |exact Hw]. unfold share, Qdiv. ring. }
  split; [exact Hw'|]. split; [exact Hb|].
  intros Hs. rewrite Hb.
  assert (normal MAX = true) as HM.
  { unfold in_normal_range in Hr. repeat (apply andb_true_iff in Hr as [Hr _]). exact Hr. }
  rewrite (not_above MAX q HM Hq); [reflexivity|].
  destruct Hw' as [Hle _]. eapply Qle_trans; [exact Hle|].
  pose proof (normal_positive MAX HM) as HpM.
  set (SA := sum_of timeIntervalWithinTransaction vs) in *.
  set (SW := sum_of timeIntervalWholeTransaction vs) in *.
  set (t := tolerance (length vs)) in *.
  assert (share * t <= 1) as Hone.
  { unfold share.
    assert (SA / SW * t == (t * SA) / SW) as -> by (field; lra).
    apply Qle_shift_div_r; [exact HW|]. lra. }
  nra.
Qed.

Lemma budget_ratio (MAX B0 : float) (l : list (Sample float)) (k : Q) :
  in_normal_range MAX l = true ->
  (forall s, In s l -> valid s = true ->
             value (timeIntervalWholeTransaction s)
             == k * value (timeIntervalWithinTransaction s)) ->
  let n := length (List.filter valid l) in
  let b := calculateTimeIntervalWithinTransaction MAX B0 l in
  (b = B0 \/ within_factor (tolerance n) (value b) (value MAX / k))
  /\ (tolerance n <= k -> within_factor (tolerance n) (value b) (value MAX / k)).
Proof.
  intros Hr Hk n b.
  destruct (budget_within MAX B0 l Hr) as (_ & _ & HA & HW & _).
  destruct (budget_share MAX B0 l Hr) as (Hw & Hb & Hs).
  fold b in Hb, Hs. fold n in Hw, Hs.
  set (vs := List.filter valid l) in *.
  set (SA := sum_of timeIntervalWithinTransaction vs) in *.
  set (SW := sum_of timeIntervalWholeTransaction vs) in *.
  set (q := (MAX * total timeIntervalWithinTransaction vs
             / total timeIntervalWholeTransaction vs)%float) in *.
  assert (SW == k * SA) as Ek.
  { apply sum_of_ratio. intros s Hs'. unfold vs in Hs'. apply filter_In in Hs'.
    apply Hk; tauto. }
  assert (0 < k) as Hkpos by nra.
  assert (value MAX * (SA / SW) == value MAX / k) as Ev.
  { rewrite Ek. field. lra. }
  assert (within_factor (tolerance n) (value q) (value MAX / k)) as Hw'.
  { eapply within_ext; [reflexivity|reflexivity|exact Ev|exact Hw]. }
  split.
  - rewrite Hb. destruct (MAX <? q)%float; [left; reflexivity|right; exact Hw'].
  - intros Ht. rewrite Hs; [exact Hw'|]. rewrite Ek.
    pose proof (tolerance_above_1 n). nra.
Qed.

End BudgetTheorems.


(** C2, as the code has it.  In binary64: the budget is
    [MigrateMaxExpectingDuration * sum_in / sum_whole] with both sums over
    exactly the valid samples, replaced by [MigrateMaxInitializeDuration] when
    it exceeds [MigrateMaxExpectingDuration], is [<= 0] or is NaN, and in
    particular when no sample is valid.  And when nothing underflows or
    overflows (the maximum, the running totals, the product and the quotient
    are normal doubles) and every valid sample has its whole time [k] times
    its time within the transaction, then with [n] valid samples: the budget
    is the initial budget or within the factor [tolerance n], that is
    [(1 - 2^-51)^-(2 n)], of the maximum divided by [k]; and it is within that
    factor whenever [k] is at least [tolerance n]. *)
Theorem calculateTimeIntervalWithinTransaction_budget :
  (forall (MAX B0 : float) (l : list (Sample float)),
      calculateTimeIntervalWithinTransaction MAX B0 l
      = let vs := List.filter valid l in
        let b := (MAX * total timeIntervalWithinTransaction vs
                  / total timeIntervalWholeTransaction vs)%float in
        if (MAX <? b)%float || (b <=? 0)%float || PrimFloat.is_nan b then B0 else b)
  /\ (forall (MAX B0 : float) (l : list (Sample float)),
         List.filter valid l = [] ->
         calculateTimeIntervalWithinTransaction MAX B0 l = B0)
  /\ (forall (MAX B0 : float) (l : list (Sample float)) (k : Q),
         in_normal_range MAX l = true ->
         (forall s, In s l -> valid s = true ->
                    (value (timeIntervalWholeTransaction s)
                     == k * value (timeIntervalWithinTransaction s))%Q) ->
         let n := length (List.filter valid l) in
         let b := calculateTimeIntervalWithinTransaction MAX B0 l in
         (b = B0 \/ within_factor (tolerance n) (value b) (value MAX / k)%Q)
         /\ ((tolerance n <= k)%Q ->
             within_factor (tolerance n) (value b) (value MAX / k)%Q)).
Proof.
  split; [|split].
  - intros MAX B0 l. exact (calculate_refines MAX B0 l).
  - apply calculate_no_valid_sample.
  - apply budget_ratio.
Qed.

Lemma calculateTimeIntervalWithinTransaction_budget_witness :
  let l := [mkSample 2 6; Sample_init; mkSample 1 3]%float in
  within_factor (tolerance 2)
    (value (calculateTimeIntervalWithinTransaction MAX_example B0_example l))
    (value MAX_example / 3)%Q.
Proof.
  intros l.
  refine (proj2 (proj2 (proj2 calculateTimeIntervalWithinTransaction_budget)
                   MAX_example B0_example l 3%Q _ _) _).
  - vm_compute. reflexivity.
  - intros s [<-|[<-|[<-|[]]]] Hv; try discriminate Hv; vm_compute; reflexivity.
  - apply Qle_bool_iff. vm_compute. reflexivity.
Defined.

(** C2 as stated fails on the code, and by more than any rounding: in each
    of these rings the budget is the initial budget, half the maximum, where
    the claim has the maximum divided by [k], and the two are not within the
    factor 3/2.  A sample with both durations equal ([k = 1]): the quotient
    [MAX * s / s] rounds above the maximum.  A sample that satisfies
    invariant S4 with the smallest positive double as its time within the
    transaction: the product underflows to zero.  A sample with [k < 1]: the
    quotient is above the maximum.  And a ring without valid samples. *)
Lemma budget_is_maximum_over_ratio_counterexample :
  ~ budget_is_maximum_over_ratio MAX_example B0_example
      [mkSample 0x1.dd5bc84784568p-3 0x1.dd5bc84784568p-3]%float 1 (3 # 2)
  /\ ~ budget_is_maximum_over_ratio MAX_example B0_example
         [mkSample 0x1p-1074 1]%float (2 ^ 1074)%Q (3 # 2)
  /\ ~ budget_is_maximum_over_ratio MAX_example B0_example
         [mkSample 4 1]%float (1 # 4) (3 # 2)
  /\ ~ budget_is_maximum_over_ratio MAX_example B0_example
         [Sample_init; Sample_init; Sample_init] 1 (3 # 2).
Proof.
  unfold budget_is_maximum_over_ratio.
  repeat split; intros Hc.
  - destruct Hc as [_ Hc].
    { intros s [<-|[]] _. vm_compute. reflexivity. }
    apply Qle_bool_iff in Hc. vm_compute in Hc. discriminate Hc.
  - destruct Hc as [Hc _].
    { intros s [<-|[]] _. vm_compute. reflexivity. }
    apply Qle_bool_iff in Hc. vm_compute in Hc. discriminate Hc.
  - destruct Hc as [_ Hc].
    { intros s [<-|[]] _. vm_compute. reflexivity. }
    apply Qle_bool_iff in Hc. vm_compute in Hc. discriminate Hc.
  - destruct Hc as [_ Hc].
    { intros s [<-|[<-|[<-|[]]]] Hv; discriminate Hv. }
    apply Qle_bool_iff in Hc. vm_compute in Hc. discriminate Hc.
Qed.

(** ** The hub: registration and fan-out *)

Lemma register_log_callable (g : Global) (r : Registration) :
  log_callable g -> log_callable (register g r).
Proof.
  intros Hg. destruct r as [name n|name n|name w l ws sl]; simpl.
  - unfold setNotificationForLog. case_bool_decide as Hn; simpl.
    + intros name' n' Hl. simpl in Hl. destruct (decide (name = name')) as [->|Hne].
      * rewrite lookup_insert_eq in Hl. injection Hl as <-.
        destruct n; [eauto | congruence].
      * rewrite lookup_insert_ne in Hl by done. eauto.
    + intros name' n' Hl. simpl in Hl. destruct (decide (name = name')) as [->|Hne].
      * rewrite lookup_delete_eq in Hl. discriminate.
      * rewrite lookup_delete_ne in Hl by done. eauto.
  - unfold setNotificationWhenFileOpened. case_bool_decide; exact Hg.
  - exact Hg.
Qed.

Lemma registerAll_log_callable (rs : list Registration) (g : Global) :
  log_callable g -> log_callable (registerAll rs g).
Proof.
  revert g. induction rs as [|r rs IH]; intros g Hg; [exact Hg|].
  apply IH, register_log_callable, Hg.
Qed.

Lemma Global_new_log_callable : log_callable Global_new.
Proof. intros name n Hl. simpl in Hl. rewrite lookup_empty in Hl. discriminate. Qed.

(** Calling every entry of a list of log notifications. *)
Lemma log_calls_of_entries (rc : Z) (message : string)
    (l : list (string * LogNotification)) (calls : list (string * Call)) :
  Forall2 (fun (iter : string * LogNotification) y =>
             (cb ← iter.2; Some (iter.1, CallLog cb rc message)) = Some y) l calls ->
  calls.*1 = l.*1
  /\ forall name call,
       (name, call) ∈ calls <->
       exists cb, (name, Some cb) ∈ l /\ call = CallLog cb rc message.
Proof.
  induction 1 as [|[name' n'] [name'' call''] l k Hf _ [IHn IHm]].
  - split; [reflexivity|]. intros name call. split; [intros Hin; inversion Hin|].
    intros (cb & Hin & _). inversion Hin.
  - simpl in Hf. destruct n' as [cb'|]; simpl in Hf; [|discriminate].
    injection Hf as <- <-. split; [simpl; f_equal; exact IHn|].
    intros name call. rewrite !elem_of_cons, IHm. split.
    + intros [Heq|(cb & Hin & ->)].
      * injection Heq as -> ->. exists cb'. rewrite elem_of_cons. auto.
      * exists cb. rewrite elem_of_cons. auto.
    + intros (cb & Hin & ->). apply elem_of_cons in Hin as [Heq|Hin].
      * injection Heq as -> ->. auto.
      * right. eauto.
Qed.

(** A completed log dispatch calls once per entry, in the order of the map. *)
Lemma postLogNotification_calls (rc : Z) (message : string) (g : Global)
    (calls : list (string * Call)) :
  postLogNotification rc message g = Some calls ->
  calls.*1 = (map_to_list (m_logNotifications g)).*1
  /\ forall name call,
       (name, call) ∈ calls <->
       exists cb, m_logNotifications g !! name = Some (Some cb)
                  /\ call = CallLog cb rc message.
Proof.
  unfold postLogNotification. intros Hm. apply mapM_Some in Hm.
  destruct (log_calls_of_entries _ _ _ _ Hm) as [Hn Hmem].
  split; [exact Hn|].
  intros name call. rewrite Hmem. split.
  - intros (cb & Hin & ->). exists cb. split; [|reflexivity].
    now apply elem_of_map_to_list in Hin.
  - intros (cb & Hl & ->). exists cb. split; [|reflexivity].
    now apply elem_of_map_to_list.
Qed.

Lemma postLogNotification_completes (rc : Z) (message : string) (g : Global) :
  log_callable g -> is_Some (postLogNotification rc message g).
Proof.
  intros Hg. unfold postLogNotification. apply mapM_is_Some, Forall_forall.
  intros [name n] Hin. apply elem_of_map_to_list in Hin.
  destruct (Hg name n Hin) as [cb ->]. simpl. eauto.
Qed.

(** C9.  Registering a callable under [name] inserts or replaces the entry of
    [name]; registering the empty notification removes it; other names are
    untouched.  On a hub reached by registrations, a log event is dispatched
    to completion, calls the callable of every registered name exactly once
    (the names called are without duplicates and are the registered ones),
    and calls nothing for a name that was just removed. *)
Theorem setNotificationForLog_fan_out :
  (forall name cb g,
      m_logNotifications (setNotificationForLog name (Some cb) g)
      = <[name := Some cb]> (m_logNotifications g))
  /\ (forall name g,
         m_logNotifications (setNotificationForLog name None g)
         = delete name (m_logNotifications g))
  /\ (forall rs rc message,
         let g := registerAll rs Global_new in
         exists calls,
           postLogNotification rc message g = Some calls
           /\ NoDup calls.*1
           /\ forall name call,
                (name, call) ∈ calls <->
                exists cb, m_logNotifications g !! name = Some (Some cb)
                           /\ call = CallLog cb rc message)
  /\ (forall rs name rc message,
         let g := setNotificationForLog name None (registerAll rs Global_new) in
         exists calls,
           postLogNotification rc message g = Some calls
           /\ forall call, (name, call) ∉ calls).
Proof.
  split; [|split; [|split]].
  - reflexivity.
  - reflexivity.
  - intros rs rc message g.
    destruct (postLogNotification_completes rc message g) as [calls Hc].
    { apply registerAll_log_callable, Global_new_log_callable. }
    exists calls. split; [exact Hc|].
    destruct (postLogNotification_calls _ _ _ _ Hc) as [Hnames Hmem].
    split; [|exact Hmem].
    rewrite Hnames. apply NoDup_fst_map_to_list.
  - intros rs name rc message g.
    destruct (postLogNotification_completes rc message g) as [calls Hc].
    { apply (register_log_callable _ (RegisterLog name None)),
        registerAll_log_callable, Global_new_log_callable. }
    exists calls. split; [exact Hc|].
    intros call Hin.
    apply (postLogNotification_calls _ _ _ _ Hc) in Hin as (cb & Hl & _).
    subst g. simpl in Hl. rewrite lookup_delete_eq in Hl. discriminate.
Qed.

Lemma setNotificationForLog_fan_out_witness :
  let g := registerAll [RegisterLog "a" (Some 1); RegisterLog "b" (Some 2);
                        RegisterLog "a" None] Global_new in
  exists calls,
    postLogNotification 7 "m" g = Some calls
    /\ NoDup calls.*1
    /\ forall name call,
         (name, call) ∈ calls <->
         exists cb, m_logNotifications g !! name = Some (Some cb)
                    /\ call = CallLog cb 7 "m".
Proof.
  exact (proj1 (proj2 (proj2 setNotificationForLog_fan_out))
           [RegisterLog "a" (Some 1); RegisterLog "b" (Some 2); RegisterLog "a" None]
           7%Z "m"%string).
Defined.

(** The scenario of the specification: "a" and "b" registered, one event,
    both called once; "a" unregistered, one more event, only "b" called. *)
Example hub_fan_out_scenario :
  let g := registerAll [RegisterLog "a" (Some 1); RegisterLog "b" (Some 2)] Global_new in
  (exists calls, postLogNotification 7 "m" g = Some calls
                 /\ calls ≡ₚ [("a"%string, CallLog 1 7 "m"); ("b"%string, CallLog 2 7 "m")])
  /\ postLogNotification 7 "m" (setNotificationForLog "a" None g)
     = Some [("b"%string, CallLog 2 7 "m")].
Proof.
  split.
  - eexists. split; [vm_compute; reflexivity|].
    first [reflexivity | apply Permutation_swap].
  - vm_compute. reflexivity.
Qed.

(** ** The hub: lock events *)

Lemma register_lock_dom (g : Global) (r : Registration) (name : string) :
  name ∈ dom (m_lockEventNotifications g) ->
  name ∈ dom (m_lockEventNotifications (register g r)).
Proof.
  intros Hin. destruct r as [n x|n x|n w l ws sl]; simpl.
  - unfold setNotificationForLog. case_bool_decide; exact Hin.
  - unfold setNotificationWhenFileOpened. case_bool_decide; exact Hin.
  - rewrite dom_insert_L. set_solver.
Qed.

Lemma lockEventCalls_empty_entry (pick : LockEvent -> option Callable)
    (call : Callable -> Call) (g : Global) (name : string) (ev : LockEvent) :
  m_lockEventNotifications g !! name = Some ev ->
  pick ev = None ->
  forall c, (name, c) ∉ lockEventCalls pick call g.
Proof.
  intros Hl Hp c Hin. unfold lockEventCalls in Hin.
  apply list_elem_of_omap in Hin as ([name' ev'] & Hin & Hf).
  apply elem_of_map_to_list in Hin. simpl in Hf.
  destruct (pick ev') as [cb|] eqn:Hp'; simpl in Hf; [|discriminate].
  injection Hf as -> _. rewrite Hl in Hin. injection Hin as <-. congruence.
Qed.

Lemma asserted_Some (assertions cond : bool) (d : Dispatch) (calls : list (string * Call)) :
  asserted assertions cond d = Some calls -> d = Some calls.
Proof. unfold asserted. destruct (assertions && negb cond); [discriminate|auto]. Qed.

(** C10.  [setNotificationForLockEvent] stores an entry under [name] whatever
    the four callbacks are, also when all are empty; no sequence of
    registrations removes a name from the lock-event registry (registering
    the empty log notification, by contrast, removes the name from the log
    registry); and for an entry whose four callbacks are empty none of the
    four dispatchers makes a call. *)
Theorem setNotificationForLockEvent_never_removes :
  (forall name w l ws sl g,
      m_lockEventNotifications (setNotificationForLockEvent name w l ws sl g) !! name
      = Some (mkLockEvent w l ws sl))
  /\ (forall name g,
         m_lockEventNotifications (setNotificationForLockEvent name None None None None g)
           !! name
         = Some (mkLockEvent None None None None))
  /\ (forall rs name g,
         name ∈ dom (m_lockEventNotifications g) ->
         name ∈ dom (m_lockEventNotifications (registerAll rs g)))
  /\ (forall name g, name ∉ dom (m_logNotifications (setNotificationForLog name None g)))
  /\ (forall assertions name g,
         m_lockEventNotifications g !! name = Some (mkLockEvent None None None None) ->
         (forall path type calls,
             postWillLockNotification assertions path type g = Some calls ->
             forall c, (name, c) ∉ calls)
         /\ (forall path type calls,
                postLockDidChangeNotification assertions path type g = Some calls ->
                forall c, (name, c) ∉ calls)
         /\ (forall path flags mask calls,
                postWillShmLockNotification assertions path flags mask g = Some calls ->
                forall c, (name, c) ∉ calls)
         /\ (forall path identifier sharedMask exclusiveMask calls,
                postShmLockDidChangeNotification assertions path identifier
                  sharedMask exclusiveMask g = Some calls ->
                forall c, (name, c) ∉ calls)).
Proof.
  split; [|split; [|split; [|split]]].
  - intros. simpl. apply lookup_insert_eq.
  - intros. simpl. apply lookup_insert_eq.
  - intros rs. induction rs as [|r rs IH]; intros name g Hin; [exact Hin|].
    simpl. apply IH, register_lock_dom, Hin.
  - intros name g. simpl. rewrite dom_delete_L.
    apply not_elem_of_difference. right. apply elem_of_singleton. reflexivity.
  - intros assertions name g Hl.
    split; [intros path type calls Hd
           |split; [intros path type calls Hd
                   |split; [intros path flags mask calls Hd
                           |intros path identifier sharedMask exclusiveMask calls Hd]]];
      unfold postWillLockNotification, postLockDidChangeNotification,
        postWillShmLockNotification, postShmLockDidChangeNotification in Hd;
      do 2 apply asserted_Some in Hd; injection Hd as <-;
      eapply lockEventCalls_empty_entry; eauto.
Qed.

Lemma setNotificationForLockEvent_never_removes_witness :
  let g := setNotificationForLockEvent "a" None None None None Global_new in
  "a"%string ∈ dom (m_lockEventNotifications
                      (registerAll [RegisterLockEvent "a" None None None None;
                                    RegisterLog "a" None;
                                    RegisterLockEvent "b" (Some 1) None None None] g))
  /\ forall calls, postWillLockNotification true "p" 1 g = Some calls ->
                   forall c, ("a"%string, c) ∉ calls.
Proof.
  intros g. split.
  - apply (proj1 (proj2 (proj2 setNotificationForLockEvent_never_removes))).
    apply elem_of_dom. eexists. apply lookup_insert_eq.
  - apply (proj1 (proj2 (proj2 (proj2 (proj2 setNotificationForLockEvent_never_removes)))
                   true "a"%string g (lookup_insert_eq _ _ _))).
Defined.

(** ** The stepper: attaching and detaching *)

Ltac run_M :=
  unfold mbind, mret, M_bind, M_ret, gets, modify, engine, WCTInnerAssert; simpl.

(** Evaluation with the case equations at hand. *)
Ltac known :=
  repeat (simpl;
          match goal with
          | H : ?x = _ |- context [?x] => rewrite H
          end);
  simpl.

Ltac cases_on x := destruct x eqn:?; known; try reflexivity.

(** An event that differs from every member of a short explicit list. *)
Ltac not_listed H :=
  repeat (apply elem_of_cons in H as [H|H]; [discriminate H|]);
  apply elem_of_nil in H; contradiction.

(** Splitting the conjunctions that are written out, without unfolding. *)
Ltac conjs := repeat match goal with |- _ /\ _ => split end.

Lemma performedBy_app (h h' : MigrateHandle) (evs : list Event) :
  journal (handle h') = journal (handle h) ++ evs -> performedBy h h' = evs.
Proof. intros E. unfold performedBy. rewrite E. apply drop_app_length. Qed.

Section AttachFacts.

Variable assertions : bool.

Lemma detach_eq h :
  detach assertions h =
  if assertions && violated h then Aborts h
  else if isMain (m_attached h) then Returns true h
  else let ok := succeeds (handle h) in
       let h1 := executed (StatementDetach (m_attached h)) h in
       Returns ok (if ok then withAttached Schema_main h1 else h1).
Proof.
  unfold detach, execute, violated, executed. run_M.
  cases_on assertions; cases_on (isInTransaction (handle h));
    cases_on (isPrepared (handle h)); cases_on (isMain (m_attached h));
    cases_on (succeeds (handle h)).
Qed.

Lemma attach_eq p s h :
  attach assertions p s h =
  if assertions && (violated h || negb (isMain (m_attached h))) then Aborts h
  else if isMain s then Returns true h
  else let ok := succeeds (handle h) in
       let h1 := executed (StatementAttach p s) h in
       Returns ok (if ok then withAttached s h1 else h1).
Proof.
  unfold attach, execute, violated, executed. run_M.
  cases_on assertions; cases_on (isInTransaction (handle h));
    cases_on (isPrepared (handle h)); cases_on (isMain (m_attached h));
    cases_on (isMain s); cases_on (succeeds (handle h)).
Qed.

(** [reAttach] in closed form: [h1] is the state after the detach. *)
Lemma reAttach_eq p s h :
  reAttach assertions p s h =
  if assertions && violated h then Aborts h
  else if isTargetingSameSchema (m_attached h) s then Returns true (cleared h)
  else
    let h1 := if isMain (m_attached h) then h
              else let e := executed (StatementDetach (m_attached h)) h in
                   if succeeds (handle h) then withAttached Schema_main e else e in
    if negb (isMain (m_attached h)) && negb (succeeds (handle h))
    then Returns false (cleared h1)
    else if isMain s then Returns true (cleared h1)
    else let ok := succeeds (handle h1) in
         let h2 := executed (StatementAttach p s) h1 in
         Returns ok (cleared (if ok then withAttached s h2 else h2)).
Proof.
  unfold reAttach, detach, attach, execute, finalizeMigrationStatement, statement_finalize,
    violated, cleared, executed.
  run_M.
  cases_on assertions; cases_on (isInTransaction (handle h));
    cases_on (isPrepared (handle h));
    cases_on (isTargetingSameSchema (m_attached h) s);
    cases_on (isMain (m_attached h)); cases_on (isMain s);
    cases_on (succeeds (handle h)).
  all: match goal with |- context [succeeds ?e] => cases_on (succeeds e) end.
Qed.

Lemma isTargetingSameSchema_refl s : isTargetingSameSchema s s = true.
Proof. unfold isTargetingSameSchema. apply bool_decide_eq_true. reflexivity. Qed.

Lemma isTargetingSameSchema_main a b :
  isMain a = true -> isMain b = true -> isTargetingSameSchema a b = true.
Proof. destruct a, b; simpl; try discriminate. reflexivity. Qed.

(** How a call of [reAttach] ends. *)
Lemma reAttach_outcome (p : string) (s : Schema) (h : MigrateHandle) :
  match reAttach assertions p s h with
  | Returns _ h' =>
      m_migratingInfo h' = None
      /\ m_migrateStatement h' = None
      /\ m_removeMigratedStatement h' = None
  | Aborts _ => assertions = true /\ violated h = true
  | OutOfFuel _ => False
  end.
Proof.
  rewrite reAttach_eq.
  destruct (assertions && violated h) eqn:Ea.
  { apply andb_true_iff in Ea. exact Ea. }
  repeat match goal with
         | |- context [if ?c then _ else _] => destruct c
         end; simpl; auto.
Qed.

(** C8.  A call of [reAttach] that completes leaves [m_migratingInfo] null
    and both statements finalised, whether the schema was already attached
    (nothing executed), or the detach or the attach failed.  The call
    completes in every build unless it was made inside a transaction or with
    the main statement prepared, where the assertion of a debug build aborts
    it. *)
Theorem reAttach_clears_migration (p : string) (s : Schema) (h : MigrateHandle) :
  match reAttach assertions p s h with
  | Returns _ h' =>
      m_migratingInfo h' = None
      /\ m_migrateStatement h' = None
      /\ m_removeMigratedStatement h' = None
  | Aborts _ => assertions = true /\ violated h = true
  | OutOfFuel _ => False
  end.
Proof. exact (reAttach_outcome p s h). Qed.


End AttachFacts.

Lemma run_flags (st : Statement) (e : Handle) :
  isInTransaction (run st e) = isInTransaction e /\ isPrepared (run st e) = isPrepared e.
Proof. destruct st; simpl; repeat case_match; auto. Qed.

Lemma violated_executed (st : Statement) (h : MigrateHandle) :
  violated (executed st h) = violated h.
Proof.
  unfold violated, executed, Handle_execute. simpl.
  destruct (succeeds (handle h)); [|reflexivity].
  destruct (run_flags st (handle h)) as [-> ->]. reflexivity.
Qed.

Lemma run_journal (st : Statement) (e : Handle) : journal (run st e) = journal e.
Proof. destruct st; simpl; repeat case_match; reflexivity. Qed.

Lemma run_oracle (st : Statement) (e : Handle) :
  calls (run st e) = calls e /\ failing (run st e) = failing e.
Proof. destruct st; simpl; repeat case_match; auto. Qed.

Lemma journal_executed (st : Statement) (h : MigrateHandle) :
  journal (handle (executed st h))
  = journal (handle h) ++ [EvExecute st (succeeds (handle h))].
Proof.
  unfold executed, Handle_execute. simpl.
  destruct (succeeds (handle h)); [rewrite run_journal|]; reflexivity.
Qed.

Lemma succeeds_executed (st : Statement) (h : MigrateHandle) :
  succeeds (handle (executed st h)) = negb (failing (handle h) (S (calls (handle h)))).
Proof.
  unfold executed, Handle_execute, succeeds. simpl.
  destruct (negb (failing (handle h) (calls (handle h)))); [|reflexivity].
  destruct (run_oracle st (handle h)) as [-> ->]. reflexivity.
Qed.

Lemma journal_cleared (h : MigrateHandle) :
  journal (handle (cleared h)) = journal (handle h).
Proof. reflexivity. Qed.

Lemma journal_withAttached (s : Schema) (h : MigrateHandle) :
  journal (handle (withAttached s h)) = journal (handle h).
Proof. reflexivity. Qed.

Lemma succeeds_withAttached (s : Schema) (h : MigrateHandle) :
  succeeds (handle (withAttached s h)) = succeeds (handle h).
Proof. reflexivity. Qed.

Lemma attached_cleared (h : MigrateHandle) : m_attached (cleared h) = m_attached h.
Proof. reflexivity. Qed.

Ltac journals :=
  apply performedBy_app;
  rewrite ?journal_cleared, ?journal_withAttached, ?journal_executed,
    ?journal_withAttached, ?journal_executed, ?succeeds_withAttached, ?succeeds_executed,
    <- ?app_assoc;
  simpl; try reflexivity.

Lemma violated_cleared (h : MigrateHandle) : violated (cleared h) = violated h.
Proof. reflexivity. Qed.

Lemma violated_withAttached (s : Schema) (h : MigrateHandle) :
  violated (withAttached s h) = violated h.
Proof. reflexivity. Qed.

Ltac same_flags :=
  rewrite ?violated_cleared, ?violated_withAttached, ?violated_executed,
    ?violated_withAttached, ?violated_executed; reflexivity.

Lemma performedBy_nothing (h h' : MigrateHandle) :
  journal (handle h') = journal (handle h) -> performedBy h h' = [].
Proof. intros E. unfold performedBy. rewrite E. apply drop_all. Qed.

Lemma reAttach_events (assertions : bool) (p : string) (s : Schema)
    (h : MigrateHandle) (ok : bool) (h' : MigrateHandle) :
  reAttach assertions p s h = Returns ok h' ->
  let cur := m_attached h in
  let e := handle h in
  (performedBy h h' = [] <-> isTargetingSameSchema cur s = true)
  /\ (isTargetingSameSchema cur s = false ->
      performedBy h h' =
        (if isMain cur then [] else [EvExecute (StatementDetach cur) (succeeds e)])
        ++ (if (isMain cur || succeeds e) && negb (isMain s)
            then [EvExecute (StatementAttach p s)
                    (if isMain cur then succeeds e else negb (failing e (S (calls e))))]
            else []))
  /\ (ok = true ->
      exists h'', reAttach assertions p s h' = Returns true h''
                  /\ performedBy h' h'' = []).
Proof.
  intros Hr cur e. subst cur e. rewrite reAttach_eq in Hr.
  destruct (assertions && violated h) eqn:Ea; [discriminate|].
  assert (forall x, violated x = violated h ->
                    isTargetingSameSchema (m_attached x) s = true ->
                    exists h'', reAttach assertions p s x = Returns true h''
                                /\ performedBy x h'' = []) as Hagain.
  { intros x Hv Hs. rewrite reAttach_eq, Hv, Ea, Hs.
    eexists. split; [reflexivity|]. apply performedBy_nothing. reflexivity. }
  destruct (isTargetingSameSchema (m_attached h) s) eqn:Es.
  { injection Hr as <- <-. split; [split|split].
    - reflexivity.
    - intros _. apply performedBy_nothing. reflexivity.
    - discriminate.
    - intros _. apply Hagain; [reflexivity|exact Es]. }
  assert (forall ev evs rest,
             performedBy h h' = ev :: evs ->
             ev :: evs = rest ->
             (ok = true -> exists h'', reAttach assertions p s h' = Returns true h''
                                       /\ performedBy h' h'' = []) ->
             (performedBy h h' = [] <-> false = true)
             /\ (false = false -> performedBy h h' = rest)
             /\ (ok = true -> exists h'', reAttach assertions p s h' = Returns true h''
                                         /\ performedBy h' h'' = [])) as Hfin.
  { intros ev evs rest Hp <- Hok. rewrite Hp. split; [split; discriminate|]. auto. }
  destruct (isMain (m_attached h)) eqn:Ec; cbn [negb andb orb] in Hr |- *.
  - destruct (isMain s) eqn:Em.
    { rewrite isTargetingSameSchema_main in Es by assumption. discriminate. }
    cbn [negb] in Hr |- *.
    destruct (succeeds (handle h)) eqn:Ed; injection Hr as <- <-.
    + eapply Hfin; [journals|rewrite ?Ed, ?E1; reflexivity|].
      intros _. apply Hagain; [same_flags|]. apply isTargetingSameSchema_refl.
    + eapply Hfin; [journals|rewrite ?Ed, ?E1; reflexivity|]. discriminate.
  - destruct (succeeds (handle h)) eqn:Ed; cbn [negb andb orb] in Hr |- *.
    + destruct (isMain s) eqn:Em; cbn [negb andb orb] in Hr |- *.
      * injection Hr as <- <-.
        eapply Hfin; [journals|rewrite ?Ed, ?E1; reflexivity|].
        intros _. apply Hagain; [same_flags|].
        rewrite attached_cleared. simpl. destruct s; [reflexivity|discriminate].
      * rewrite succeeds_withAttached, succeeds_executed in Hr.
        destruct (negb (failing (handle h) (S (calls (handle h))))) eqn:E1;
          injection Hr as <- <-.
        -- eapply Hfin; [journals|rewrite ?Ed, ?E1; reflexivity|].
           intros _. apply Hagain; [same_flags|]. apply isTargetingSameSchema_refl.
        -- eapply Hfin; [journals|rewrite ?Ed, ?E1; reflexivity|]. discriminate.
    + injection Hr as <- <-.
      eapply Hfin; [journals|rewrite ?Ed, ?E1; reflexivity|]. discriminate.
Qed.


Lemma isTargetingSameSchema_spec (a b : Schema) :
  isTargetingSameSchema a b = true <->
  (a = Schema_main /\ b = Schema_main)
  \/ exists path name, a = Schema_named path name /\ b = Schema_named path name.
Proof.
  unfold isTargetingSameSchema. rewrite bool_decide_eq_true. split.
  - intros <-. destruct a as [|path name]; [left; auto | right; eauto].
  - intros [[-> ->] | (path & name & -> & ->)]; reflexivity.
Qed.

(** C6, as the code has it.  [reAttach] executes no detach and no attach
    exactly when the attached schema targets the requested schema: both are
    main, or they refer to the same database path and use the same name.
    Otherwise it executes the detach of the current schema if that is not
    main and then, unless that detach failed, the attach of (path, schema) if
    the schema is not main.  After a [reAttach] that succeeded, the same
    [reAttach] again succeeds and executes nothing. *)
Theorem reAttach_attaches_on_change (assertions : bool) (p : string) (s : Schema)
    (h : MigrateHandle) (ok : bool) (h' : MigrateHandle) :
  reAttach assertions p s h = Returns ok h' ->
  let cur := m_attached h in
  let e := handle h in
  (performedBy h h' = [] <-> isTargetingSameSchema cur s = true)
  /\ (isTargetingSameSchema cur s = true <->
      (cur = Schema_main /\ s = Schema_main)
      \/ exists path name, cur = Schema_named path name /\ s = Schema_named path name)
  /\ (isTargetingSameSchema cur s = false ->
      performedBy h h' =
        (if isMain cur then [] else [EvExecute (StatementDetach cur) (succeeds e)])
        ++ (if (isMain cur || succeeds e) && negb (isMain s)
            then [EvExecute (StatementAttach p s)
                    (if isMain cur then succeeds e else negb (failing e (S (calls e))))]
            else []))
  /\ (ok = true ->
      exists h'', reAttach assertions p s h' = Returns true h''
                  /\ performedBy h' h'' = []).
Proof.
  intros Hr cur e.
  destruct (reAttach_events assertions p s h ok h' Hr) as (Hnone & Hsome & Hagain).
  split; [exact Hnone|]. split; [|split; [exact Hsome | exact Hagain]].
  apply isTargetingSameSchema_spec.
Qed.

Lemma reAttach_attaches_on_change_witness :
  let h := MigrateHandle_new 3 (Handle_example [] never (fun _ => 0%float)) in
  let h' := final (reAttach false "/old.db" (Schema_named "/old.db" "old") h) in
  performedBy h h' = [EvExecute (StatementAttach "/old.db" (Schema_named "/old.db" "old")) true]
  /\ exists h'', reAttach false "/old.db" (Schema_named "/old.db" "old") h' = Returns true h''
                 /\ performedBy h' h'' = [].
Proof.
  intros h h'.
  pose proof (reAttach_attaches_on_change false "/old.db" (Schema_named "/old.db" "old") h true h'
                eq_refl) as (_ & _ & Hev & Hagain).
  split; [exact (Hev eq_refl) | exact (Hagain eq_refl)].
Defined.

(** All three fail.  When the attach of the first call fails, the second
    call executes the attach again.  When the detach fails, no attach
    follows: here ["old"] is attached and the detach, the engine's second
    call, fails.  And when the requested schema is main, the call detaches
    ["old"] and attaches nothing. *)
Lemma reAttach_counterexample :
  ~ second_reattach_is_idle false "/old.db" (Schema_named "/old.db" "old")
      (MigrateHandle_new 3 (Handle_example [] (only 0) (fun _ => 0%float)))
  /\ ~ detaches_then_attaches false "/new.db" (Schema_named "/new.db" "new")
         (final (reAttach false "/old.db" (Schema_named "/old.db" "old")
                   (MigrateHandle_new 3 (Handle_example [] (only 1) (fun _ => 0%float)))))
  /\ ~ detaches_then_attaches false "/main.db" Schema_main
         (final (reAttach false "/old.db" (Schema_named "/old.db" "old")
                   (MigrateHandle_new 3 (Handle_example [] never (fun _ => 0%float))))).
Proof.
  split; [|split].
  - intros Hc.
    set (h := MigrateHandle_new 3 (Handle_example [] (only 0) (fun _ => 0%float))) in *.
    set (h' := final (reAttach false "/old.db" (Schema_named "/old.db" "old") h)).
    set (h'' := final (reAttach false "/old.db" (Schema_named "/old.db" "old") h')).
    pose proof (Hc false h' true h'' eq_refl eq_refl) as Hn.
    vm_compute in Hn. discriminate Hn.
  - intros Hc.
    set (h := final (reAttach false "/old.db" (Schema_named "/old.db" "old")
                       (MigrateHandle_new 3 (Handle_example [] (only 1) (fun _ => 0%float)))))
      in *.
    set (h' := final (reAttach false "/new.db" (Schema_named "/new.db" "new") h)).
    destruct (Hc false h' eq_refl eq_refl) as (d & a & Hn).
    vm_compute in Hn. discriminate Hn.
  - intros Hc.
    set (h := final (reAttach false "/old.db" (Schema_named "/old.db" "old")
                       (MigrateHandle_new 3 (Handle_example [] never (fun _ => 0%float)))))
      in *.
    set (h' := final (reAttach false "/main.db" Schema_main h)).
    destruct (Hc true h' eq_refl eq_refl) as (d & a & Hn).
    vm_compute in Hn. discriminate Hn.
Qed.


(** ** The stepper: moving rows *)

Lemma journalled_refl P h : journalled P h h.
Proof. exists []. rewrite app_nil_r. auto. Qed.

Lemma journalled_trans P h1 h2 h3 :
  journalled P h1 h2 -> journalled P h2 h3 -> journalled P h1 h3.
Proof.
  intros (a & Ea & Ha) (b & Eb & Hb). exists (a ++ b).
  rewrite Eb, Ea, app_assoc. split; [reflexivity|]. apply Forall_app; auto.
Qed.

Lemma loop_frame_refl h : loop_frame h h.
Proof.
  unfold loop_frame, same_sampler, same_statements, same_engine.
  split; [apply journalled_refl|]. repeat split; auto.
Qed.

Lemma loop_frame_trans h1 h2 h3 :
  loop_frame h1 h2 -> loop_frame h2 h3 -> loop_frame h1 h3.
Proof.
  unfold loop_frame, same_sampler, same_statements, same_engine.
  intros (J1 & (A1 & A2) & (B1 & B2 & B3 & B4) & (C1 & C2 & C3 & C4 & C5) & R1)
         (J2 & (A1' & A2') & (B1' & B2' & B3' & B4') & (C1' & C2' & C3' & C4' & C5') & R2).
  split; [eapply journalled_trans; eauto|].
  repeat split; try congruence. lia.
Qed.

Lemma run_engine (st : Statement) (e : Handle) :
  same_engine e (run st e) /\ reads (run st e) = reads e.
Proof. unfold same_engine. destruct st; simpl; repeat case_match; auto 10. Qed.

Lemma stepped_frame (s : Statement) (h : MigrateHandle) : loop_frame h (stepped s h).
Proof.
  unfold loop_frame, stepped, Handle_step, same_sampler, same_statements.
  cbn [fst snd handle withHandle m_samples m_samplePointing m_migrateStatement
       m_removeMigratedStatement m_migratingInfo m_attached].
  split.
  { exists [EvStep s (succeeds (handle h))]. split; [|repeat constructor].
    destruct (succeeds (handle h)); cbn [performed journal handle withHandle];
      [rewrite run_journal|]; reflexivity. }
  destruct (succeeds (handle h)).
  - destruct (run_engine s (handle h)) as ((? & ? & ? & ? & ?) & Hr).
    unfold same_engine.
    cbn [performed failing elapsed isInTransaction isPrepared mainTables reads].
    rewrite Hr. auto 10.
  - unfold same_engine. simpl. auto 10.
Qed.

Lemma stepping_frame h h' : loop_frame h h' -> stepping h -> stepping h'.
Proof.
  unfold loop_frame, stepping, same_statements, same_engine.
  intros (_ & _ & (-> & -> & _) & (_ & _ & -> & _) & _). auto.
Qed.

Lemma bind_step {A B} (m : M A) (f : A -> M B) (h : MigrateHandle) (a : A)
    (h' : MigrateHandle) :
  m h = Returns a h' -> (m ≫= f) h = f a h'.
Proof. intros E. unfold mbind, M_bind. rewrite E. reflexivity. Qed.

Lemma bind_eval {A B} (m : M A) (f : A -> M B) (h : MigrateHandle) :
  (m ≫= f) h = match m h with
               | Returns a h' => f a h'
               | Aborts h' => Aborts h'
               | OutOfFuel h' => OutOfFuel h'
               end.
Proof. reflexivity. Qed.

Lemma WCTInnerAssert_pass (assertions : bool) (cond : MigrateHandle -> bool)
    (h : MigrateHandle) :
  cond h = true -> WCTInnerAssert assertions cond h = Returns tt h.
Proof. intros E. unfold WCTInnerAssert. rewrite E, andb_false_r. reflexivity. Qed.

Section RowFacts.

Variable assertions : bool.

(** [migrateRow] in closed form, where its assertions hold. *)
Lemma migrateRow_eq (h : MigrateHandle) (sm sd : Statement) :
  m_migrateStatement h = Some sm ->
  m_removeMigratedStatement h = Some sd ->
  isInTransaction (handle h) = true ->
  migrateRow assertions h =
  let h1 := stepped sm h in
  if succeeds (handle h) then
    if negb (getChanges (handle h1) =? 0)%Z
    then Returns (succeeds (handle h1), false) (stepped sd h1)
    else Returns (true, true) h1
  else Returns (false, false) h1.
Proof.
  intros Em Ed Et. unfold migrateRow.
  rewrite (bind_step _ _ h tt h)
    by (apply WCTInnerAssert_pass; rewrite Em, Ed; reflexivity).
  rewrite (bind_step _ _ h tt h) by (apply WCTInnerAssert_pass; exact Et).
  rewrite (bind_step _ _ h tt h) by reflexivity.
  rewrite (bind_step _ _ h tt h) by reflexivity.
  rewrite (bind_step _ _ h (succeeds (handle h)) (stepped sm h))
    by (unfold statement_step; simpl; rewrite Em; reflexivity).
  cbv zeta. destruct (succeeds (handle h)); [|reflexivity].
  rewrite (bind_step _ _ _ (getChanges (handle (stepped sm h))) (stepped sm h))
    by reflexivity.
  destruct (negb (getChanges (handle (stepped sm h)) =? 0)%Z); [|reflexivity].
  rewrite (bind_step _ _ _ (succeeds (handle (stepped sm h))) (stepped sd (stepped sm h)))
    by (unfold statement_step; simpl; rewrite Ed; reflexivity).
  reflexivity.
Qed.

(** The loop never fails an assertion, reports the last reading of the clock
    as its cost, and leaves statements and sampler alone. *)
Lemma migrateLoop_frame (fuel : nat) (budget : float) (h : MigrateHandle) :
  stepping h ->
  loop_frame h (final (migrateLoop assertions fuel budget h))
  /\ match migrateLoop assertions fuel budget h with
     | Returns (succeed, (migrated, cost)) h' =>
         exists r, reads (handle h') = S r /\ reads (handle h) <= r
                   /\ cost = elapsed (handle h) r
     | Aborts _ => False
     | OutOfFuel _ => True
     end.
Proof.
  revert h. induction fuel as [|fuel IH]; intros h Hs.
  { simpl. split; [apply loop_frame_refl|exact I]. }
  destruct Hs as ([sm Em] & [sd Ed] & Et).
  set (k := fun r : bool * bool =>
              let '(succeed, migrated) := r in
              timeIntervalSinceSteadyClockToNow
              ≫= (fun cost =>
                    if succeed && negb migrated && (cost <? budget)%float
                    then migrateLoop assertions fuel budget
                    else mret (succeed, (migrated, cost)))).
  change (migrateLoop assertions (S fuel) budget h)
    with (match migrateRow assertions h with
          | Returns r x => k r x
          | Aborts x => Aborts x
          | OutOfFuel x => OutOfFuel x
          end).
  rewrite (migrateRow_eq h sm sd Em Ed Et). cbv zeta.
  pose proof (stepped_frame sm h) as F1.
  pose proof (stepped_frame sd (stepped sm h)) as F2.
  assert (stepping (stepped sm h)) as S1
    by (eapply stepping_frame; [exact F1|]; repeat split; eauto).
  assert (forall (r : bool * bool) (x : MigrateHandle),
             loop_frame h x -> stepping x ->
             loop_frame h (final (k r x))
             /\ match k r x with
                | Returns (succeed, (migrated, cost)) h' =>
                    exists r, reads (handle h') = S r /\ reads (handle h) <= r
                              /\ cost = elapsed (handle h) r
                | Aborts _ => False
                | OutOfFuel _ => True
                end) as Hk.
  { intros [succeed migrated] x Fx Sx. unfold k.
    unfold timeIntervalSinceSteadyClockToNow. run_M.
    set (x' := withHandle (withRead (handle x)) x).
    assert (loop_frame x x') as Fx'.
    { unfold loop_frame, same_sampler, same_statements, same_engine. simpl.
      split; [exists []; rewrite app_nil_r; auto|]. repeat split; auto. }
    assert (elapsed (handle x) (reads (handle x)) = elapsed (handle h) (reads (handle x)))
      as Ee.
    { destruct Fx as (_ & _ & _ & (_ & -> & _) & _). reflexivity. }
    assert (reads (handle h) <= reads (handle x)) as Hr by apply Fx.
    destruct (succeed && negb migrated
              && (elapsed (handle x) (reads (handle x)) <? budget)%float).
    - destruct (IH x') as [Fl Hl]; [eapply stepping_frame; eauto|].
      split.
      + eapply loop_frame_trans; [exact Fx|].
        eapply loop_frame_trans; [exact Fx'|exact Fl].
      + destruct (migrateLoop assertions fuel budget x') as [[s' [m' c']] y|y|y];
          try exact Hl.
        destruct Hl as (r & Er & Hle & Ec). exists r. simpl in Hle.
        repeat split; [exact Er|lia|].
        rewrite Ec. simpl.
        destruct Fx as (_ & _ & _ & (_ & -> & _) & _). reflexivity.
    - simpl. split.
      + eapply loop_frame_trans; [exact Fx|exact Fx'].
      + exists (reads (handle x)). repeat split; auto. }
  destruct (succeeds (handle h)).
  - destruct (negb (getChanges (handle (stepped sm h)) =? 0)%Z).
    + apply Hk.
      * eapply loop_frame_trans; eauto.
      * eapply stepping_frame; eauto.
    + apply Hk; auto.
  - apply Hk; auto.
Qed.

Lemma rows_stepped_migrate (info : MigrationInfo) (h : MigrateHandle) :
  let h1 := stepped (StatementForMigratingOneRow info) h in
  source (handle h1) info = source (handle h) info
  /\ (succeeds (handle h) = true ->
      match source (handle h) info with
      | [] => getChanges (handle h1) = 0%Z
              /\ destination (handle h1) info = destination (handle h) info
      | r :: _ => getChanges (handle h1) = 1%Z
                  /\ destination (handle h1) info = r :: destination (handle h) info
      end).
Proof.
  unfold stepped, Handle_step. cbn [snd handle withHandle].
  destruct (succeeds (handle h)); cbn [run].
  - destruct (source (handle h) info) as [|r rest] eqn:E; simpl; rewrite ?E.
    + auto.
    + split; [reflexivity|]. intros _. split; [reflexivity|].
      unfold setRows. rewrite decide_True by reflexivity. reflexivity.
  - split; [reflexivity|discriminate].
Qed.

Lemma rows_stepped_delete (info : MigrationInfo) (h : MigrateHandle) :
  let h1 := stepped (StatementForDeletingMigratedOneRow info) h in
  destination (handle h1) info = destination (handle h) info
  /\ source (handle h1) info
     = (if succeeds (handle h) then tail (source (handle h) info)
        else source (handle h) info).
Proof.
  unfold stepped, Handle_step. cbn [snd handle withHandle].
  destruct (succeeds (handle h)); cbn [run]; [|auto].
  destruct (source (handle h) info) as [|r rest] eqn:E; simpl; rewrite ?E; [auto|].
  split; [reflexivity|]. unfold setRows. rewrite decide_True by reflexivity. reflexivity.
Qed.

(** With both statements prepared from [info], the loop ends within one
    iteration per source row and one more, and moves a prefix of the source
    to the destination. *)
Lemma migrateLoop_rows (info : MigrationInfo) (fuel : nat) (budget : float)
    (h : MigrateHandle) :
  m_migrateStatement h = Some (StatementForMigratingOneRow info) ->
  m_removeMigratedStatement h = Some (StatementForDeletingMigratedOneRow info) ->
  isInTransaction (handle h) = true ->
  length (source (handle h) info) < fuel ->
  exists succeed migrated cost h',
    migrateLoop assertions fuel budget h = Returns (succeed, (migrated, cost)) h'
    /\ exists moved,
         source (handle h) info = moved ++ source (handle h') info
         /\ (succeed = true ->
             destination (handle h') info = rev moved ++ destination (handle h) info
             /\ (migrated = false -> moved <> [])
             /\ (migrated = true -> source (handle h') info = [])).
Proof.
  revert h. induction fuel as [|fuel IH]; intros h Em Ed Et Hlen; [lia|].
  set (k := fun r : bool * bool =>
              let '(succeed, migrated) := r in
              timeIntervalSinceSteadyClockToNow
              ≫= (fun cost =>
                    if succeed && negb migrated && (cost <? budget)%float
                    then migrateLoop assertions fuel budget
                    else mret (succeed, (migrated, cost)))).
  change (migrateLoop assertions (S fuel) budget h)
    with (match migrateRow assertions h with
          | Returns r x => k r x
          | Aborts x => Aborts x
          | OutOfFuel x => OutOfFuel x
          end).
  rewrite (migrateRow_eq h _ _ Em Ed Et). cbv zeta.
  assert (forall succeed migrated x,
             succeed && negb migrated = false ->
             k (succeed, migrated) x
             = Returns (succeed, (migrated, elapsed (handle x) (reads (handle x))))
                 (withHandle (withRead (handle x)) x)) as Hstop.
  { intros succeed migrated x Hc. unfold k, timeIntervalSinceSteadyClockToNow.
    run_M. rewrite Hc. reflexivity. }
  assert (forall x,
             k (true, false) x
             = if (elapsed (handle x) (reads (handle x)) <? budget)%float
               then migrateLoop assertions fuel budget (withHandle (withRead (handle x)) x)
               else Returns (true, (false, elapsed (handle x) (reads (handle x))))
                      (withHandle (withRead (handle x)) x)) as Hcont.
  { intros x. unfold k, timeIntervalSinceSteadyClockToNow. run_M.
    destruct (elapsed (handle x) (reads (handle x)) <? budget)%float; reflexivity. }
  set (h1 := stepped (StatementForMigratingOneRow info) h).
  set (h2 := stepped (StatementForDeletingMigratedOneRow info) h1).
  destruct (rows_stepped_migrate info h) as [Esrc1 Hm]. fold h1 in Esrc1, Hm.
  destruct (rows_stepped_delete info h1) as [Edst2 Esrc2]. fold h2 in Edst2, Esrc2.
  pose proof (stepped_frame (StatementForMigratingOneRow info) h) as F1. fold h1 in F1.
  pose proof (stepped_frame (StatementForDeletingMigratedOneRow info) h1) as F2.
  fold h2 in F2.
  pose proof (loop_frame_trans _ _ _ F1 F2) as F12.
  destruct (succeeds (handle h)) eqn:Es.
  2:{ rewrite Hstop by reflexivity. eexists _, _, _, _. split; [reflexivity|].
      exists []. split; [symmetry; exact Esrc1|discriminate]. }
  specialize (Hm eq_refl).
  destruct (source (handle h) info) as [|r rest] eqn:Esrc.
  { destruct Hm as [Hc Hd]. rewrite Hc. cbn [Z.eqb negb].
    rewrite Hstop by reflexivity. eexists _, _, _, _. split; [reflexivity|].
    exists []. split; [symmetry; exact Esrc1|].
    intros _. repeat split; [exact Hd|discriminate|intros _; exact Esrc1]. }
  destruct Hm as [Hc Hd]. rewrite Hc. cbn [Z.eqb negb].
  destruct (succeeds (handle h1)) eqn:Es1.
  2:{ rewrite Hstop by reflexivity. eexists _, _, _, _. split; [reflexivity|].
      exists []. split; [|discriminate].
      change (source (handle (withHandle (withRead (handle h2)) h2)) info)
        with (source (handle h2) info).
      rewrite Esrc2, Esrc1. reflexivity. }
  rewrite Esrc1 in Esrc2. cbn [tail] in Esrc2. rewrite Hd in Edst2.
  rewrite Hcont.
  set (h3 := withHandle (withRead (handle h2)) h2).
  assert (source (handle h3) info = rest) as Esrc3 by exact Esrc2.
  assert (destination (handle h3) info = r :: destination (handle h) info) as Edst3
    by exact Edst2.
  destruct (elapsed (handle h2) (reads (handle h2)) <? budget)%float.
  - destruct (IH h3) as (succeed & migrated & cost & h' & Hl & moved & Hsrc & Hrest).
    { exact Em. }
    { exact Ed. }
    { destruct F12 as (_ & _ & _ & (_ & _ & E & _) & _).
      change (isInTransaction (handle h3)) with (isInTransaction (handle h2)).
      rewrite E. exact Et. }
    { rewrite Esrc3. simpl in Hlen. lia. }
    exists succeed, migrated, cost, h'. split; [exact Hl|].
    exists (r :: moved). rewrite Esrc3 in Hsrc. split; [simpl; congruence|].
    intros Hok. destruct (Hrest Hok) as (Hdst & _ & Hdrained).
    rewrite Edst3 in Hdst. repeat split.
    + rewrite Hdst. simpl. rewrite <- app_assoc. reflexivity.
    + discriminate.
    + exact Hdrained.
  - eexists _, _, _, _. split; [reflexivity|].
    exists [r]. fold h3. rewrite Esrc3, Edst3. split; [reflexivity|].
    intros _. repeat split; discriminate.
Qed.

End RowFacts.

(** ** The stepper: [migrateRows] up to the transaction *)

Lemma prelude_frame_refl h : prelude_frame h h.
Proof.
  unfold prelude_frame, same_sampler, same_engine, same_rows.
  split; [apply journalled_refl|]. repeat split; auto.
Qed.

Lemma prelude_frame_trans h1 h2 h3 :
  prelude_frame h1 h2 -> prelude_frame h2 h3 -> prelude_frame h1 h3.
Proof.
  unfold prelude_frame, same_sampler, same_engine, same_rows.
  intros (J1 & (A1 & A2) & (C1 & C2 & C3 & C4 & C5) & (R1 & R2) & D1)
         (J2 & (A1' & A2') & (C1' & C2' & C3' & C4' & C5') & (R1' & R2') & D2).
  split; [eapply journalled_trans; eauto|].
  repeat split; congruence.
Qed.

(** A change of the stepper's own fields other than the ring. *)
Lemma prelude_frame_fields (h x : MigrateHandle) :
  handle x = handle h -> m_samples x = m_samples h ->
  m_samplePointing x = m_samplePointing h -> prelude_frame h x.
Proof.
  intros Eh Es Ep. unfold prelude_frame, same_sampler, same_engine, same_rows.
  unfold journalled. rewrite Eh.
  split; [exists []; rewrite app_nil_r; auto|]. repeat split; auto.
Qed.

(** A primitive that was journalled and moved no rows. *)
Lemma prelude_frame_performed (ev : Event) (h : MigrateHandle) :
  isPrelude ev -> prelude_frame h (withHandle (performed ev (handle h)) h).
Proof.
  intros Hev. unfold prelude_frame, same_sampler, same_engine, same_rows. simpl.
  split; [exists [ev]; auto|]. repeat split; auto.
Qed.

Lemma prelude_frame_executed (st : Statement) (h : MigrateHandle) :
  match st with StatementAttach _ _ | StatementDetach _ => True | _ => False end ->
  prelude_frame h (executed st h).
Proof.
  intros Hst. unfold executed, Handle_execute. cbn [snd].
  destruct st; try contradiction; cbn [run];
    destruct (succeeds (handle h)); apply prelude_frame_performed; exact I.
Qed.

Section PreludeFacts.

Variable assertions : bool.
Variable numberOfSamples : nat.
Variable MigrateMaxExpectingDuration : float.
Variable MigrateMaxInitializeDuration : float.

Abbreviation migrateRows_prepare' :=
  (migrateRows_prepare assertions numberOfSamples MigrateMaxExpectingDuration
     MigrateMaxInitializeDuration).

Lemma reAttach_frame (p : string) (s : Schema) (h : MigrateHandle) :
  prelude_frame h (final (reAttach assertions p s h)).
Proof.
  assert (forall x, prelude_frame h x -> prelude_frame h (cleared x)) as Hc.
  { intros x Hx. eapply prelude_frame_trans; [exact Hx|].
    apply prelude_frame_fields; reflexivity. }
  assert (forall a x, prelude_frame h x -> prelude_frame h (withAttached a x)) as Ha.
  { intros a x Hx. eapply prelude_frame_trans; [exact Hx|].
    apply prelude_frame_fields; reflexivity. }
  assert (forall st x,
             match st with StatementAttach _ _ | StatementDetach _ => True | _ => False end ->
             prelude_frame h x -> prelude_frame h (executed st x)) as He.
  { intros st x Hst Hx. eapply prelude_frame_trans; [exact Hx|].
    apply prelude_frame_executed, Hst. }
  pose proof (prelude_frame_refl h) as H0.
  rewrite reAttach_eq. cbv zeta.
  repeat match goal with
         | |- context [if ?c then _ else _] => destruct c
         end; cbn [final]; auto 10.
Qed.

Lemma migrateRows_prepare_cases (info : MigrationInfo) (h x : MigrateHandle) :
  prelude_frame h x ->
  m_migratingInfo x = Some info ->
  (prepared_from_info h -> prepared_from info x) ->
  (exists h1,
      migrateRows_prepare' info x
      = migrateRows_transaction assertions numberOfSamples MigrateMaxExpectingDuration
          MigrateMaxInitializeDuration info h1
      /\ ready info h h1)
  \/ early assertions h (migrateRows_prepare' info x).
Proof.
  intros Fx Ei Hw. unfold migrateRows_prepare.
  rewrite (bind_step _ _ x (bool_decide (is_Some (m_migrateStatement x))) x) by reflexivity.
  (* the migrate statement *)
  assert (exists ok1 x1,
             (if bool_decide (is_Some (m_migrateStatement x)) then mret true
              else statement_prepare MigrateStatement (StatementForMigratingOneRow info)) x
             = Returns ok1 x1
             /\ prelude_frame h x1 /\ m_migratingInfo x1 = Some info
             /\ m_removeMigratedStatement x1 = m_removeMigratedStatement x
             /\ (ok1 = true -> is_Some (m_migrateStatement x1))
             /\ (prepared_from_info h ->
                 forall s, m_migrateStatement x1 = Some s
                           -> s = StatementForMigratingOneRow info))
    as (ok1 & x1 & E1 & F1 & Ei1 & Er1 & Hs1 & Hw1).
  { destruct (bool_decide (is_Some (m_migrateStatement x))) eqn:Hp.
    - apply bool_decide_eq_true in Hp.
      exists true, x. conjs; auto. intros Hh. apply (Hw Hh).
    - unfold statement_prepare. destruct (succeeds (handle x)) eqn:Es.
      + eexists _, _. split; [reflexivity|]. conjs; simpl; eauto.
        * eapply prelude_frame_trans; [exact Fx|].
          eapply prelude_frame_trans; [eapply (prelude_frame_performed (EvPrepare _ _)); exact I|].
          apply prelude_frame_fields; reflexivity.
        * intros _ s Hs. congruence.
      + eexists _, _. split; [reflexivity|]. conjs; simpl; eauto.
        * eapply prelude_frame_trans; [exact Fx|].
          eapply (prelude_frame_performed (EvPrepare _ _)); exact I.
        * discriminate.
        * intros Hh. apply (Hw Hh). }
  rewrite (bind_step _ _ x ok1 x1) by exact E1.
  assert (prepared_from_info h ->
          forall s, m_removeMigratedStatement x1 = Some s
                    -> s = StatementForDeletingMigratedOneRow info) as Hwr.
  { intros Hh s. rewrite Er1. apply (Hw Hh). }
  assert (forall y, prelude_frame h y -> m_migratingInfo y = Some info ->
                    (prepared_from_info h -> prepared_from info y) ->
                    early assertions h (Returns (false, false) y)) as Hearly.
  { intros y Fy Eiy Hwy. split; [exact Fy|]. split; [|left; reflexivity].
    intros Hh. destruct (Hwy Hh) as [Hm Hd]. split; intros s Hs; exists info; auto. }
  destruct ok1; cbn [negb].
  2:{ right. apply Hearly; auto. intros Hh. split; auto. }
  specialize (Hs1 eq_refl).
  rewrite (bind_step _ _ x1 (bool_decide (is_Some (m_removeMigratedStatement x1))) x1)
    by reflexivity.
  (* the delete statement *)
  assert (exists ok2 x2,
             (if bool_decide (is_Some (m_removeMigratedStatement x1)) then mret true
              else statement_prepare RemoveMigratedStatement
                     (StatementForDeletingMigratedOneRow info)) x1
             = Returns ok2 x2
             /\ prelude_frame h x2 /\ m_migratingInfo x2 = Some info
             /\ m_migrateStatement x2 = m_migrateStatement x1
             /\ (ok2 = true -> is_Some (m_removeMigratedStatement x2))
             /\ (prepared_from_info h ->
                 forall s, m_removeMigratedStatement x2 = Some s
                           -> s = StatementForDeletingMigratedOneRow info))
    as (ok2 & x2 & E2 & F2 & Ei2 & Em2 & Hs2 & Hw2).
  { destruct (bool_decide (is_Some (m_removeMigratedStatement x1))) eqn:Hp.
    - apply bool_decide_eq_true in Hp.
      exists true, x1. conjs; auto.
    - unfold statement_prepare. destruct (succeeds (handle x1)) eqn:Es.
      + eexists _, _. split; [reflexivity|]. conjs; simpl; eauto.
        * eapply prelude_frame_trans; [exact F1|].
          eapply prelude_frame_trans; [eapply (prelude_frame_performed (EvPrepare _ _)); exact I|].
          apply prelude_frame_fields; reflexivity.
        * intros _ s Hs. congruence.
      + eexists _, _. split; [reflexivity|]. conjs; simpl; eauto.
        * eapply prelude_frame_trans; [exact F1|].
          eapply (prelude_frame_performed (EvPrepare _ _)); exact I.
        * discriminate. }
  rewrite (bind_step _ _ x1 ok2 x2) by exact E2.
  assert (prepared_from_info h ->
          forall s, m_migrateStatement x2 = Some s
                    -> s = StatementForMigratingOneRow info) as Hwm.
  { intros Hh s. rewrite Em2. apply (Hw1 Hh). }
  destruct ok2; cbn [negb].
  2:{ right. apply Hearly; auto. intros Hh. split; auto. }
  specialize (Hs2 eq_refl). left. exists x2. split; [reflexivity|].
  unfold ready. rewrite Em2.
  split; [exact F2|]. split; [exact Hs1|]. split; [exact Hs2|]. split; [exact Ei2|].
  intros Hh. destruct Hs1 as [s Hs], Hs2 as [s' Hs']. rewrite Hs, Hs'.
  split; f_equal; [apply (Hw1 Hh); exact Hs | apply (Hw2 Hh); exact Hs'].
Qed.

Lemma reAttach_Aborts (p : string) (s : Schema) (h x : MigrateHandle) :
  reAttach assertions p s h = Aborts x -> x = h /\ assertions = true.
Proof.
  rewrite reAttach_eq. cbv zeta.
  destruct (assertions && violated h) eqn:Ea.
  { intros [= <-]. apply andb_true_iff in Ea. tauto. }
  repeat match goal with
         | |- context [if ?c then _ else _] => destruct c
         end; discriminate.
Qed.

(** [migrateRows] either ends before its transaction part, or enters it in a
    state that is [ready]. *)
Lemma migrateRows_prelude (info : MigrationInfo) (h : MigrateHandle) :
  (exists h1,
      migrateRows assertions numberOfSamples MigrateMaxExpectingDuration
        MigrateMaxInitializeDuration info h
      = migrateRows_transaction assertions numberOfSamples MigrateMaxExpectingDuration
          MigrateMaxInitializeDuration info h1
      /\ ready info h h1)
  \/ early assertions h
       (migrateRows assertions numberOfSamples MigrateMaxExpectingDuration
          MigrateMaxInitializeDuration info h).
Proof.
  unfold migrateRows. fold (migrateRows_prepare' info).
  set (h0 := withHandle (performed (EvTableExists (getTable info) (succeeds (handle h)))
                           (handle h)) h).
  assert (prelude_frame h h0) as F0 by (apply prelude_frame_performed; exact I).
  assert (forall y, prelude_frame h0 y -> prelude_frame h y) as Fy
    by (intros y; apply prelude_frame_trans, F0).
  rewrite (bind_step _ _ h
             (succeeds (handle h),
              succeeds (handle h) && bool_decide (getTable info ∈ mainTables (handle h)))
             h0) by reflexivity.
  destruct (succeeds (handle h)); cbn [negb andb].
  2:{ right. split; [exact F0|]. split; [tauto|left; reflexivity]. }
  destruct (bool_decide (getTable info ∈ mainTables (handle h))); cbn [negb].
  2:{ right. split; [exact F0|]. split; [tauto|right; reflexivity]. }
  rewrite (bind_step _ _ h0 (m_migratingInfo h0) h0) by reflexivity.
  rewrite bind_eval.
  destruct (bool_decide (m_migratingInfo h0 ≠ Some info)) eqn:Ei.
  - rewrite bind_eval.
    pose proof (reAttach_frame (getSourceDatabase info) (getSchemaForSourceDatabase info) h0)
      as Fr.
    pose proof (reAttach_outcome assertions (getSourceDatabase info)
                  (getSchemaForSourceDatabase info) h0) as Hc.
    pose proof (reAttach_Aborts (getSourceDatabase info) (getSchemaForSourceDatabase info) h0)
      as Ha.
    destruct (reAttach assertions (getSourceDatabase info)
                (getSchemaForSourceDatabase info) h0) as [ok x|x|x]; cbn [final] in Fr.
    + destruct Hc as (Hi & Hm & Hd). destruct ok.
      * rewrite (bind_step _ _ x tt (withMigratingInfo (Some info) x)) by reflexivity.
        cbn [negb].
        apply migrateRows_prepare_cases.
        -- apply Fy. eapply prelude_frame_trans; [exact Fr|].
           apply prelude_frame_fields; reflexivity.
        -- reflexivity.
        -- intros _. split; intros s Hs; simpl in Hs; congruence.
      * right. split; [apply Fy, Fr|]. split; [|left; reflexivity].
        intros _. split; intros s Hs; simpl in Hs; congruence.
    + destruct (Ha x eq_refl) as [-> ->].
      right. split; [exact F0|]. split; [tauto|reflexivity].
    + contradiction.
  - apply bool_decide_eq_false in Ei. apply dec_stable in Ei. cbn [negb].
    apply migrateRows_prepare_cases; [exact F0|exact Ei|].
    intros [Hm Hd]. split; intros s Hs.
    + destruct (Hm s Hs) as (i & Hi & ->). simpl in Ei. congruence.
    + destruct (Hd s Hs) as (i & Hi & ->). simpl in Ei. congruence.
Qed.

End PreludeFacts.

(** ** The stepper: the transaction part of [migrateRows] *)

Section TransactionFacts.

Variable assertions : bool.
Variable numberOfSamples : nat.
Variable MAX B0 : float.

Lemma addSample_eq (within whole : float) (h : MigrateHandle) :
  addSample assertions numberOfSamples within whole h =
  if assertions && negb (sample_ok numberOfSamples (m_samplePointing h) within whole)
  then Aborts h
  else Returns tt (recorded numberOfSamples within whole h).
Proof.
  unfold addSample, sample_ok, recorded. run_M.
  destruct assertions; [|reflexivity]. simpl.
  destruct (0 <? within)%float; [|reflexivity]. simpl.
  destruct (0 <? whole)%float; [|reflexivity]. simpl.
  destruct (bool_decide (m_samplePointing h < numberOfSamples)); [|reflexivity]. simpl.
  destruct (within <? whole)%float; reflexivity.
Qed.

Lemma migrateRows_transaction_cases (info : MigrationInfo) (h1 : MigrateHandle) :
  is_Some (m_migrateStatement h1) ->
  is_Some (m_removeMigratedStatement h1) ->
  transacted assertions numberOfSamples MAX B0 info h1
    (migrateRows_transaction assertions numberOfSamples MAX B0 info h1).
Proof.
  intros Hm Hd. unfold migrateRows_transaction.
  rewrite (bind_step _ _ h1 (budget_of MAX B0 h1) h1) by reflexivity.
  rewrite (bind_step _ _ h1 (fuel_of info h1) h1) by reflexivity.
  rewrite bind_eval. unfold runTransaction.
  destruct (succeeds (handle h1)) eqn:Eb.
  2:{ cbv beta iota. cbn [mret M_ret].
      apply transacted_not_begun; unfold same_sampler, same_statements, same_rows;
        simpl; auto. }
  fold (begun h1).
  assert (stepping (begun h1)) as Hs by (repeat split; assumption).
  destruct (migrateLoop_frame assertions (fuel_of info h1) (budget_of MAX B0 h1)
              (begun h1) Hs) as [Fl Hl].
  destruct (migrateLoop assertions (fuel_of info h1) (budget_of MAX B0 h1) (begun h1))
    as [[succeed [migrated cost]] hl|hl|hl] eqn:El; cbn [final] in Fl;
    [|contradiction|].
  2:{ destruct Fl as ((steps & Ej & Hsteps) & _).
      cbv beta iota. eapply transacted_out_of_fuel; [exact El| |exact Hsteps].
      rewrite Ej. simpl. rewrite <- app_assoc. reflexivity. }
  destruct Fl as ((steps & Ej & Hsteps) & (Fs1 & Fs2) & (Ft1 & Ft2 & Ft3 & Ft4)
                  & (Fe1 & Fe2 & Fe3 & Fe4 & Fe5) & Fr).
  destruct Hl as (r & Er & Hr & Ec).
  assert (journal (handle hl) = journal (handle h1) ++ EvBegin true :: steps) as Ej'.
  { rewrite Ej. simpl. rewrite <- app_assoc. reflexivity. }
  destruct succeed.
  2:{ cbn [mret M_ret].
      eapply (transacted_rolled_back _ _ _ _ _ _ _ steps [EvRollback]);
        [|exact Hsteps|left; reflexivity| | |];
        unfold same_sampler, same_statements, same_rows, rolledBack; simpl; auto.
      rewrite Ej'. rewrite <- app_assoc. reflexivity. }
  destruct (succeeds (handle hl)) eqn:Ecm.
  2:{ cbn [mret M_ret].
      eapply (transacted_rolled_back _ _ _ _ _ _ _ steps [EvCommit false; EvRollback]);
        [|exact Hsteps|right; reflexivity| | |];
        unfold same_sampler, same_statements, same_rows, rolledBack; simpl; auto.
      rewrite Ej'. rewrite <- !app_assoc. reflexivity. }
  set (hc := withHandle (withTransaction false (performed (EvCommit true) (handle hl))) hl).
  unfold timeIntervalSinceSteadyClockToNow.
  rewrite (bind_step _ _ hc (elapsed (handle hc) (reads (handle hc)))
             (withHandle (withRead (handle hc)) hc)) by reflexivity.
  set (hw := withHandle (withRead (handle hc)) hc).
  rewrite bind_eval, addSample_eq.
  assert (elapsed (handle hc) (reads (handle hc)) = elapsed (handle h1) (S r)) as Ew.
  { simpl. rewrite Fe2, Er. reflexivity. }
  assert (m_samplePointing hw = m_samplePointing h1) as Ep by exact Fs2.
  assert (m_samples hw = m_samples h1) as Esm by exact Fs1.
  rewrite Ew, Ep.
  assert (forall out h',
             handle h' = handle hw -> same_statements h1 h' ->
             (out = Returns (true, migrated) h'
              /\ m_samples h' = m_samples (recorded numberOfSamples cost
                                             (elapsed (handle h1) (S r)) h1)
              /\ m_samplePointing h'
                 = m_samplePointing (recorded numberOfSamples cost
                                       (elapsed (handle h1) (S r)) h1)
              /\ (assertions = true ->
                  sample_ok numberOfSamples (m_samplePointing h1) cost
                    (elapsed (handle h1) (S r)) = true))
             \/ (out = Aborts h' /\ assertions = true
                 /\ sample_ok numberOfSamples (m_samplePointing h1) cost
                      (elapsed (handle h1) (S r)) = false
                 /\ same_sampler h1 h') ->
             transacted assertions numberOfSamples MAX B0 info h1 out) as Hfin.
  { intros out h' Eh Hst Hout.
    assert (reads (handle h') = S (S r)) as Erd by (rewrite Eh; simpl; rewrite Er; reflexivity).
    eapply (transacted_committed _ _ _ _ _ _ out h' steps migrated cost
              (elapsed (handle h1) (S r)) hl); try exact Hout; try exact Hst.
    - exact El.
    - rewrite Eh. simpl. rewrite Ej'. rewrite <- app_assoc. reflexivity.
    - exact Hsteps.
    - lia.
    - rewrite Erd. replace (S (S r) - 2) with r by lia. rewrite Ec. reflexivity.
    - rewrite Erd. replace (S (S r) - 1) with (S r) by lia. reflexivity.
    - rewrite Eh. split; reflexivity. }
  assert (same_statements h1 hw) as Hst.
  { unfold same_statements. simpl. auto. }
  destruct (assertions && negb (sample_ok numberOfSamples (m_samplePointing h1) cost
                                  (elapsed (handle h1) (S r)))) eqn:Ea.
  - apply andb_true_iff in Ea as [-> Eok]. apply negb_true_iff in Eok.
    apply (Hfin _ hw eq_refl Hst). right. unfold same_sampler. auto.
  - cbn [mret M_ret].
    apply (Hfin _ (recorded numberOfSamples cost (elapsed (handle h1) (S r)) hw) eq_refl).
    { exact Hst. }
    left. split; [reflexivity|].
    unfold recorded. simpl. rewrite Fs1, Fs2. conjs; try reflexivity.
    intros ->. simpl in Ea. apply negb_false_iff in Ea. exact Ea.
Qed.

End TransactionFacts.

(** ** The stepper: [migrateRows] as a whole *)

Section MigrateRowsFacts.

Variable assertions : bool.
Variable numberOfSamples : nat.
Variable MAX B0 : float.

Abbreviation migrateRows' := (migrateRows assertions numberOfSamples MAX B0).

Lemma migrateRows_cases (info : MigrationInfo) (h : MigrateHandle) :
  early assertions h (migrateRows' info h)
  \/ exists h1, ready info h h1
                /\ transacted assertions numberOfSamples MAX B0 info h1 (migrateRows' info h).
Proof.
  destruct (migrateRows_prelude assertions numberOfSamples MAX B0 info h)
    as [(h1 & E & Hr)|He]; [right|left; exact He].
  exists h1. split; [exact Hr|]. rewrite E.
  apply migrateRows_transaction_cases; apply Hr.
Qed.

Lemma Forall_not_elem {A} (P : A -> Prop) (l : list A) (x : A) :
  Forall P l -> ~ P x -> x ∉ l.
Proof. intros Hl Hx Hin. rewrite Forall_forall in Hl. auto. Qed.

(** The events of a call that ended before its transaction part. *)
Lemma early_events (h : MigrateHandle) (out : outcome (bool * bool)) :
  early assertions h out -> Forall isPrelude (performedBy h (final out)).
Proof.
  intros (((pre & Ej & Hpre) & _) & _). rewrite (performedBy_app _ _ _ Ej). exact Hpre.
Qed.

(** The events of a call that entered its transaction part. *)
Lemma transacted_events (info : MigrationInfo) (h h1 : MigrateHandle)
    (out : outcome (bool * bool)) :
  ready info h h1 ->
  transacted assertions numberOfSamples MAX B0 info h1 out ->
  exists pre tx,
    performedBy h (final out) = pre ++ tx
    /\ journal (handle (final out)) = journal (handle h1) ++ tx
    /\ Forall isPrelude pre /\ Forall isTransactionEvent tx
    /\ (transactionFailed tx -> exists h', out = Returns (false, false) h'
                                           /\ same_sampler h1 h' /\ same_statements h1 h')
    /\ (transactionCommitted tx ->
        exists steps, tx = EvBegin true :: steps ++ [EvCommit true] /\ Forall isStep steps).
Proof.
  intros (((pre & Ej & Hpre) & _) & _) Ht.
  assert (forall steps, Forall isStep steps -> Forall isTransactionEvent steps) as Hst.
  { intros steps Hs. eapply Forall_impl; [exact Hs|].
    intros [] Hx; try contradiction; exact I. }
  assert (forall tx, journal (handle (final out)) = journal (handle h1) ++ tx ->
                     performedBy h (final out) = pre ++ tx
                     /\ journal (handle (final out)) = journal (handle h1) ++ tx) as Hp.
  { intros tx E. split; [|exact E].
    apply performedBy_app. rewrite E, Ej, app_assoc. reflexivity. }
  inversion Ht as [h' Ejt Hsm Hstm Hrw
                  |h' steps tail Ejt Hsteps Htail Hsm Hstm Hrw
                  |out' h' steps migrated cost whole hl El Ejt Hsteps Hrd Ec Ew Hstm Hrw Hout
                  |h' steps El Ejt Hsteps]; subst.
  - exists pre, [EvBegin false]. destruct (Hp _ Ejt) as [E1 E2].
    conjs; auto.
    + repeat constructor.
    + intros _. eauto.
    + intros Hc. apply list_elem_of_singleton in Hc. discriminate.
  - exists pre, (EvBegin true :: steps ++ tail). destruct (Hp _ Ejt) as [E1 E2].
    conjs; auto.
    + constructor; [exact I|]. apply Forall_app. split; [auto|].
      destruct Htail as [-> | ->]; repeat constructor.
    + intros _. eauto.
    + intros Hc. exfalso. unfold transactionCommitted in Hc.
      rewrite elem_of_cons, elem_of_app in Hc.
      destruct Hc as [Hc|[Hc|Hc]]; [discriminate| |].
      * revert Hc. apply (Forall_not_elem isStep); auto.
      * destruct Htail as [-> | ->]; not_listed Hc.
  - assert (journal (handle (final out)) = journal (handle h')) as Ef.
    { destruct Hout as [(-> & _)|(-> & _)]; reflexivity. }
    exists pre, (EvBegin true :: steps ++ [EvCommit true]).
    destruct (Hp (EvBegin true :: steps ++ [EvCommit true])) as [E1 E2];
      [rewrite Ef; exact Ejt|].
    conjs; auto.
    + constructor; [exact I|]. apply Forall_app. split; [auto|]. repeat constructor.
    + intros [Hf|Hf]; exfalso; rewrite elem_of_cons, elem_of_app in Hf;
        (destruct Hf as [Hf|[Hf|Hf]]; [discriminate| |not_listed Hf]);
        revert Hf; apply (Forall_not_elem isStep); auto.
    + intros _. eauto.
  - exists pre, (EvBegin true :: steps). destruct (Hp _ Ejt) as [E1 E2].
    conjs; auto.
    + constructor; [exact I|auto].
    + intros [Hf|Hf]; exfalso; rewrite elem_of_cons in Hf;
        (destruct Hf as [Hf|Hf]; [discriminate|]);
        revert Hf; apply (Forall_not_elem isStep); auto.
    + intros Hc. exfalso. unfold transactionCommitted in Hc. rewrite elem_of_cons in Hc.
      destruct Hc as [Hc|Hc]; [discriminate|].
      revert Hc. apply (Forall_not_elem isStep); auto.
Qed.

End MigrateRowsFacts.

Lemma elem_of_insert_inv {A} (l : list A) (i : nat) (x y : A) :
  y ∈ <[i:=x]> l -> y = x \/ y ∈ l.
Proof.
  revert i. induction l as [|a l IH]; intros i Hy; [simpl in Hy; auto|].
  destruct i as [|i]; simpl in Hy; apply elem_of_cons in Hy as [->|Hy].
  - auto.
  - right. apply elem_of_cons. auto.
  - right. apply elem_of_cons. auto.
  - destruct (IH i Hy) as [->|Hin]; [auto|]. right. apply elem_of_cons. auto.
Qed.

Section MigrateRowsTheorems.

Variable assertions : bool.
Variable numberOfSamples : nat.
Variable MAX B0 : float.

Abbreviation migrateRows'' := (migrateRows assertions numberOfSamples MAX B0).

Lemma ready_elapsed (info : MigrationInfo) (h h1 : MigrateHandle) :
  ready info h h1 ->
  elapsed (handle h1) = elapsed (handle h)
  /\ m_samples h1 = m_samples h /\ m_samplePointing h1 = m_samplePointing h
  /\ source (handle h1) = source (handle h)
  /\ destination (handle h1) = destination (handle h).
Proof.
  intros ((_ & (Hs1 & Hs2) & (_ & He & _) & (Hr1 & Hr2) & _) & _). auto.
Qed.

(** The loop started by a call made with invariant S1 moves rows of [info]. *)
Lemma ready_loop_rows (info : MigrationInfo) (h h1 : MigrateHandle) :
  prepared_from_info h -> ready info h h1 ->
  exists succeed migrated cost hl,
    migrateLoop assertions (fuel_of info h1) (budget_of MAX B0 h1) (begun h1)
    = Returns (succeed, (migrated, cost)) hl
    /\ exists moved,
         source (handle h) info = moved ++ source (handle hl) info
         /\ (succeed = true ->
             destination (handle hl) info = rev moved ++ destination (handle h) info
             /\ (migrated = false -> moved <> [])
             /\ (migrated = true -> source (handle hl) info = [])).
Proof.
  intros Hw Hr. destruct (ready_elapsed _ _ _ Hr) as (_ & _ & _ & Es & Ed).
  destruct Hr as (_ & _ & _ & _ & Hst). destruct (Hst Hw) as [Em Er].
  destruct (migrateLoop_rows assertions info (fuel_of info h1) (budget_of MAX B0 h1)
              (begun h1)) as (succeed & migrated & cost & hl & El & moved & Hsrc & Hrest).
  { exact Em. } { exact Er. } { reflexivity. }
  { unfold fuel_of. simpl. lia. }
  exists succeed, migrated, cost, hl. split; [exact El|].
  exists moved. simpl in Hsrc, Hrest. rewrite Es in Hsrc. rewrite Ed in Hrest. auto.
Qed.

(** A call made with invariant S1 is not cut off: the bound of the loop is
    never reached. *)
Lemma migrateRows_terminates (info : MigrationInfo) (h : MigrateHandle) :
  prepared_from_info h ->
  forall x, migrateRows'' info h <> OutOfFuel x.
Proof.
  intros Hw x E.
  destruct (migrateRows_cases assertions numberOfSamples MAX B0 info h)
    as [(_ & _ & He)|(h1 & Hr & Ht)]; rewrite E in *; [contradiction|].
  destruct (ready_loop_rows info h h1 Hw Hr) as (s & m & c & hl & El & _).
  inversion Ht as [| |out' h' steps migrated cost whole hl' El' _ _ _ _ _ _ _ Hout
                  |h' steps El' _ _]; subst.
  - destruct Hout as [(Ho & _)|(Ho & _)]; discriminate Ho.
  - rewrite El in El'. discriminate El'.
Qed.

(** Invariant S1 holds of a new stepper and is kept by [migrateRows]. *)
Lemma MigrateHandle_new_prepared_from_info (e : Handle) :
  prepared_from_info (MigrateHandle_new numberOfSamples e).
Proof. split; intros s Hs; discriminate Hs. Qed.

Lemma migrateRows_prepared_from_info (info : MigrationInfo) (h : MigrateHandle) :
  prepared_from_info h -> prepared_from_info (final (migrateRows'' info h)).
Proof.
  intros Hw.
  destruct (migrateRows_cases assertions numberOfSamples MAX B0 info h)
    as [(_ & He & _)|(h1 & Hr & Ht)]; [auto|].
  destruct (ready_loop_rows info h h1 Hw Hr) as (s & m & c & hl & El & _).
  destruct Hr as (_ & _ & _ & Ei & Hst). destruct (Hst Hw) as [Em Er].
  assert (forall h', same_statements h1 h' -> prepared_from_info h') as Hsame.
  { intros h' (E1 & E2 & E3 & _). split; intros st Hs; exists info.
    - rewrite E3, Ei. split; [reflexivity|]. congruence.
    - rewrite E3, Ei. split; [reflexivity|]. congruence. }
  inversion Ht as [h' _ _ Hstm _
                  |h' steps tail _ _ _ _ Hstm _
                  |out' h' steps migrated cost whole hl' _ _ _ _ _ _ Hstm _ Hout
                  |h' steps El' _ _]; subst; cbn [final]; auto.
  - destruct Hout as [(-> & _)|(-> & _)]; cbn [final]; auto.
  - rewrite El in El'. discriminate El'.
Qed.

(** C4.  When the transaction of a [migrateRows] call fails (it cannot be
    opened, or it is rolled back after a failed step or a failed commit),
    the call returns false with [done] false, the ring and the cursor are as
    before, both statements are still prepared for [info], and the next
    call for [info] prepares no statement and attaches or detaches
    nothing. *)
Theorem migrateRows_failed_transaction (info : MigrationInfo) (h : MigrateHandle) :
  let out := migrateRows'' info h in
  let h' := final out in
  transactionFailed (performedBy h h') ->
  out = Returns (false, false) h'
  /\ m_samples h' = m_samples h
  /\ m_samplePointing h' = m_samplePointing h
  /\ is_Some (m_migrateStatement h')
  /\ is_Some (m_removeMigratedStatement h')
  /\ m_migratingInfo h' = Some info
  /\ Forall isResumeEvent (performedBy h' (final (migrateRows'' info h'))).
Proof.
  intros out h' Hf. subst out h'.
  assert (forall x, m_migratingInfo x = Some info ->
                    is_Some (m_migrateStatement x) ->
                    is_Some (m_removeMigratedStatement x) ->
                    Forall isResumeEvent (performedBy x (final (migrateRows'' info x))))
    as Hresume.
  { intros x Ei Hm Hd.
    set (x0 := withHandle (performed (EvTableExists (getTable info) (succeeds (handle x)))
                             (handle x)) x).
    assert (journal (handle x0) = journal (handle x)
                                  ++ [EvTableExists (getTable info) (succeeds (handle x))])
      as Ej0 by reflexivity.
    assert (migrateRows'' info x
            = if negb (succeeds (handle x)) then Returns (false, false) x0
              else if negb (bool_decide (getTable info ∈ mainTables (handle x)))
                   then Returns (true, true) x0
                   else migrateRows_transaction assertions numberOfSamples MAX B0 info x0)
      as Eq.
    { unfold migrateRows.
      rewrite (bind_step _ _ x
                 (succeeds (handle x),
                  succeeds (handle x) && bool_decide (getTable info ∈ mainTables (handle x)))
                 x0) by reflexivity.
      destruct (succeeds (handle x)); cbn [negb andb]; [|reflexivity].
      destruct (bool_decide (getTable info ∈ mainTables (handle x))); cbn [negb];
        [|reflexivity].
      rewrite (bind_step _ _ x0 (m_migratingInfo x0) x0) by reflexivity.
      rewrite (bind_step _ _ x0 true x0)
        by (change (m_migratingInfo x0) with (m_migratingInfo x); rewrite Ei;
            rewrite bool_decide_eq_false_2 by (intros Hn; apply Hn; reflexivity);
            reflexivity).
      cbn [negb].
      rewrite (bind_step _ _ x0 true x0)
        by (unfold statement_isPrepared, gets; f_equal;
            apply bool_decide_eq_true; exact Hm).
      rewrite (bind_step _ _ x0 true x0) by reflexivity. cbn [negb].
      rewrite (bind_step _ _ x0 true x0)
        by (unfold statement_isPrepared, gets; f_equal;
            apply bool_decide_eq_true; exact Hd).
      rewrite (bind_step _ _ x0 true x0) by reflexivity. reflexivity. }
    rewrite Eq.
    destruct (negb (succeeds (handle x))).
    { cbn [final]. rewrite (performedBy_app _ _ _ Ej0). repeat constructor. }
    destruct (negb (bool_decide (getTable info ∈ mainTables (handle x)))).
    { cbn [final]. rewrite (performedBy_app _ _ _ Ej0). repeat constructor. }
    pose proof (migrateRows_transaction_cases assertions numberOfSamples MAX B0 info x0
                  Hm Hd) as Ht.
    assert (ready info x0 x0) as Hr0.
    { split; [apply prelude_frame_refl|]. split; [exact Hm|]. split; [exact Hd|].
      split; [exact Ei|].
      intros [Hwm Hwd]. destruct Hm as [sm Hsm], Hd as [sd Hsd].
      destruct (Hwm sm Hsm) as (i & Hi & Esm). destruct (Hwd sd Hsd) as (j & Hj & Esd).
      change (m_migratingInfo x0) with (m_migratingInfo x) in Hi, Hj.
      change (m_migrateStatement x0) with (m_migrateStatement x).
      change (m_removeMigratedStatement x0) with (m_removeMigratedStatement x).
      rewrite Ei in Hi, Hj. injection Hi as <-. injection Hj as <-.
      rewrite Hsm, Hsd, Esm, Esd. auto. }
    destruct (transacted_events assertions numberOfSamples MAX B0 info x0 x0 _ Hr0 Ht)
      as (_ & tx & _ & Ej1 & _ & Htx & _).
    set (o := migrateRows_transaction assertions numberOfSamples MAX B0 info x0) in *.
    assert (performedBy x (final o)
            = EvTableExists (getTable info) (succeeds (handle x)) :: tx) as ->.
    { apply performedBy_app. rewrite Ej1, Ej0, <- app_assoc. reflexivity. }
    constructor; [exact I|].
    eapply Forall_impl; [exact Htx|]. intros [] Hx; try contradiction; exact I. }
  destruct (migrateRows_cases assertions numberOfSamples MAX B0 info h)
    as [He|(h1 & Hr & Ht)].
  { exfalso. pose proof (early_events assertions h _ He) as Hp.
    destruct Hf as [Hf|Hf]; revert Hf; apply (Forall_not_elem isPrelude); auto. }
  destruct (transacted_events assertions numberOfSamples MAX B0 info h h1 _ Hr Ht)
    as (pre & tx & Ep & _ & Hpre & _ & Hfail & _).
  rewrite Ep in Hf.
  assert (transactionFailed tx) as Hf'.
  { destruct Hf as [Hf|Hf]; apply elem_of_app in Hf as [Hf|Hf];
      [exfalso; revert Hf; apply (Forall_not_elem isPrelude); auto|left; exact Hf
      |exfalso; revert Hf; apply (Forall_not_elem isPrelude); auto|right; exact Hf]. }
  destruct (Hfail Hf') as (h' & Eo & (Hs1 & Hs2) & (Hm & Hd & Hi & _)).
  destruct (ready_elapsed _ _ _ Hr) as (_ & Es1 & Es2 & _).
  destruct Hr as (_ & Hrm & Hrd & Hri & _).
  rewrite Eo. cbn [final].
  assert (is_Some (m_migrateStatement h')) as Hm' by (rewrite Hm; exact Hrm).
  assert (is_Some (m_removeMigratedStatement h')) as Hd' by (rewrite Hd; exact Hrd).
  assert (m_migratingInfo h' = Some info) as Hi' by (rewrite Hi; exact Hri).
  conjs; auto; congruence.
Qed.



(** C5.  A [migrateRows] call made with invariant S1 that returns true with
    [done] false has committed a transaction that moved at least one row of
    [info]: the source lost a non-empty prefix, which the destination
    gained, whatever the budget was. *)
Theorem migrateRows_moves_a_row (info : MigrationInfo) (h h' : MigrateHandle) :
  prepared_from_info h ->
  migrateRows'' info h = Returns (true, false) h' ->
  transactionCommitted (performedBy h h')
  /\ exists moved,
       moved <> []
       /\ source (handle h) info = moved ++ source (handle h') info
       /\ destination (handle h') info = rev moved ++ destination (handle h) info.
Proof.
  intros Hw E.
  destruct (migrateRows_cases assertions numberOfSamples MAX B0 info h)
    as [(_ & _ & He)|(h1 & Hr & Ht)]; rewrite E in *.
  { destruct He as [He|He]; discriminate He. }
  destruct (ready_loop_rows info h h1 Hw Hr)
    as (s & m & c & hl' & El' & moved & Hsrc & Hrest).
  destruct Hr as (((pre & Ej & _) & _) & _).
  inversion Ht as [| |out' x steps migrated cost whole hl El Ejt _ _ _ _ _ Hrw Hout|];
    subst.
  destruct Hout as [(Ho & _)|(Ho & _)]; [|discriminate Ho].
  injection Ho as <- <-.
  rewrite El in El'. injection El' as <- <- <- <-.
  destruct (Hrest eq_refl) as (Hdst & Hmoved & _).
  destruct Hrw as [Hr1 Hr2].
  split.
  - unfold transactionCommitted.
    rewrite (performedBy_app h h' (pre ++ EvBegin true :: steps ++ [EvCommit true])).
    + rewrite elem_of_app, elem_of_cons, elem_of_app, list_elem_of_singleton. auto.
    + rewrite Ejt, Ej, <- app_assoc. reflexivity.
  - exists moved. rewrite Hr1, Hr2. auto.
Qed.

(** Invariant S4 is kept by [migrateRows] in a build with assertions, and in
    any build when the clock advances between any two readings. *)
Lemma migrateRows_keeps_samples_proper (info : MigrationInfo) (h : MigrateHandle)
    (r : bool * bool) (h' : MigrateHandle) :
  assertions = true \/ advancing (elapsed (handle h)) ->
  samples_proper (m_samples h) ->
  migrateRows'' info h = Returns r h' ->
  samples_proper (m_samples h').
Proof.
  intros Hgood Hp E.
  destruct (migrateRows_cases assertions numberOfSamples MAX B0 info h)
    as [((_ & (Es & _) & _) & _)|(h1 & Hr & Ht)]; rewrite E in *.
  { cbn [final] in Es. rewrite Es. exact Hp. }
  destruct (ready_elapsed _ _ _ Hr) as (Ee & Es1 & Es2 & _).
  inversion Ht as [x _ (Hs & _) _ _
                  |x steps tail _ _ _ (Hs & _) _ _
                  |out' x steps migrated cost whole hl _ _ _ Hrd Ec Ew _ _ Hout|];
    subst; try (rewrite Hs, Es1; exact Hp).
  destruct Hout as [(Ho & Hs & _ & Hok)|(Ho & _)]; [|discriminate Ho].
  injection Ho as Er Eh. subst r x.
  rewrite Hs. unfold recorded. cbn [m_samples withSamples].
  rewrite Es1. intros s Hin Hv.
  apply elem_of_insert_inv in Hin as [->|Hin]; [|apply Hp; assumption].
  cbn [timeIntervalWithinTransaction timeIntervalWholeTransaction].
  destruct Hgood as [Ha|Hadv].
  - specialize (Hok Ha). unfold sample_ok in Hok.
    apply andb_true_iff in Hok as [_ Hok]. exact Hok.
  - rewrite Ee. replace (reads (handle h') - 1) with (S (reads (handle h') - 2)) by lia.
    apply Hadv.
Qed.

Lemma dropSourceTable_frame (info : MigrationInfo) (h : MigrateHandle) (ok : bool)
    (h' : MigrateHandle) :
  dropSourceTable assertions info h = Returns ok h' ->
  same_sampler h h'
  /\ m_migrateStatement h' = None /\ m_removeMigratedStatement h' = None.
Proof.
  pose proof (reAttach_outcome assertions (getSourceDatabase info)
                (getSchemaForSourceDatabase info) h) as Hc.
  pose proof (reAttach_frame assertions (getSourceDatabase info)
                (getSchemaForSourceDatabase info) h) as (_ & (Hs1 & Hs2) & _).
  unfold dropSourceTable, execute, mbind, M_bind.
  destruct (reAttach assertions _ _ h) as [reattached h1|h1|h1]; try discriminate.
  cbn [final] in Hs1, Hs2. destruct Hc as (_ & Hm & Hd).
  destruct reattached; run_M; intros [= <- <-]; unfold same_sampler; simpl; auto.
Qed.

(** Invariant S1 holds in every state the stepper can be in; so does
    invariant S4 in a build with assertions. *)
Lemma reachable_invariants (h : MigrateHandle) :
  reachable assertions numberOfSamples MAX B0 h ->
  prepared_from_info h /\ (assertions = true -> samples_proper (m_samples h)).
Proof.
  induction 1 as [e|info h r h' _ [IH1 IH2] E|info h ok h' _ [IH1 IH2] E
                 |p s h ok h' _ [IH1 IH2] E].
  - split; [apply MigrateHandle_new_prepared_from_info|].
    intros _ s Hin Hv. apply elem_of_replicate in Hin as [-> _].
    vm_compute in Hv. discriminate Hv.
  - split.
    + pose proof (migrateRows_prepared_from_info info h IH1) as Hp.
      rewrite E in Hp. exact Hp.
    + intros Ha. eapply migrateRows_keeps_samples_proper; eauto.
  - destruct (dropSourceTable_frame info h ok h' E) as ((Hs & _) & Hm & Hd).
    split; [split; intros st Hst; congruence|]. rewrite Hs. exact IH2.
  - pose proof (reAttach_outcome assertions p s h) as Hc.
    pose proof (reAttach_frame assertions p s h) as (_ & (Hs & _) & _).
    rewrite E in Hc, Hs. cbn [final] in Hs. destruct Hc as (_ & Hm & Hd).
    split; [split; intros st Hst; congruence|]. rewrite Hs. exact IH2.
Qed.

End MigrateRowsTheorems.

(** ** Runs of [migrateRows] on the example database *)

Ltac listed := repeat first [apply list_elem_of_here | apply list_elem_of_further].



(** C3 fails on the code.  On the empty source with a clock that stands
    still, a build without assertions records the sample [(2^-20, 2^-20)]:
    it is valid, and its whole time is not above its time within the
    transaction.  The ring was proper before.  The build with assertions
    aborts on the same input, in [addSample]. *)
Theorem migrateRows_records_degenerate_sample :
  let h := MigrateHandle_new 3 (Handle_example [] never clock_stalled) in
  let out := migrateRows false 3 MAX_example B0_example info_example h in
  samples_proper (m_samples h)
  /\ out = Returns (true, true) (final out)
  /\ m_samples (final out) !! 0 = Some (mkSample 0x1p-20%float 0x1p-20%float)
  /\ valid (mkSample 0x1p-20%float 0x1p-20%float) = true
  /\ ~ samples_proper (m_samples (final out))
  /\ exists x, migrateRows true 3 MAX_example B0_example info_example h = Aborts x.
Proof.
  intros h out. conjs.
  - intros s Hin Hv. apply elem_of_replicate in Hin as [-> _].
    vm_compute in Hv. discriminate Hv.
  - vm_compute. reflexivity.
  - vm_compute. reflexivity.
  - vm_compute. reflexivity.
  - intros Hp.
    specialize (Hp (mkSample 0x1p-20%float 0x1p-20%float)).
    assert ((0x1p-20 <? 0x1p-20)%float = true) as Hlt.
    { apply Hp; [|vm_compute; reflexivity].
      apply list_elem_of_lookup. exists 0. vm_compute. reflexivity. }
    vm_compute in Hlt. discriminate Hlt.
  - eexists. vm_compute. reflexivity.
Qed.

Lemma migrateRows_failed_transaction_witness :
  let h := MigrateHandle_new 3 (Handle_example [1; 2; 3]%Z (only 9) clock_stalled) in
  let out := migrateRows true 3 MAX_example B0_example info_example h in
  out = Returns (false, false) (final out)
  /\ m_samples (final out) = m_samples h
  /\ m_samplePointing (final out) = m_samplePointing h
  /\ is_Some (m_migrateStatement (final out))
  /\ is_Some (m_removeMigratedStatement (final out))
  /\ m_migratingInfo (final out) = Some info_example
  /\ Forall isResumeEvent
       (performedBy (final out)
          (final (migrateRows true 3 MAX_example B0_example info_example (final out)))).
Proof.
  intros h out.
  apply (migrateRows_failed_transaction true 3 MAX_example B0_example info_example h).
  right. vm_compute performedBy. listed.
Defined.

Lemma migrateRows_moves_a_row_witness :
  let h := MigrateHandle_new 3 (Handle_example [1; 2; 3]%Z never clock_slow) in
  let h' := final (migrateRows true 3 MAX_example B0_example info_example h) in
  transactionCommitted (performedBy h h')
  /\ exists moved,
       moved <> []
       /\ source (handle h) info_example = moved ++ source (handle h') info_example
       /\ destination (handle h') info_example
          = rev moved ++ destination (handle h) info_example.
Proof.
  intros h h'.
  apply (migrateRows_moves_a_row true 3 MAX_example B0_example info_example h h').
  - split; intros s Hs; discriminate Hs.
  - vm_compute. reflexivity.
Defined.

(** * Further properties *)

(** ** The hub *)

(** Calling every entry of a list of notifications of one kind. *)
Lemma calls_of_entries (mk : Callable -> Call)
    (l : list (string * option Callable)) (calls : list (string * Call)) :
  Forall2 (fun (iter : string * option Callable) y =>
             (cb ← iter.2; Some (iter.1, mk cb)) = Some y) l calls ->
  calls.*1 = l.*1
  /\ forall name call,
       (name, call) ∈ calls <-> exists cb, (name, Some cb) ∈ l /\ call = mk cb.
Proof.
  induction 1 as [|[name' n'] [name'' call''] l k Hf _ [IHn IHm]].
  - split; [reflexivity|]. intros name call. split; [intros Hin; inversion Hin|].
    intros (cb & Hin & _). inversion Hin.
  - simpl in Hf. destruct n' as [cb'|]; simpl in Hf; [|discriminate].
    injection Hf as <- <-. split; [simpl; f_equal; exact IHn|].
    intros name call. rewrite !elem_of_cons, IHm. split.
    + intros [Heq|(cb & Hin & ->)].
      * injection Heq as -> ->. exists cb'. rewrite elem_of_cons. auto.
      * exists cb. rewrite elem_of_cons. auto.
    + intros (cb & Hin & ->). apply elem_of_cons in Hin as [Heq|Hin].
      * injection Heq as -> ->. auto.
      * right. eauto.
Qed.

Lemma register_fileOpened_callable (g : Global) (r : Registration) :
  fileOpened_callable g -> fileOpened_callable (register g r).
Proof.
  intros Hg. destruct r as [name n|name n|name w l ws sl]; simpl.
  - unfold setNotificationForLog. case_bool_decide; exact Hg.
  - unfold setNotificationWhenFileOpened. case_bool_decide as Hn; simpl.
    + intros name' n' Hl. simpl in Hl. destruct (decide (name = name')) as [->|Hne].
      * rewrite lookup_insert_eq in Hl. injection Hl as <-.
        destruct n; [eauto | congruence].
      * rewrite lookup_insert_ne in Hl by done. eauto.
    + intros name' n' Hl. simpl in Hl. destruct (decide (name = name')) as [->|Hne].
      * rewrite lookup_delete_eq in Hl. discriminate.
      * rewrite lookup_delete_ne in Hl by done. eauto.
  - exact Hg.
Qed.

Lemma registerAll_fileOpened_callable (rs : list Registration) (g : Global) :
  fileOpened_callable g -> fileOpened_callable (registerAll rs g).
Proof.
  revert g. induction rs as [|r rs IH]; intros g Hg; [exact Hg|].
  apply IH, register_fileOpened_callable, Hg.
Qed.

Lemma postFileOpenedNotification_calls (fd : Z) (path : string) (flags mode : Z)
    (g : Global) :
  fileOpened_callable g ->
  exists calls,
    postFileOpenedNotification fd path flags mode g = Some calls
    /\ NoDup calls.*1
    /\ forall name call,
         (name, call) ∈ calls <->
         exists cb, m_fileOpenedNotifications g !! name = Some (Some cb)
                    /\ call = CallFileOpened cb fd path flags mode.
Proof.
  intros Hg.
  assert (is_Some (postFileOpenedNotification fd path flags mode g)) as [calls Hc].
  { unfold postFileOpenedNotification. apply mapM_is_Some, Forall_forall.
    intros [name n] Hin. apply elem_of_map_to_list in Hin.
    destruct (Hg name n Hin) as [cb ->]. simpl. eauto. }
  exists calls. split; [exact Hc|].
  unfold postFileOpenedNotification in Hc. apply mapM_Some in Hc.
  destruct (calls_of_entries (fun cb => CallFileOpened cb fd path flags mode) _ _ Hc)
    as [Hn Hmem].
  split; [rewrite Hn; apply NoDup_fst_map_to_list|].
  intros name call. rewrite Hmem. split.
  - intros (cb & Hin & ->). exists cb. split; [|reflexivity].
    now apply elem_of_map_to_list in Hin.
  - intros (cb & Hl & ->). exists cb. split; [|reflexivity].
    now apply elem_of_map_to_list.
Qed.

(** X1.  The file-opened registry: registering a callable inserts or replaces
    the entry of the name, registering the empty notification removes it;
    on a hub reached by registrations an event calls the callable of every
    registered name exactly once with the event's arguments, and nothing for
    a name just removed. *)
Theorem setNotificationWhenFileOpened_fan_out :
  (forall name cb g,
      m_fileOpenedNotifications (setNotificationWhenFileOpened name (Some cb) g)
      = <[name := Some cb]> (m_fileOpenedNotifications g))
  /\ (forall name g,
         m_fileOpenedNotifications (setNotificationWhenFileOpened name None g)
         = delete name (m_fileOpenedNotifications g))
  /\ (forall rs fd path flags mode,
         let g := registerAll rs Global_new in
         exists calls,
           postFileOpenedNotification fd path flags mode g = Some calls
           /\ NoDup calls.*1
           /\ forall name call,
                (name, call) ∈ calls <->
                exists cb, m_fileOpenedNotifications g !! name = Some (Some cb)
                           /\ call = CallFileOpened cb fd path flags mode)
  /\ (forall rs name fd path flags mode,
         let g := setNotificationWhenFileOpened name None (registerAll rs Global_new) in
         exists calls,
           postFileOpenedNotification fd path flags mode g = Some calls
           /\ forall call, (name, call) ∉ calls).
Proof.
  assert (fileOpened_callable Global_new) as H0.
  { intros name n Hl. simpl in Hl. rewrite lookup_empty in Hl. discriminate. }
  split; [reflexivity|]. split; [reflexivity|]. split.
  - intros rs fd path flags mode g. apply postFileOpenedNotification_calls.
    apply registerAll_fileOpened_callable, H0.
  - intros rs name fd path flags mode g.
    destruct (postFileOpenedNotification_calls fd path flags mode g)
      as (calls & Hc & _ & Hmem).
    { apply (register_fileOpened_callable _ (RegisterFileOpened name None)),
        registerAll_fileOpened_callable, H0. }
    exists calls. split; [exact Hc|]. intros call Hin.
    apply Hmem in Hin as (cb & Hl & _).
    subst g. simpl in Hl. rewrite lookup_delete_eq in Hl. discriminate.
Qed.

(** X2.  [Global::open] returns what the real [open] returned, a failure
    ([-1]) included, whatever is registered; on a hub reached by
    registrations every file-opened subscriber is called exactly once, with
    that result, the path, the flags and the mode. *)
Theorem Global_open_passes_result :
  forall open_ rs path flags mode,
    let g := registerAll rs Global_new in
    let fd := open_ path flags mode in
    (Global_open open_ path flags mode g).1 = fd
    /\ exists calls,
         (Global_open open_ path flags mode g).2 = Some calls
         /\ NoDup calls.*1
         /\ forall name call,
              (name, call) ∈ calls <->
              exists cb, m_fileOpenedNotifications g !! name = Some (Some cb)
                         /\ call = CallFileOpened cb fd path flags mode.
Proof.
  intros open_ rs path flags mode g fd. split; [reflexivity|].
  unfold Global_open. cbn [snd]. apply postFileOpenedNotification_calls.
  apply registerAll_fileOpened_callable.
  intros name n Hl. simpl in Hl. rewrite lookup_empty in Hl. discriminate.
Qed.

Lemma NoDup_fst_omap {A B} (f : string * A -> option (string * B))
    (l : list (string * A)) :
  (forall x y, f x = Some y -> y.1 = x.1) ->
  NoDup l.*1 -> NoDup (omap f l).*1.
Proof.
  intros Hf. induction l as [|x l IH]; simpl; intros Hnd; [constructor|].
  apply NoDup_cons in Hnd as [Hx Hnd]. destruct (f x) as [y|] eqn:E; [|auto].
  simpl. apply NoDup_cons. split; [|auto].
  rewrite (Hf _ _ E). intros Hin. apply Hx.
  apply list_elem_of_fmap in Hin as (z & Ez & Hin).
  apply list_elem_of_omap in Hin as (x' & Hin & Ex').
  apply list_elem_of_fmap. exists x'. split; [|exact Hin].
  rewrite Ez. apply (Hf _ _ Ex').
Qed.

Lemma lockEventCalls_calls (assertions : bool) (pick : LockEvent -> option Callable)
    (call : Callable -> Call) (g : Global) :
  calls_once assertions pick call g (Some (lockEventCalls pick call g)).
Proof.
  split.
  - apply NoDup_fst_omap; [|apply NoDup_fst_map_to_list].
    intros [name ev] y Hf. simpl in Hf.
    destruct (pick ev); simpl in Hf; [|discriminate]. now injection Hf as <-.
  - intros name c. unfold lockEventCalls. rewrite list_elem_of_omap. split.
    + intros ([name' ev] & Hin & Hf). apply elem_of_map_to_list in Hin.
      simpl in Hf. destruct (pick ev) as [cb|] eqn:Hp; simpl in Hf; [|discriminate].
      injection Hf as -> <-. eauto.
    + intros (ev & cb & Hl & Hp & ->). exists (name, ev).
      split; [now apply elem_of_map_to_list|]. simpl. now rewrite Hp.
Qed.

Lemma asserted_calls_once (assertions cond : bool)
    (pick : LockEvent -> option Callable) (call : Callable -> Call) (g : Global)
    (d : Dispatch) :
  calls_once assertions pick call g d ->
  calls_once assertions pick call g (asserted assertions cond d).
Proof.
  intros Hd. unfold asserted. destruct assertions; [|exact Hd].
  destruct cond; [exact Hd | reflexivity].
Qed.

(** X3.  Each of the four lock dispatchers, on any hub and for any
    arguments, either stops at an assertion, which only a build with
    assertions does, or calls exactly the entries whose callback for this
    event is not empty, each once, handing on the path and the event's own
    arguments: the lock type as cast, the shared-memory lock type read off
    the [SQLITE_SHM_SHARED] bit, the mask, the identifier and the two
    masks. *)
Theorem lock_dispatch_calls_once (assertions : bool) (g : Global) :
  (forall path type,
      calls_once assertions willLock
        (fun cb => CallWillLock cb path (PagerLock_of_int type)) g
        (postWillLockNotification assertions path type g))
  /\ (forall path type,
         calls_once assertions lockDidChange
           (fun cb => CallLockDidChange cb path (PagerLock_of_int type)) g
           (postLockDidChangeNotification assertions path type g))
  /\ (forall path flags mask,
         calls_once assertions willShmLock
           (fun cb => CallWillShmLock cb path
                        (if shm_shared flags then ShmLock_Shared else ShmLock_Exclusive)
                        mask) g
           (postWillShmLockNotification assertions path flags mask g))
  /\ (forall path identifier sharedMask exclusiveMask,
         calls_once assertions shmLockDidChange
           (fun cb => CallShmLockDidChange cb path identifier sharedMask exclusiveMask) g
           (postShmLockDidChangeNotification assertions path identifier
              sharedMask exclusiveMask g)).
Proof.
  split; [|split; [|split]]; intros;
    do 2 apply asserted_calls_once; apply lockEventCalls_calls.
Qed.

Lemma asserted_None (cond : bool) (calls : list (string * Call)) :
  asserted true cond (Some calls) = None <-> cond = false.
Proof. unfold asserted. destruct cond; simpl; split; congruence. Qed.

Lemma asserted_None_outer (cond : bool) (d : Dispatch) :
  asserted true cond d = None <-> cond = false \/ d = None.
Proof.
  unfold asserted. destruct cond; simpl.
  - split; [auto|]. intros [?|?]; congruence.
  - split; auto.
Qed.

Lemma nonEmpty_false (path : string) : nonEmpty path = false <-> path = ""%string.
Proof.
  unfold nonEmpty. rewrite negb_false_iff. apply String.eqb_eq.
Qed.

Lemma PagerLock_of_int_range (type : Z) :
  is_Some (PagerLock_of_int type) <-> (0 <= type <= 4)%Z.
Proof.
  split.
  - intros [l Hl]. destruct type as [|p|p]; [lia| |discriminate].
    do 3 (destruct p as [p|p|]; try discriminate; try lia).
  - intros Hr.
    assert (type = 0 \/ type = 1 \/ type = 2 \/ type = 3 \/ type = 4)%Z
      as [->|[->|[->|[->| ->]]]] by lia; simpl; eauto.
Qed.

(** X4.  In a build with assertions the four lock dispatchers stop before
    any callback exactly on these arguments: an empty path; for
    [postWillLockNotification] a lock type other than shared (1), reserved
    (2) or exclusive (4); for [postLockDidChangeNotification] a lock type
    outside 0..4; for [postWillShmLockNotification] flags with both or
    neither of [SQLITE_SHM_SHARED] and [SQLITE_SHM_EXCLUSIVE]; for
    [postShmLockDidChangeNotification] a null identifier. *)
Theorem lock_dispatch_assertions (g : Global) :
  (forall path type,
      postWillLockNotification true path type g = None
      <-> path = ""%string \/ ~ (type = 1 \/ type = 2 \/ type = 4)%Z)
  /\ (forall path type,
         postLockDidChangeNotification true path type g = None
         <-> path = ""%string \/ ~ (0 <= type <= 4)%Z)
  /\ (forall path flags mask,
         postWillShmLockNotification true path flags mask g = None
         <-> path = ""%string \/ shm_shared flags = shm_exclusive flags)
  /\ (forall path identifier sharedMask exclusiveMask,
         postShmLockDidChangeNotification true path identifier sharedMask exclusiveMask g
         = None
         <-> identifier = 0%Z \/ path = ""%string).
Proof.
  split; [|split; [|split]].
  - intros path type. unfold postWillLockNotification. cbv zeta.
    rewrite asserted_None_outer, asserted_None, nonEmpty_false, bool_decide_eq_false.
    apply or_iff_compat_l.
    split; intros Hn Hc; apply Hn.
    + destruct Hc as [->|[->| ->]]; simpl; auto.
    + destruct type as [|p|p]; simpl in Hc;
        [destruct Hc as [?|[?|?]]; discriminate| |destruct Hc as [?|[?|?]]; discriminate].
      do 3 (destruct p as [p|p|]; simpl in Hc;
            try (destruct Hc as [?|[?|?]]; discriminate); auto).
  - intros path type. unfold postLockDidChangeNotification. cbv zeta.
    rewrite asserted_None_outer, asserted_None, nonEmpty_false, bool_decide_eq_false.
    now rewrite PagerLock_of_int_range.
  - intros path flags mask. unfold postWillShmLockNotification. cbv zeta.
    rewrite asserted_None_outer, asserted_None, nonEmpty_false.
    apply or_iff_compat_l. unfold shm_shared, shm_exclusive.
    destruct (negb (Z.land flags SQLITE_SHM_SHARED =? 0)%Z),
      (negb (Z.land flags SQLITE_SHM_EXCLUSIVE =? 0)%Z); simpl; split; congruence.
  - intros path identifier sharedMask exclusiveMask.
    unfold postShmLockDidChangeNotification.
    rewrite asserted_None_outer, asserted_None, nonEmpty_false, negb_false_iff, Z.eqb_eq.
    tauto.
Qed.

Lemma register_last_wins (r : Registration) (g : Global) (name : string) :
  m_logNotifications (register g r) !! name
  = match lastLog name [r] with
    | Some n => stored n
    | None => m_logNotifications g !! name
    end
  /\ m_fileOpenedNotifications (register g r) !! name
     = match lastFileOpened name [r] with
       | Some n => stored n
       | None => m_fileOpenedNotifications g !! name
       end
  /\ m_lockEventNotifications (register g r) !! name
     = match lastLockEvent name [r] with
       | Some ev => Some ev
       | None => m_lockEventNotifications g !! name
       end.
Proof.
  destruct r as [name' n|name' n|name' w l ws sl]; simpl.
  - unfold setNotificationForLog.
    destruct (decide (name' = name)) as [->|Hne].
    + destruct n as [cb|]; simpl;
        [rewrite lookup_insert_eq | rewrite lookup_delete_eq]; auto.
    + case_bool_decide; simpl;
        [rewrite lookup_insert_ne by done | rewrite lookup_delete_ne by done]; auto.
  - unfold setNotificationWhenFileOpened.
    destruct (decide (name' = name)) as [->|Hne].
    + destruct n as [cb|]; simpl;
        [rewrite lookup_insert_eq | rewrite lookup_delete_eq]; auto.
    + case_bool_decide; simpl;
        [rewrite lookup_insert_ne by done | rewrite lookup_delete_ne by done]; auto.
  - destruct (decide (name' = name)) as [->|Hne].
    + rewrite lookup_insert_eq. auto.
    + rewrite lookup_insert_ne by done. auto.
Qed.

(** X5.  After any sequence of registrations on any hub, what each of the
    three registries holds under a name is decided by the last registration
    of that kind made for that name: for the log and the file-opened
    registry its callable, or nothing when it was the empty notification;
    for the lock registry its four callbacks, empty or not.  Without such a
    registration the entry is the one the hub had; registrations of another
    kind or for another name do not matter. *)
Theorem registerAll_last_wins (rs : list Registration) (g : Global) (name : string) :
  m_logNotifications (registerAll rs g) !! name
  = match lastLog name rs with
    | Some n => stored n
    | None => m_logNotifications g !! name
    end
  /\ m_fileOpenedNotifications (registerAll rs g) !! name
     = match lastFileOpened name rs with
       | Some n => stored n
       | None => m_fileOpenedNotifications g !! name
       end
  /\ m_lockEventNotifications (registerAll rs g) !! name
     = match lastLockEvent name rs with
       | Some ev => Some ev
       | None => m_lockEventNotifications g !! name
       end.
Proof.
  revert g. induction rs as [|r rs IH]; intros g; [auto|].
  destruct (IH (register g r)) as (Hl & Hf & Hk).
  destruct (register_last_wins r g name) as (Hl1 & Hf1 & Hk1).
  change (registerAll (r :: rs) g) with (registerAll rs (register g r)).
  rewrite Hl, Hf, Hk, Hl1, Hf1, Hk1. cbn [lastLog lastFileOpened lastLockEvent].
  split; [|split].
  - destruct (lastLog name rs); reflexivity.
  - destruct (lastFileOpened name rs); reflexivity.
  - destruct (lastLockEvent name rs); reflexivity.
Qed.

(** ** The stepper: the attached schema *)

Lemma journalled_executed (P : Event -> Prop) (st : Statement) (h : MigrateHandle) :
  (forall ok, P (EvExecute st ok)) -> journalled P h (executed st h).
Proof.
  intros Hp. exists [EvExecute st (succeeds (handle h))].
  split; [|repeat constructor; apply Hp].
  unfold executed, Handle_execute. simpl.
  destruct (succeeds (handle h)); [rewrite run_journal|]; reflexivity.
Qed.

Lemma journalled_fields (P : Event -> Prop) (h x : MigrateHandle) :
  handle x = handle h -> journalled P h x.
Proof. intros E. exists []. rewrite E, app_nil_r. auto. Qed.

(** What a call of [reAttach] that returns has done to [m_attached] and to
    the journal. *)
Lemma reAttach_returns (assertions : bool) (p : string) (s : Schema)
    (h : MigrateHandle) (ok : bool) (h' : MigrateHandle) :
  reAttach assertions p s h = Returns ok h' ->
  (ok = true <-> m_attached h' = s)
  /\ (ok = false ->
      m_attached h' = if isMain (m_attached h) || succeeds (handle h)
                      then Schema_main else m_attached h)
  /\ journalled isSchemaEvent h h'.
Proof.
  assert (forall x, journalled isSchemaEvent h x -> journalled isSchemaEvent h (cleared x))
    as Hc.
  { intros x Hx. eapply journalled_trans; [exact Hx|]. now apply journalled_fields. }
  assert (forall a x, journalled isSchemaEvent h x
                      -> journalled isSchemaEvent h (withAttached a x)) as Ha.
  { intros a x Hx. eapply journalled_trans; [exact Hx|]. now apply journalled_fields. }
  assert (forall st x,
             (forall ok, isSchemaEvent (EvExecute st ok)) ->
             journalled isSchemaEvent h x -> journalled isSchemaEvent h (executed st x))
    as He.
  { intros st x Hst Hx. eapply journalled_trans; [exact Hx|].
    now apply journalled_executed. }
  pose proof (journalled_refl isSchemaEvent h) as H0.
  rewrite reAttach_eq. cbv zeta.
  destruct (assertions && violated h); [discriminate|].
  unfold isTargetingSameSchema.
  destruct (bool_decide (m_attached h = s)) eqn:Es.
  { apply bool_decide_eq_true in Es. intros [= <- <-]. rewrite attached_cleared.
    split; [tauto|]. split; [discriminate|auto]. }
  apply bool_decide_eq_false in Es.
  destruct (m_attached h) as [|a] eqn:Ea; cbn [isMain negb andb orb].
  - destruct s as [|b]; [congruence|]. cbn [isMain].
    destruct (succeeds (handle h)) eqn:Eok; intros [= <- <-];
      rewrite attached_cleared; simpl; rewrite ?Ea.
    + split; [tauto|]. split; [discriminate|].
      apply Hc, Ha, He; [intros; exact I|exact H0].
    + split; [split; [discriminate|congruence]|]. split; [auto|].
      apply Hc, He; [intros; exact I|exact H0].
  - destruct (succeeds (handle h)) eqn:Eok; cbn [negb].
    2:{ intros [= <- <-]. rewrite attached_cleared. simpl. rewrite Ea.
        split; [split; [discriminate|congruence]|]. split; [auto|].
        apply Hc, He; [intros; exact I|exact H0]. }
    destruct s as [|b]; cbn [isMain].
    + intros [= <- <-]. rewrite attached_cleared. simpl.
      split; [tauto|]. split; [discriminate|].
      apply Hc, Ha, He; [intros; exact I|exact H0].
    + match goal with |- context [succeeds ?e] => destruct (succeeds e) eqn:Eok2 end;
        intros [= <- <-]; rewrite attached_cleared; simpl.
      * split; [tauto|]. split; [discriminate|].
        apply Hc, Ha, He; [intros; exact I|].
        apply Ha, He; [intros; exact I|exact H0].
      * split; [split; [discriminate|congruence]|]. split; [auto|].
        apply Hc, He; [intros; exact I|].
        apply Ha, He; [intros; exact I|exact H0].
Qed.

Lemma prelude_frame_same_database (h h' : MigrateHandle) :
  prelude_frame h h' -> same_database h h'.
Proof.
  intros (_ & _ & (Hf & _ & _ & _ & Hm) & Hr & _). split; [exact Hf|]. split; assumption.
Qed.

(** X6.  The result of [reAttach] tells whether the requested schema is the
    attached one afterwards: it returns true exactly when [m_attached] is
    the schema asked for.  When it returns false, [m_attached] is the
    schema attached before if the detach failed, and main if the attach
    failed.  All it asks of the engine is to attach and to detach; rows,
    tables and the sampler are as they were; a call that stops at the
    assertion of a debug build has changed nothing. *)
Theorem reAttach_result_tells_attached (assertions : bool) (p : string) (s : Schema)
    (h : MigrateHandle) :
  match reAttach assertions p s h with
  | Returns ok h' =>
      (ok = true <-> m_attached h' = s)
      /\ (ok = false ->
          m_attached h' = if isMain (m_attached h) || succeeds (handle h)
                          then Schema_main else m_attached h)
      /\ journalled isSchemaEvent h h'
      /\ same_database h h' /\ same_sampler h h'
  | Aborts h' => h' = h /\ assertions = true
  | OutOfFuel _ => False
  end.
Proof.
  pose proof (reAttach_returns assertions p s h) as Hr.
  pose proof (reAttach_frame assertions p s h) as Hf.
  pose proof (reAttach_Aborts assertions p s h) as Ha.
  pose proof (reAttach_outcome assertions p s h) as Ho.
  destruct (reAttach assertions p s h) as [ok h'|h'|h']; cbn [final] in Hf.
  - destruct (Hr ok h' eq_refl) as (H1 & H2 & H3).
    split; [exact H1|]. split; [exact H2|]. split; [exact H3|].
    split; [apply prelude_frame_same_database, Hf|apply Hf].
  - apply Ha. reflexivity.
  - exact Ho.
Qed.

(** ** The stepper: [dropSourceTable] and [sourceTableExists] *)

Lemma not_schema_event_performed (h h1 : MigrateHandle) (ev : Event)
    (evs : list Event) :
  journalled isSchemaEvent h h1 ->
  ~ isSchemaEvent ev ->
  forall h', journal (handle h') = journal (handle h1) ++ evs ->
             ev ∈ performedBy h h' -> ev ∈ evs.
Proof.
  intros (pre & Ej & Hpre) Hev h' Ej' Hin.
  rewrite (performedBy_app h h' (pre ++ evs)) in Hin
    by (rewrite Ej', Ej, app_assoc; reflexivity).
  apply elem_of_app in Hin as [Hin|Hin]; [|exact Hin].
  exfalso. apply Hev. rewrite Forall_forall in Hpre. auto.
Qed.

(** X7.  [dropSourceTable] executes the drop statement at most once, and only
    after its [reAttach] has returned true, so with the schema of the
    info's source database attached; the result of the call is the result of
    that statement.  A call that returns false has left every row where it
    was; a call that returns true has emptied the source table of [info] and
    no other table. *)
Theorem dropSourceTable_drops_attached (assertions : bool) (info : MigrationInfo)
    (h : MigrateHandle) :
  match dropSourceTable assertions info h with
  | Returns ok h' =>
      (forall ok', EvExecute (StatementForDroppingSourceTable info) ok' ∈ performedBy h h' ->
                   ok' = ok /\ m_attached h' = getSchemaForSourceDatabase info)
      /\ (ok = true ->
          EvExecute (StatementForDroppingSourceTable info) true ∈ performedBy h h'
          /\ source (handle h') info = [])
      /\ (ok = false -> same_rows (handle h) (handle h'))
      /\ destination (handle h') = destination (handle h)
      /\ (forall i, i <> info -> source (handle h') i = source (handle h) i)
  | Aborts h' => h' = h /\ assertions = true
  | OutOfFuel _ => False
  end.
Proof.
  pose proof (reAttach_returns assertions (getSourceDatabase info)
                (getSchemaForSourceDatabase info) h) as Hr.
  pose proof (reAttach_frame assertions (getSourceDatabase info)
                (getSchemaForSourceDatabase info) h) as Hf.
  pose proof (reAttach_Aborts assertions (getSourceDatabase info)
                (getSchemaForSourceDatabase info) h) as Ha.
  pose proof (reAttach_outcome assertions (getSourceDatabase info)
                (getSchemaForSourceDatabase info) h) as Ho.
  unfold dropSourceTable. rewrite bind_eval.
  destruct (reAttach assertions _ _ h) as [reattached h1|h1|h1]; cbn [final] in Hf.
  2:{ apply Ha. reflexivity. }
  2:{ exact Ho. }
  destruct (Hr reattached h1 eq_refl) as (Hat & _ & Hj).
  destruct Hf as (_ & _ & _ & (Hsrc & Hdst) & _).
  destruct reattached.
  - rewrite (bind_step _ _ h1 tt (withMigratingInfo (Some info) h1)) by reflexivity.
    unfold execute, engine, Handle_execute. cbn [handle withMigratingInfo].
    set (st := StatementForDroppingSourceTable info).
    set (ok := succeeds (handle h1)).
    set (e' := performed (EvExecute st ok) (if ok then run st (handle h1) else handle h1)).
    assert (journal e' = journal (handle h1) ++ [EvExecute st ok]) as Ej.
    { unfold e'. destruct ok; reflexivity. }
    assert (m_attached h1 = getSchemaForSourceDatabase info) as Eat by tauto.
    split; [|split; [|split; [|split]]].
    + intros ok' Hin.
      eapply (not_schema_event_performed h h1) in Hin;
        [|exact Hj|simpl; tauto|exact Ej].
      apply list_elem_of_singleton in Hin. injection Hin as ->. auto.
    + intros Eok. split.
      * destruct Hj as (pre & Ejp & _).
        rewrite (performedBy_app h _ (pre ++ [EvExecute st ok]))
          by (cbn [handle withHandle]; rewrite Ej, Ejp, app_assoc; reflexivity).
        rewrite Eok. apply elem_of_app. right. apply list_elem_of_here.
      * unfold e'. rewrite Eok. simpl. unfold setRows.
        destruct (decide (info = info)); [reflexivity|congruence].
    + intros Eok. unfold e'. rewrite Eok. split; simpl; assumption.
    + unfold e'. destruct ok; simpl; exact Hdst.
    + intros i Hi. unfold e'. destruct ok; simpl; [|now rewrite Hsrc].
      unfold setRows. destruct (decide (i = info)); [contradiction|now rewrite Hsrc].
  - cbn [negb mret M_ret].
    split; [|split; [|split; [|split]]].
    + intros ok' Hin.
      eapply (not_schema_event_performed h h1 _ []) in Hin;
        [|exact Hj|simpl; tauto|rewrite app_nil_r; reflexivity].
      inversion Hin.
    + discriminate.
    + intros _. split; assumption.
    + exact Hdst.
    + intros i _. now rewrite Hsrc.
Qed.

(** X8.  [sourceTableExists] asks the engine for the source table only
    after its [reAttach] has returned true, so with the schema of the source
    database attached; when the [reAttach] fails it returns (false, false)
    in the state the [reAttach] left.  It reports the table as existing only
    together with success, and then the table is one of the attached
    database.  Like [reAttach] it leaves [m_migratingInfo] null and both
    statements finalised, and rows and sampler as they were. *)
Theorem sourceTableExists_asks_attached (assertions : bool)
    (attachedTables : Schema -> list string) (userInfo : MigrationUserInfo.t)
    (h : MigrateHandle) :
  let schema := MigrationUserInfo.getSchemaForSourceDatabase userInfo in
  let table := MigrationUserInfo.getSourceTable userInfo in
  match sourceTableExists assertions attachedTables userInfo h with
  | Returns (succeed, exists_) h' =>
      (forall ok, EvTableExists table ok ∈ performedBy h h' ->
                  ok = succeed /\ m_attached h' = schema)
      /\ (reAttach assertions (MigrationUserInfo.getSourceDatabase userInfo) schema h
          = Returns false h' -> succeed = false /\ exists_ = false)
      /\ (exists_ = true ->
          succeed = true
          /\ table ∈ (if isMain schema then mainTables (handle h)
                      else attachedTables schema))
      /\ (succeed = true ->
          m_attached h' = schema
          /\ exists_ = bool_decide (table ∈ (if isMain schema then mainTables (handle h)
                                             else attachedTables schema)))
      /\ m_migratingInfo h' = None
      /\ m_migrateStatement h' = None /\ m_removeMigratedStatement h' = None
      /\ same_rows (handle h) (handle h') /\ same_sampler h h'
  | Aborts h' => h' = h /\ assertions = true
  | OutOfFuel _ => False
  end.
Proof.
  intros schema table.
  pose proof (reAttach_returns assertions (MigrationUserInfo.getSourceDatabase userInfo)
                schema h) as Hr.
  pose proof (reAttach_frame assertions (MigrationUserInfo.getSourceDatabase userInfo)
                schema h) as Hf.
  pose proof (reAttach_Aborts assertions (MigrationUserInfo.getSourceDatabase userInfo)
                schema h) as Ha.
  pose proof (reAttach_outcome assertions (MigrationUserInfo.getSourceDatabase userInfo)
                schema h) as Ho.
  unfold sourceTableExists. fold schema table. cbv zeta. rewrite bind_eval.
  destruct (reAttach assertions _ schema h) as [reattached h1|h1|h1]; cbn [final] in Hf.
  2:{ apply Ha. reflexivity. }
  2:{ exact Ho. }
  destruct (Hr reattached h1 eq_refl) as (Hat & _ & Hj).
  destruct Ho as (Hi & Hm & Hd).
  destruct Hf as (_ & Hs & (_ & _ & _ & _ & Emt) & (Hsrc & Hdst) & _).
  destruct reattached; cbn [negb mret M_ret].
  - unfold engine, Handle_tableExistsIn. cbn [handle].
    set (ok := succeeds (handle h1)).
    assert (m_attached h1 = schema) as Eat by tauto.
    rewrite Emt.
    split; [|split; [|split; [|split]]].
    + intros ok' Hin.
      eapply (not_schema_event_performed h h1 _ [EvTableExists table ok]) in Hin;
        [|exact Hj|simpl; tauto|reflexivity].
      apply list_elem_of_singleton in Hin. injection Hin as ->. auto.
    + discriminate.
    + intros Ex. apply andb_true_iff in Ex as [Eok Ex].
      apply bool_decide_eq_true in Ex. auto.
    + intros Eok. rewrite Eok. auto.
    + simpl. unfold same_rows, same_sampler in *. simpl. tauto.
  - split; [|split; [|split; [|split]]]; auto.
    + intros ok' Hin.
      eapply (not_schema_event_performed h h1 _ []) in Hin;
        [|exact Hj|simpl; tauto|rewrite app_nil_r; reflexivity].
      inversion Hin.
    + discriminate.
    + discriminate.
    + unfold same_rows. tauto.
Qed.

(** ** The stepper: [migrateRows] without a destination table *)

Lemma migrateRows_tableExists_only (assertions : bool) (numberOfSamples : nat)
    (MAX B0 : float) (info : MigrationInfo) (h : MigrateHandle) :
  succeeds (handle h) && bool_decide (getTable info ∈ mainTables (handle h)) = false ->
  migrateRows assertions numberOfSamples MAX B0 info h
  = Returns (succeeds (handle h), succeeds (handle h))
      (withHandle (performed (EvTableExists (getTable info) (succeeds (handle h)))
                     (handle h)) h).
Proof.
  intros Hc. unfold migrateRows.
  rewrite (bind_step _ _ h
             (succeeds (handle h),
              succeeds (handle h) && bool_decide (getTable info ∈ mainTables (handle h)))
             (withHandle (performed (EvTableExists (getTable info) (succeeds (handle h)))
                            (handle h)) h)) by reflexivity.
  rewrite Hc. destruct (succeeds (handle h)); reflexivity.
Qed.

(** X9.  When the destination table of [info] is not in the main schema,
    [migrateRows] reports the migration as done, and when the engine fails
    to tell it reports failure with [done] false; in both cases the one
    thing it has asked of the engine is whether the table exists: nothing is
    attached, detached or prepared, no transaction is opened, no row moves,
    no sample is taken, and [m_migratingInfo] is as it was. *)
Theorem migrateRows_without_destination (assertions : bool) (numberOfSamples : nat)
    (MAX B0 : float) (info : MigrationInfo) (h : MigrateHandle) :
  succeeds (handle h) && bool_decide (getTable info ∈ mainTables (handle h)) = false ->
  migrateRows assertions numberOfSamples MAX B0 info h
  = Returns (succeeds (handle h), succeeds (handle h))
      (withHandle (performed (EvTableExists (getTable info) (succeeds (handle h)))
                     (handle h)) h).
Proof. exact (migrateRows_tableExists_only assertions numberOfSamples MAX B0 info h). Qed.

Lemma migrateRows_without_destination_witness :
  let info := mkInfo "U" "/old.db" (Schema_named "/old.db" "old") "U" in
  let h := MigrateHandle_new 3 (Handle_example [1; 2]%Z never clock_advancing) in
  migrateRows true 3 MAX_example B0_example info h
  = Returns (true, true)
      (withHandle (performed (EvTableExists "U" true) (handle h)) h).
Proof.
  intros info h.
  apply (migrateRows_without_destination true 3 MAX_example B0_example info h).
  reflexivity.
Defined.

(** ** The stepper: why [migrateRows] fails, and what it moves *)

Lemma same_database_refl h : same_database h h.
Proof. repeat split. Qed.

Lemma same_database_trans h1 h2 h3 :
  same_database h1 h2 -> same_database h2 h3 -> same_database h1 h3.
Proof.
  intros (A1 & A2 & A3 & A4) (B1 & B2 & B3 & B4).
  repeat split; etransitivity; eassumption.
Qed.

(** A call of [reAttach] that returns false was refused by the engine. *)
Lemma reAttach_failure_cause (assertions : bool) (p : string) (s : Schema)
    (h h' : MigrateHandle) :
  reAttach assertions p s h = Returns false h' ->
  exists e, failing e = failing (handle h) /\ succeeds e = false.
Proof.
  rewrite reAttach_eq. cbv zeta.
  destruct (assertions && violated h); [discriminate|].
  destruct (isTargetingSameSchema (m_attached h) s); [discriminate|].
  destruct (isMain (m_attached h)); cbn [negb andb].
  - destruct (isMain s); [discriminate|].
    destruct (succeeds (handle h)) eqn:E; [discriminate|]. eauto.
  - destruct (succeeds (handle h)) eqn:E; cbn [negb]; [|eauto].
    destruct (isMain s); [discriminate|].
    match goal with |- context [succeeds ?e] => destruct (succeeds e) eqn:E2 end;
      [discriminate|].
    intros _. eexists. split; [|exact E2]. simpl. rewrite E. reflexivity.
Qed.

Section Causes.

Variable assertions : bool.
Variable numberOfSamples : nat.
Variable MAX B0 : float.

(** Preparing what is not prepared, from a state whose prepared statements
    are those of [info]: the transaction part is entered with both
    statements of [info], or the engine refused one. *)
Lemma migrateRows_prepare_causes (info : MigrationInfo) (x : MigrateHandle) :
  prepared_from info x ->
  (exists h1,
      migrateRows_prepare assertions numberOfSamples MAX B0 info x
      = migrateRows_transaction assertions numberOfSamples MAX B0 info h1
      /\ m_migrateStatement h1 = Some (StatementForMigratingOneRow info)
      /\ m_removeMigratedStatement h1 = Some (StatementForDeletingMigratedOneRow info)
      /\ prelude_frame x h1)
  \/ (exists y e,
         migrateRows_prepare assertions numberOfSamples MAX B0 info x
         = Returns (false, false) y
         /\ prelude_frame x y
         /\ failing e = failing (handle x) /\ succeeds e = false).
Proof.
  intros [Hm Hd]. unfold migrateRows_prepare.
  rewrite (bind_step _ _ x (bool_decide (is_Some (m_migrateStatement x))) x) by reflexivity.
  assert (forall sl st y,
             prelude_frame y
               (withSlot sl (Some st)
                  (withHandle (performed (EvPrepare st true) (handle y)) y))) as Hprepared.
  { intros sl st y.
    eapply prelude_frame_trans;
      [eapply (prelude_frame_performed (EvPrepare st true)); exact I|].
    apply prelude_frame_fields; destruct sl; reflexivity. }
  assert (forall st y,
             prelude_frame y (withHandle (performed (EvPrepare st false) (handle y)) y))
    as Hrefused.
  { intros st y. eapply (prelude_frame_performed (EvPrepare st false)). exact I. }
  assert ((exists x1,
              (if bool_decide (is_Some (m_migrateStatement x)) then mret true
               else statement_prepare MigrateStatement (StatementForMigratingOneRow info)) x
              = Returns true x1
              /\ m_migrateStatement x1 = Some (StatementForMigratingOneRow info)
              /\ m_removeMigratedStatement x1 = m_removeMigratedStatement x
              /\ prelude_frame x x1)
          \/ (exists x1,
                 (if bool_decide (is_Some (m_migrateStatement x)) then mret true
                  else statement_prepare MigrateStatement (StatementForMigratingOneRow info))
                   x
                 = Returns false x1
                 /\ prelude_frame x x1
                 /\ succeeds (handle x) = false))
    as [(x1 & E1 & Em1 & Ed1 & F1)|(x1 & E1 & F1 & Ef)].
  { case_bool_decide as Hp.
    - left. exists x. destruct Hp as [s Hs]. rewrite Hs, (Hm s Hs).
      split; [reflexivity|]. split; [reflexivity|]. split; [reflexivity|].
      apply prelude_frame_refl.
    - unfold statement_prepare. destruct (succeeds (handle x)) eqn:Es.
      + left. eexists. split; [reflexivity|]. split; [reflexivity|].
        split; [reflexivity|]. apply (Hprepared MigrateStatement).
      + right. eexists. split; [reflexivity|]. split; [apply Hrefused|reflexivity]. }
  2:{ right. rewrite (bind_step _ _ x false x1) by exact E1. cbn [negb].
      exists x1, (handle x). auto. }
  rewrite (bind_step _ _ x true x1) by exact E1. cbn [negb].
  rewrite (bind_step _ _ x1 (bool_decide (is_Some (m_removeMigratedStatement x1))) x1)
    by reflexivity.
  destruct (bool_decide (is_Some (m_removeMigratedStatement x1))) eqn:Hp.
  - apply bool_decide_eq_true in Hp.
    left. exists x1. rewrite (bind_step _ _ x1 true x1) by reflexivity. cbn [negb].
    split; [reflexivity|]. split; [exact Em1|]. split; [|exact F1].
    destruct Hp as [s Hs]. rewrite Hs. rewrite Ed1 in Hs. now rewrite (Hd s Hs).
  - rewrite bind_eval. unfold statement_prepare. destruct (succeeds (handle x1)) eqn:Es.
    + left. eexists. cbn [negb]. split; [reflexivity|]. split; [exact Em1|].
      split; [reflexivity|].
      eapply prelude_frame_trans; [exact F1|]. apply (Hprepared RemoveMigratedStatement).
    + right. cbn [negb mret M_ret]. eexists _, (handle x1).
      split; [reflexivity|]. split; [|split; [apply F1|exact Es]].
      eapply prelude_frame_trans; [exact F1|]. apply Hrefused.
Qed.

(** [migrateRows] on an existing destination table: the transaction part is
    entered with both statements of [info] and the database as it was, or
    the engine refused an attach, a detach or a prepare, or a debug build
    stopped at an assertion of [reAttach]. *)
Lemma migrateRows_prelude_causes (info : MigrationInfo) (h : MigrateHandle) :
  prepared_from_info h ->
  getTable info ∈ mainTables (handle h) ->
  succeeds (handle h) = true ->
  (exists h1,
      migrateRows assertions numberOfSamples MAX B0 info h
      = migrateRows_transaction assertions numberOfSamples MAX B0 info h1
      /\ m_migrateStatement h1 = Some (StatementForMigratingOneRow info)
      /\ m_removeMigratedStatement h1 = Some (StatementForDeletingMigratedOneRow info)
      /\ prelude_frame h h1)
  \/ (exists y e,
         migrateRows assertions numberOfSamples MAX B0 info h = Returns (false, false) y
         /\ prelude_frame h y
         /\ failing e = failing (handle h) /\ succeeds e = false)
  \/ (exists y, migrateRows assertions numberOfSamples MAX B0 info h = Aborts y
                /\ prelude_frame h y /\ assertions = true).
Proof.
  intros Hw Ht Hs. unfold migrateRows.
  fold (migrateRows_prepare assertions numberOfSamples MAX B0 info).
  set (h0 := withHandle (performed (EvTableExists (getTable info) true) (handle h)) h).
  rewrite (bind_step _ _ h (true, true) h0).
  2:{ unfold tableExists, engine, Handle_tableExists. cbn [handle].
      rewrite Hs, bool_decide_eq_true_2 by exact Ht. reflexivity. }
  cbn [negb].
  rewrite (bind_step _ _ h0 (m_migratingInfo h) h0) by reflexivity.
  assert (prelude_frame h h0) as F0
    by (eapply (prelude_frame_performed (EvTableExists _ _)); exact I).
  assert (forall x, prelude_frame h x -> prepared_from info x ->
                    (exists h1,
                        migrateRows_prepare assertions numberOfSamples MAX B0 info x
                        = migrateRows_transaction assertions numberOfSamples MAX B0 info h1
                        /\ m_migrateStatement h1 = Some (StatementForMigratingOneRow info)
                        /\ m_removeMigratedStatement h1
                           = Some (StatementForDeletingMigratedOneRow info)
                        /\ prelude_frame h h1)
                    \/ (exists y e,
                           migrateRows_prepare assertions numberOfSamples MAX B0 info x
                           = Returns (false, false) y
                           /\ prelude_frame h y
                           /\ failing e = failing (handle h) /\ succeeds e = false)
                    \/ (exists y,
                           migrateRows_prepare assertions numberOfSamples MAX B0 info x
                           = Aborts y /\ prelude_frame h y /\ assertions = true)) as Hprep.
  { intros x Fx Hx.
    destruct (migrateRows_prepare_causes info x Hx)
      as [(h1 & E & Em & Ed & F1)|(y & e & E & Fy & Ef & Es)].
    - left. exists h1. split; [exact E|]. split; [exact Em|]. split; [exact Ed|].
      eapply prelude_frame_trans; eauto.
    - right. left. exists y, e. split; [exact E|].
      split; [eapply prelude_frame_trans; eauto|]. split; [|exact Es].
      rewrite Ef. apply Fx. }
  case_bool_decide as Ei.
  - rewrite bind_eval. rewrite bind_eval.
    pose proof (reAttach_frame assertions (getSourceDatabase info)
                  (getSchemaForSourceDatabase info) h0) as Fr.
    pose proof (reAttach_outcome assertions (getSourceDatabase info)
                  (getSchemaForSourceDatabase info) h0) as Hc.
    pose proof (reAttach_failure_cause assertions (getSourceDatabase info)
                  (getSchemaForSourceDatabase info) h0) as Hfail.
    destruct (reAttach assertions (getSourceDatabase info)
                (getSchemaForSourceDatabase info) h0) as [ok x|x|x]; cbn [final] in Fr.
    + destruct Hc as (Hi & Hm & Hd). destruct ok.
      * rewrite (bind_step _ _ x tt (withMigratingInfo (Some info) x)) by reflexivity.
        cbn [negb mret M_ret]. apply Hprep.
        -- eapply prelude_frame_trans; [exact F0|].
           eapply prelude_frame_trans; [exact Fr|].
           apply prelude_frame_fields; reflexivity.
        -- split; intros s Hsl; simpl in Hsl; congruence.
      * right. left. destruct (Hfail x eq_refl) as (e & Ef & Es).
        exists x, e. cbn [negb mret M_ret]. split; [reflexivity|].
        split; [|split; [|exact Es]].
        -- eapply prelude_frame_trans; [exact F0|exact Fr].
        -- rewrite Ef. reflexivity.
    + right. right. exists x. split; [reflexivity|]. split; [|apply Hc].
      eapply prelude_frame_trans; [exact F0|exact Fr].
    + contradiction.
  - rewrite (bind_step _ _ h0 true h0) by reflexivity.
    cbn [negb]. apply Hprep; [exact F0|].
    destruct Hw as [Hwm Hwd]. split; intros s Hsl.
    + destruct (Hwm s Hsl) as (i & Hi & ->). simpl in Hi. congruence.
    + destruct (Hwd s Hsl) as (i & Hi & ->). simpl in Hi. congruence.
Qed.

End Causes.

(** ** The row loop, by induction on its iterations *)

Section LoopInduction.

Variable assertions : bool.

Lemma migrateLoop_unfold (fuel : nat) (budget : float) (h : MigrateHandle) :
  migrateLoop assertions (S fuel) budget h
  = match migrateRow assertions h with
    | Returns (succeed, migrated) x =>
        let cost := elapsed (handle x) (reads (handle x)) in
        let x' := withHandle (withRead (handle x)) x in
        if succeed && negb migrated && (cost <? budget)%float
        then migrateLoop assertions fuel budget x'
        else Returns (succeed, (migrated, cost)) x'
    | Aborts x => Aborts x
    | OutOfFuel x => OutOfFuel x
    end.
Proof.
  cbn [migrateLoop]. rewrite bind_eval.
  destruct (migrateRow assertions h) as [[succeed migrated] x|x|x]; try reflexivity.
  unfold timeIntervalSinceSteadyClockToNow.
  rewrite (bind_step _ _ x (elapsed (handle x) (reads (handle x)))
             (withHandle (withRead (handle x)) x)) by reflexivity.
  cbv zeta.
  destruct (succeed && negb migrated
            && (elapsed (handle x) (reads (handle x)) <? budget)%float); reflexivity.
Qed.

(** One row: the statements stepped, and the engine refused when the row
    failed. *)
Lemma migrateRow_returns (h : MigrateHandle) (sm sd : Statement) :
  m_migrateStatement h = Some sm ->
  m_removeMigratedStatement h = Some sd ->
  isInTransaction (handle h) = true ->
  exists succeed migrated x,
    migrateRow assertions h = Returns (succeed, migrated) x
    /\ (x = stepped sm h \/ x = stepped sd (stepped sm h))
    /\ (succeed = false ->
        exists e, failing e = failing (handle h) /\ succeeds e = false).
Proof.
  intros Em Ed Et. rewrite (migrateRow_eq assertions h sm sd Em Ed Et). cbv zeta.
  destruct (succeeds (handle h)) eqn:Es.
  - destruct (negb (getChanges (handle (stepped sm h)) =? 0)%Z).
    + eexists _, _, _. split; [reflexivity|]. split; [auto|].
      intros Ef. exists (handle (stepped sm h)). split; [|exact Ef].
      apply (stepped_frame sm h).
    + eexists _, _, _. split; [reflexivity|]. split; [auto|discriminate].
  - eexists _, _, _. split; [reflexivity|]. split; [auto|].
    intros _. exists (handle h). auto.
Qed.

Lemma withRead_loop_frame (x : MigrateHandle) :
  loop_frame x (withHandle (withRead (handle x)) x).
Proof.
  unfold loop_frame, same_sampler, same_statements, same_engine. simpl.
  split; [exists []; rewrite app_nil_r; auto|]. repeat split; auto.
Qed.

(** A property of the loop is shown for a loop that is cut off, for an
    iteration that ends the loop, and for an iteration that is followed by
    the rest of the loop. *)
Lemma migrateLoop_induction (budget : float)
    (P : MigrateHandle -> outcome (bool * (bool * float)) -> Prop) :
  (forall h, P h (OutOfFuel h)) ->
  (forall h sm sd succeed migrated x,
      m_migrateStatement h = Some sm ->
      m_removeMigratedStatement h = Some sd ->
      isInTransaction (handle h) = true ->
      migrateRow assertions h = Returns (succeed, migrated) x ->
      x = stepped sm h \/ x = stepped sd (stepped sm h) ->
      let cost := elapsed (handle x) (reads (handle x)) in
      let x' := withHandle (withRead (handle x)) x in
      if succeed && negb migrated && (cost <? budget)%float
      then forall out, P x' out -> P h out
      else P h (Returns (succeed, (migrated, cost)) x')) ->
  forall fuel h, stepping h -> P h (migrateLoop assertions fuel budget h).
Proof.
  intros Hcut Hstep. induction fuel as [|fuel IH]; intros h Hs; [apply Hcut|].
  destruct Hs as ([sm Em] & [sd Ed] & Et).
  rewrite migrateLoop_unfold.
  destruct (migrateRow_returns h sm sd Em Ed Et) as (succeed & migrated & x & Er & Hx & _).
  rewrite Er. cbv zeta.
  pose proof (Hstep h sm sd succeed migrated x Em Ed Et Er Hx) as Hp. cbv zeta in Hp.
  destruct (succeed && negb migrated
            && (elapsed (handle x) (reads (handle x)) <? budget)%float); [|exact Hp].
  apply Hp, IH.
  assert (stepping h) as Hs by (repeat split; eauto).
  eapply stepping_frame; [apply withRead_loop_frame|].
  destruct Hx as [-> | ->].
  - eapply stepping_frame; [apply stepped_frame|exact Hs].
  - eapply stepping_frame; [apply stepped_frame|].
    eapply stepping_frame; [apply stepped_frame|exact Hs].
Qed.

(** A loop that fails was refused by the engine. *)
Lemma migrateLoop_failure_cause (fuel : nat) (budget : float) (h : MigrateHandle) :
  stepping h ->
  match migrateLoop assertions fuel budget h with
  | Returns (false, _) _ => exists e, failing e = failing (handle h) /\ succeeds e = false
  | _ => True
  end.
Proof.
  revert fuel h.
  apply (migrateLoop_induction budget
           (fun h out =>
              match out with
              | Returns (false, _) _ =>
                  exists e, failing e = failing (handle h) /\ succeeds e = false
              | _ => True
              end)).
  - intros h. exact I.
  - intros h sm sd succeed migrated x Em Ed Et Er Hx cost x'.
    destruct (migrateRow_returns h sm sd Em Ed Et) as (s' & m' & y & Er' & _ & Hc).
    rewrite Er in Er'. injection Er' as <- <- <-.
    assert (failing (handle x') = failing (handle h)) as Ef.
    { destruct Hx as [-> | ->]; unfold x'; cbn [handle withHandle withRead failing].
      - apply (stepped_frame sm h).
      - etransitivity; [apply (stepped_frame sd (stepped sm h))|].
        apply (stepped_frame sm h). }
    destruct (succeed && negb migrated && (cost <? budget)%float).
    + intros [[[] ?] ?| |]; auto. rewrite Ef. auto.
    + destruct succeed; [exact I|]. auto.
Qed.

End LoopInduction.

Section Outcomes.

Variable assertions : bool.
Variable numberOfSamples : nat.
Variable MAX B0 : float.

(** The transaction part of [migrateRows], entered with both statements of
    [info]: the rows [moved] have left the source for the destination when
    it succeeds; when it fails every row is where it was and the engine
    refused a primitive. *)
Lemma migrateRows_transaction_outcome (info : MigrationInfo) (h1 : MigrateHandle) :
  m_migrateStatement h1 = Some (StatementForMigratingOneRow info) ->
  m_removeMigratedStatement h1 = Some (StatementForDeletingMigratedOneRow info) ->
  exists moved,
    match migrateRows_transaction assertions numberOfSamples MAX B0 info h1 with
    | Returns (ok, done) h' =>
        failing (handle h') = failing (handle h1)
        /\ mainTables (handle h') = mainTables (handle h1)
        /\ same_statements h1 h'
        /\ (ok = true ->
            source (handle h1) info = moved ++ source (handle h') info
            /\ destination (handle h') info = rev moved ++ destination (handle h1) info
            /\ (done = false -> moved <> [])
            /\ (done = true -> source (handle h') info = []))
        /\ (ok = false ->
            done = false /\ same_rows (handle h1) (handle h')
            /\ exists e, failing e = failing (handle h1) /\ succeeds e = false)
    | Aborts h' =>
        assertions = true
        /\ source (handle h1) info = moved ++ source (handle h') info
        /\ destination (handle h') info = rev moved ++ destination (handle h1) info
    | OutOfFuel _ => False
    end.
Proof.
  intros Em Ed. unfold migrateRows_transaction.
  rewrite (bind_step _ _ h1 (budget_of MAX B0 h1) h1) by reflexivity.
  rewrite (bind_step _ _ h1 (fuel_of info h1) h1) by reflexivity.
  rewrite bind_eval. unfold runTransaction.
  destruct (succeeds (handle h1)) eqn:Eb.
  2:{ exists []. cbv beta iota. cbn [mret M_ret].
      unfold same_statements, same_rows. simpl.
      repeat split; try discriminate. exists (handle h1). auto. }
  fold (begun h1).
  assert (stepping (begun h1)) as Hs by (repeat split; simpl; eauto).
  destruct (migrateLoop_frame assertions (fuel_of info h1) (budget_of MAX B0 h1)
              (begun h1) Hs) as [Fl _].
  pose proof (migrateLoop_failure_cause assertions (fuel_of info h1) (budget_of MAX B0 h1)
                (begun h1) Hs) as Hc.
  destruct (migrateLoop_rows assertions info (fuel_of info h1) (budget_of MAX B0 h1)
              (begun h1)) as (succeed & migrated & cost & hl & El & moved & Hsrc & Hrest).
  { exact Em. } { exact Ed. } { reflexivity. } { unfold fuel_of. simpl. lia. }
  rewrite El in Fl, Hc |- *. cbn [final] in Fl.
  destruct Fl as (_ & (Fs1 & Fs2) & (Ft1 & Ft2 & Ft3 & Ft4)
                  & (Fe1 & Fe2 & Fe3 & Fe4 & Fe5) & Fr).
  exists moved. simpl in Hsrc, Hrest, Fe1, Fe5.
  destruct succeed.
  2:{ cbn [mret M_ret]. unfold same_statements, same_rows, rolledBack. simpl.
      repeat split; auto; discriminate. }
  destruct (Hrest eq_refl) as (Hdst & Hne & Hempty).
  destruct (succeeds (handle hl)) eqn:Ecm.
  2:{ cbn [mret M_ret]. unfold same_statements, same_rows, rolledBack. simpl.
      repeat split; auto; try discriminate. exists (handle hl). auto. }
  set (hc := withHandle (withTransaction false (performed (EvCommit true) (handle hl))) hl).
  unfold timeIntervalSinceSteadyClockToNow.
  rewrite (bind_step _ _ hc (elapsed (handle hc) (reads (handle hc)))
             (withHandle (withRead (handle hc)) hc)) by reflexivity.
  rewrite bind_eval, addSample_eq.
  match goal with |- context [if ?c then _ else _] => destruct c eqn:Ea end.
  - apply andb_true_iff in Ea as [Ea _]. simpl. auto.
  - cbn [mret M_ret]. unfold same_statements. simpl.
    repeat split; auto; discriminate.
Qed.

End Outcomes.

Section WholeCall.

Variable assertions : bool.
Variable numberOfSamples : nat.
Variable MAX B0 : float.

(** A call of [migrateRows] for an existing destination table, made with
    invariant S1. *)
Lemma migrateRows_outcome (info : MigrationInfo) (h : MigrateHandle) :
  prepared_from_info h ->
  getTable info ∈ mainTables (handle h) ->
  exists moved,
    moved_or_kept assertions info h moved
      (migrateRows assertions numberOfSamples MAX B0 info h).
Proof.
  assert (forall e, failing e = failing (handle h) -> succeeds e = false -> refusing h)
    as Hrefuse.
  { intros e Ef Es. exists (calls e). rewrite <- Ef.
    unfold succeeds in Es. now apply negb_false_iff in Es. }
  intros Hw Ht. destruct (succeeds (handle h)) eqn:Es.
  2:{ rewrite migrateRows_tableExists_only by (rewrite Es; reflexivity).
      rewrite Es. exists []. unfold moved_or_kept, same_rows. simpl.
      repeat split; try discriminate. eapply Hrefuse; eauto. }
  destruct (migrateRows_prelude_causes assertions numberOfSamples MAX B0 info h Hw Ht Es)
    as [(h1 & E & Em & Ed & F)|[(y & e & E & F & Ef & Ee)|(y & E & F & Ea)]]; rewrite E;
    apply prelude_frame_same_database in F.
  - destruct F as (Ff & Fm & Fs & Fd).
    destruct (migrateRows_transaction_outcome assertions numberOfSamples MAX B0 info h1
                Em Ed) as [moved Hout].
    destruct (migrateRows_transaction assertions numberOfSamples MAX B0 info h1)
      as [[ok done] h'|h'|h']; unfold moved_or_kept, rows_moved.
    + destruct Hout as (Hf & Hm & _ & Hok & Hfail).
      unfold same_rows in Hfail. rewrite Fs, Fd in Hok. rewrite Fs, Fd, Ff in Hfail.
      rewrite Ff in Hf. rewrite Fm in Hm.
      destruct ok.
      * exists moved. split; [exact Hf|]. split; [exact Hm|].
        split; [|discriminate]. intros _. destruct (Hok eq_refl) as (A & B & C & D). auto.
      * exists []. split; [exact Hf|]. split; [exact Hm|]. split; [discriminate|].
        intros _. destruct (Hfail eq_refl) as (A & B & e & Ef & Ee).
        split; [exact A|]. split; [reflexivity|]. split; [exact B|]. eauto.
    + exists moved. rewrite <- Fs, <- Fd. exact Hout.
    + contradiction.
  - destruct F as (Ff & Fm & Fs & Fd). exists [].
    split; [exact Ff|]. split; [exact Fm|]. split; [discriminate|].
    intros _. split; [reflexivity|]. split; [reflexivity|].
    split; [split; assumption|]. eauto.
  - destruct F as (Ff & Fm & Fs & Fd). exists [].
    split; [exact Ea|]. unfold rows_moved. rewrite Fs, Fd. auto.
Qed.

End WholeCall.

(** X10.  A call of [migrateRows] for an existing destination table, made
    with invariant S1, loses no row and doubles none: when it returns true,
    rows [moved] have left the head of the source table of [info] and
    stand, last moved first, at the head of its destination table; then
    [done] false means that at least one row moved, and [done] true that the
    source table is empty.  When it returns false, [done] is false, every
    row is where it was, and the engine refused a primitive: the stepper
    does not fail of its own.  A call that stops at an assertion of a debug
    build has moved rows in the same way; no call is cut off. *)
Theorem migrateRows_moves_or_keeps (assertions : bool) (numberOfSamples : nat)
    (MAX B0 : float) (info : MigrationInfo) (h : MigrateHandle) :
  prepared_from_info h ->
  getTable info ∈ mainTables (handle h) ->
  exists moved,
    moved_or_kept assertions info h moved
      (migrateRows assertions numberOfSamples MAX B0 info h).
Proof. exact (migrateRows_outcome assertions numberOfSamples MAX B0 info h). Qed.

Lemma migrateRows_moves_or_keeps_witness :
  let h := MigrateHandle_new 3 (Handle_example [1; 2; 3]%Z (only 5) clock_advancing) in
  exists moved,
    moved_or_kept true info_example h moved
      (migrateRows true 3 MAX_example B0_example info_example h).
Proof.
  intros h.
  apply (migrateRows_moves_or_keeps true 3 MAX_example B0_example info_example h).
  - split; intros s Hs; discriminate Hs.
  - apply list_elem_of_here.
Defined.

(** ** The stepper: a migration driven to its end *)

Lemma migrateAll_reliable (assertions : bool) (numberOfSamples : nat) (MAX B0 : float)
    (info : MigrationInfo) (n : nat) (h : MigrateHandle) :
  prepared_from_info h ->
  reliable h ->
  getTable info ∈ mainTables (handle h) ->
  length (source (handle h) info) < n ->
  match migrateAll assertions numberOfSamples MAX B0 n info h with
  | Returns r h' =>
      r = (true, true)
      /\ source (handle h') info = []
      /\ destination (handle h') info
         = rev (source (handle h) info) ++ destination (handle h) info
  | Aborts _ => assertions = true
  | OutOfFuel _ => False
  end.
Proof.
  revert h. induction n as [|n IH]; intros h Hw Hr Ht Hlen; [lia|].
  cbn [migrateAll]. rewrite bind_eval.
  destruct (migrateRows_outcome assertions numberOfSamples MAX B0 info h Hw Ht)
    as [moved Hout].
  pose proof (migrateRows_prepared_from_info assertions numberOfSamples MAX B0 info h Hw)
    as Hw'.
  destruct (migrateRows assertions numberOfSamples MAX B0 info h)
    as [[ok done] h1|h1|h1]; cbn [final] in Hw'; unfold moved_or_kept in Hout.
  - destruct Hout as (Ef & Em & Hok & Hfail).
    destruct ok.
    2:{ destruct (Hfail eq_refl) as (_ & _ & _ & k & Hk). rewrite Hr in Hk. discriminate. }
    destruct (Hok eq_refl) as ((Hsrc & Hdst) & Hne & Hempty).
    destruct done; cbn [andb negb].
    + cbn [mret M_ret]. split; [reflexivity|]. specialize (Hempty eq_refl).
      split; [exact Hempty|]. rewrite Hempty, app_nil_r in Hsrc. now rewrite Hsrc.
    + assert (length (source (handle h1) info) < n) as Hlen1.
      { rewrite Hsrc, length_app in Hlen. specialize (Hne eq_refl).
        destruct moved; [contradiction|]. simpl in Hlen. lia. }
      assert (reliable h1) as Hr1 by (intros k; rewrite Ef; apply Hr).
      assert (getTable info ∈ mainTables (handle h1)) as Ht1 by (rewrite Em; exact Ht).
      specialize (IH h1 Hw' Hr1 Ht1 Hlen1).
      destruct (migrateAll assertions numberOfSamples MAX B0 n info h1)
        as [r h'|h'|h']; [|exact IH|exact IH].
      destruct IH as (Er & Es & Ed). split; [exact Er|]. split; [exact Es|].
      rewrite Ed, Hdst, Hsrc, rev_app_distr, app_assoc. reflexivity.
  - apply Hout.
  - contradiction.
Qed.

(** X11.  On an engine that never fails, calling [migrateRows] again while it
    returns true with [done] false ends the migration: within one call more
    than the source table of [info] has rows, a call returns true with
    [done] true, the source table is then empty and the destination table
    holds every row the source had, the first migrated deepest, above the
    rows it had before.  Only an assertion of a debug build can stop the run
    before. *)
Theorem migrateAll_drains (assertions : bool) (numberOfSamples : nat) (MAX B0 : float)
    (info : MigrationInfo) (h : MigrateHandle) :
  prepared_from_info h ->
  reliable h ->
  getTable info ∈ mainTables (handle h) ->
  (exists h',
      migrateAll assertions numberOfSamples MAX B0
        (S (length (source (handle h) info))) info h
      = Returns (true, true) h'
      /\ source (handle h') info = []
      /\ destination (handle h') info
         = rev (source (handle h) info) ++ destination (handle h) info)
  \/ (assertions = true
      /\ exists x,
           migrateAll assertions numberOfSamples MAX B0
             (S (length (source (handle h) info))) info h
           = Aborts x).
Proof.
  intros Hw Hr Ht.
  pose proof (migrateAll_reliable assertions numberOfSamples MAX B0 info
                (S (length (source (handle h) info))) h Hw Hr Ht (Nat.lt_succ_diag_r _))
    as Hd.
  destruct (migrateAll assertions numberOfSamples MAX B0
              (S (length (source (handle h) info))) info h) as [r h'|x|x].
  - left. exists h'. destruct Hd as (-> & Hs & Hdst). auto.
  - right. eauto.
  - contradiction.
Qed.

Lemma migrateAll_drains_witness :
  let h := MigrateHandle_new 3 (Handle_example [1; 2; 3]%Z never clock_slow) in
  (exists h',
      migrateAll false 3 MAX_example B0_example 4 info_example h = Returns (true, true) h'
      /\ source (handle h') info_example = []
      /\ destination (handle h') info_example = [3; 2; 1]%Z)
  \/ (false = true
      /\ exists x,
           migrateAll false 3 MAX_example B0_example 4 info_example h = Aborts x).
Proof.
  intros h.
  apply (migrateAll_drains false 3 MAX_example B0_example info_example h).
  - split; intros s Hs; discriminate Hs.
  - intros n. reflexivity.
  - apply list_elem_of_here.
Defined.

(** ** Relations that every part of a call respects *)

Section Respects.

Variable R : MigrateHandle -> MigrateHandle -> Prop.
Hypothesis R_refl : forall h, R h h.
Hypothesis R_trans : forall h1 h2 h3, R h1 h2 -> R h2 h3 -> R h1 h3.

Lemma respects_ret {A} (a : A) : respects R (mret a).
Proof using R_refl. intros h. apply R_refl. Qed.

Lemma respects_bind {A B} (m : M A) (f : A -> M B) :
  respects R m -> (forall a, respects R (f a)) -> respects R (m ≫= f).
Proof using R_trans.
  intros Hm Hf h. rewrite bind_eval. specialize (Hm h).
  destruct (m h) as [a x|x|x]; cbn [final] in *; [|exact Hm|exact Hm].
  eapply R_trans; [exact Hm|apply Hf].
Qed.

Lemma respects_gets {A} (f : MigrateHandle -> A) : respects R (gets f).
Proof using R_refl. intros h. apply R_refl. Qed.

Lemma respects_assert (assertions : bool) (cond : MigrateHandle -> bool) :
  respects R (WCTInnerAssert assertions cond).
Proof using R_refl. intros h. unfold WCTInnerAssert. destruct (_ && _); apply R_refl. Qed.

Lemma respects_modify (f : MigrateHandle -> MigrateHandle) :
  (forall h, R h (f h)) -> respects R (modify f).
Proof. intros Hf h. apply Hf. Qed.

Lemma respects_engine {A} (f : Handle -> A * Handle) :
  (forall h, R h (withHandle (f (handle h)).2 h)) -> respects R (engine f).
Proof.
  intros Hf h. unfold engine. specialize (Hf h).
  destruct (f (handle h)) as [a e]. exact Hf.
Qed.

End Respects.

(** ** The stepper: [m_attached] follows the engine *)

Lemma tracks_refl h : tracks h h.
Proof. exists []. rewrite app_nil_r. auto. Qed.

Lemma tracks_trans h1 h2 h3 : tracks h1 h2 -> tracks h2 h3 -> tracks h1 h3.
Proof.
  intros (e1 & E1 & F1) (e2 & E2 & F2). exists (e1 ++ e2).
  split; [rewrite E2, E1, app_assoc; reflexivity|].
  rewrite fold_left_app, F1. exact F2.
Qed.

(** Events other than attaches and detaches, with [m_attached] kept. *)
Lemma tracks_neutral (h h' : MigrateHandle) (evs : list Event) :
  journal (handle h') = journal (handle h) ++ evs ->
  Forall (fun ev => ~ isSchemaEvent ev) evs ->
  m_attached h' = m_attached h ->
  tracks h h'.
Proof.
  intros Ej Hn Ea. exists evs. split; [exact Ej|]. rewrite Ea.
  generalize (schemasOf (m_attached h)). clear Ej Ea.
  induction Hn as [|ev evs Hev _ IH]; intros l; [reflexivity|].
  cbn [fold_left]. rewrite <- IH. f_equal.
  destruct ev as [[]? | | | | | |]; try reflexivity; simpl in Hev; tauto.
Qed.

Lemma tracks_fields (h x : MigrateHandle) :
  handle x = handle h -> m_attached x = m_attached h -> tracks h x.
Proof.
  intros Eh Ea. apply (tracks_neutral h x []); [rewrite Eh, app_nil_r|constructor|];
    auto.
Qed.

Lemma tracks_performed (ev : Event) (h : MigrateHandle) :
  ~ isSchemaEvent ev -> tracks h (withHandle (performed ev (handle h)) h).
Proof.
  intros Hn. apply (tracks_neutral _ _ [ev]); [reflexivity|repeat constructor; exact Hn|].
  reflexivity.
Qed.

Lemma tracks_engine (h : MigrateHandle) (e : Handle) :
  journal e = journal (handle h) -> tracks h (withHandle e h).
Proof.
  intros Ej. apply (tracks_neutral _ _ []); [simpl; rewrite Ej, app_nil_r|constructor|];
    reflexivity.
Qed.

Lemma tracks_refused (st : Statement) (h : MigrateHandle) :
  succeeds (handle h) = false -> tracks h (executed st h).
Proof.
  intros Es. exists [EvExecute st false]. unfold executed, Handle_execute.
  rewrite Es. split; [reflexivity|]. destruct st; reflexivity.
Qed.

Lemma tracks_detached (h : MigrateHandle) :
  succeeds (handle h) = true ->
  tracks h (withAttached Schema_main (executed (StatementDetach (m_attached h)) h)).
Proof.
  intros Es. exists [EvExecute (StatementDetach (m_attached h)) true].
  unfold executed, Handle_execute. rewrite Es. split; [reflexivity|].
  cbn [fold_left attachedAfter m_attached withAttached schemasOf isMain].
  unfold schemasOf. destruct (isMain (m_attached h)); [reflexivity|].
  rewrite filter_cons_False by (intros Hx; apply Hx; reflexivity). reflexivity.
Qed.

Lemma tracks_attached (p : string) (s : Schema) (h : MigrateHandle) :
  succeeds (handle h) = true ->
  isMain (m_attached h) = true -> isMain s = false ->
  tracks h (withAttached s (executed (StatementAttach p s) h)).
Proof.
  intros Es Em En. exists [EvExecute (StatementAttach p s) true].
  unfold executed, Handle_execute. rewrite Es. split; [reflexivity|].
  cbn [fold_left attachedAfter m_attached withAttached]. unfold schemasOf.
  rewrite Em, En. reflexivity.
Qed.

Lemma reAttach_tracks (assertions : bool) (p : string) (s : Schema) :
  respects tracks (reAttach assertions p s).
Proof.
  intros h.
  assert (forall x, tracks h x -> tracks h (cleared x)) as Hc.
  { intros x Hx. eapply tracks_trans; [exact Hx|]. apply tracks_fields; reflexivity. }
  rewrite reAttach_eq. cbv zeta.
  destruct (assertions && violated h); [apply tracks_refl|].
  destruct (isTargetingSameSchema (m_attached h) s) eqn:Esame;
    [apply Hc, tracks_refl|].
  destruct (isMain (m_attached h)) eqn:Em; cbn [negb andb].
  - destruct (isMain s) eqn:En.
    { rewrite (isTargetingSameSchema_main _ _ Em En) in Esame. discriminate. }
    destruct (succeeds (handle h)) eqn:Es; cbn [final]; apply Hc.
    + apply tracks_attached; assumption.
    + apply tracks_refused; assumption.
  - destruct (succeeds (handle h)) eqn:Es; cbn [negb final].
    2:{ apply Hc, tracks_refused; assumption. }
    pose proof (tracks_detached h Es) as Hd.
    destruct (isMain s) eqn:En; [apply Hc, Hd|].
    match goal with |- context [succeeds ?e] => destruct (succeeds e) eqn:Es2 end;
      cbn [final]; apply Hc; (eapply tracks_trans; [exact Hd|]).
    + apply tracks_attached; [exact Es2|reflexivity|exact En].
    + apply tracks_refused; exact Es2.
Qed.


Create HintDb tracks discriminated.

#[local] Hint Resolve reAttach_tracks : tracks.

Ltac tracking :=
  repeat first
    [ solve [auto with tracks nocore]
    | apply (respects_ret tracks tracks_refl)
    | apply (respects_gets tracks tracks_refl)
    | apply (respects_assert tracks tracks_refl)
    | apply (respects_bind tracks tracks_trans); [|intros]
    | match goal with
      | |- respects tracks (if ?c then _ else _) => destruct c
      | |- respects tracks (match ?c with _ => _ end) => destruct c
      end ].

Lemma modify_tracks (f : MigrateHandle -> MigrateHandle) :
  (forall h, handle (f h) = handle h /\ m_attached (f h) = m_attached h) ->
  respects tracks (modify f).
Proof.
  intros Hf. apply respects_modify. intros h. apply tracks_fields; apply Hf.
Qed.

Lemma execute_tracks (st : Statement) :
  (forall ok, ~ isSchemaEvent (EvExecute st ok)) -> respects tracks (execute st).
Proof.
  intros Hn. apply respects_engine. intros h.
  apply (tracks_neutral _ _ [EvExecute st (succeeds (handle h))]);
    [|repeat constructor; apply Hn|reflexivity].
  unfold Handle_execute. simpl.
  destruct (succeeds (handle h)); [rewrite run_journal|]; reflexivity.
Qed.

Lemma statement_step_tracks (sl : Slot) : respects tracks (statement_step sl).
Proof.
  intros h. unfold statement_step. destruct (slot sl h) as [st|]; [|apply tracks_refl].
  revert h. apply respects_engine. intros h.
  apply (tracks_neutral _ _ [EvStep st (succeeds (handle h))]);
    [|repeat constructor; simpl; tauto|reflexivity].
  unfold Handle_step. simpl.
  destruct (succeeds (handle h)); [rewrite run_journal|]; reflexivity.
Qed.

#[local] Hint Resolve statement_step_tracks : tracks.

Lemma statement_prepare_tracks (sl : Slot) (st : Statement) :
  respects tracks (statement_prepare sl st).
Proof.
  intros h. unfold statement_prepare.
  apply (tracks_neutral _ _ [EvPrepare st (succeeds (handle h))]);
    [|repeat constructor; simpl; tauto|];
    destruct (succeeds (handle h)), sl; reflexivity.
Qed.

#[local] Hint Resolve statement_prepare_tracks : tracks.

Lemma tableExists_tracks (table : string) : respects tracks (tableExists table).
Proof.
  apply respects_engine. intros h. unfold Handle_tableExists. cbn [snd].
  apply tracks_performed. simpl. tauto.
Qed.

#[local] Hint Resolve tableExists_tracks : tracks.

Lemma clock_tracks : respects tracks timeIntervalSinceSteadyClockToNow.
Proof. apply respects_engine. intros h. apply tracks_engine. reflexivity. Qed.

#[local] Hint Resolve clock_tracks : tracks.

Lemma addSample_tracks (assertions : bool) (numberOfSamples : nat) (within whole : float) :
  respects tracks (addSample assertions numberOfSamples within whole).
Proof.
  intros h. rewrite addSample_eq. destruct (_ && _); [apply tracks_refl|].
  apply tracks_fields; reflexivity.
Qed.

#[local] Hint Resolve addSample_tracks : tracks.

Lemma migrateRow_tracks (assertions : bool) : respects tracks (migrateRow assertions).
Proof.
  unfold migrateRow, statement_reset. tracking.
Qed.

#[local] Hint Resolve migrateRow_tracks : tracks.

Lemma migrateLoop_tracks (assertions : bool) (fuel : nat) (budget : float) :
  respects tracks (migrateLoop assertions fuel budget).
Proof.
  induction fuel as [|fuel IH]; [intros h; apply tracks_refl|].
  cbn [migrateLoop]. tracking.
Qed.

#[local] Hint Resolve migrateLoop_tracks : tracks.

Lemma runTransaction_tracks {X} (captured : X) (transaction : M (bool * X)) :
  respects tracks transaction -> respects tracks (runTransaction captured transaction).
Proof.
  intros Ht h. unfold runTransaction.
  destruct (succeeds (handle h)); [|apply tracks_performed; simpl; tauto].
  set (hb := withHandle (withTransaction true (performed (EvBegin true) (handle h))) h).
  assert (tracks h hb) as Hb.
  { apply (tracks_neutral _ _ [EvBegin true]);
      [reflexivity|repeat constructor; simpl; tauto|reflexivity]. }
  specialize (Ht hb).
  destruct (transaction hb) as [[[] x] h2|h2|h2]; cbn [final] in *;
    [|eapply tracks_trans; [exact Hb|]; eapply tracks_trans; [exact Ht|]
     |eapply tracks_trans; eauto|eapply tracks_trans; eauto].
  - eapply tracks_trans; [exact Hb|]. eapply tracks_trans; [exact Ht|].
    destruct (succeeds (handle h2)); cbn [final].
    + apply (tracks_neutral _ _ [EvCommit true]);
        [reflexivity|repeat constructor; simpl; tauto|reflexivity].
    + apply (tracks_neutral _ _ [EvCommit false; EvRollback]);
        [|repeat constructor; simpl; tauto|reflexivity].
      simpl. rewrite <- app_assoc. reflexivity.
  - apply (tracks_neutral _ _ [EvRollback]);
      [reflexivity|repeat constructor; simpl; tauto|reflexivity].
Qed.

#[local] Hint Resolve runTransaction_tracks : tracks.

Lemma migrateRows_transaction_tracks (assertions : bool) (numberOfSamples : nat)
    (MAX B0 : float) (info : MigrationInfo) :
  respects tracks (migrateRows_transaction assertions numberOfSamples MAX B0 info).
Proof.
  unfold migrateRows_transaction.
  tracking.
Qed.

#[local] Hint Resolve migrateRows_transaction_tracks : tracks.

Lemma migrateRows_tracks (assertions : bool) (numberOfSamples : nat)
    (MAX B0 : float) (info : MigrationInfo) :
  respects tracks (migrateRows assertions numberOfSamples MAX B0 info).
Proof.
  unfold migrateRows, statement_isPrepared.
  tracking.
Qed.

Lemma dropSourceTable_tracks (assertions : bool) (info : MigrationInfo) :
  respects tracks (dropSourceTable assertions info).
Proof.
  unfold dropSourceTable.
  tracking. apply execute_tracks. intros ok. simpl. tauto.
Qed.

Lemma sourceTableExists_tracks (assertions : bool)
    (attachedTables : Schema -> list string) (userInfo : MigrationUserInfo.t) :
  respects tracks (sourceTableExists assertions attachedTables userInfo).
Proof.
  unfold sourceTableExists. cbv zeta.
  tracking.
  apply respects_engine. intros h. unfold Handle_tableExistsIn. cbn [snd].
  apply tracks_performed. simpl. tauto.
Qed.

Lemma reachableFrom_tracks (assertions : bool) (numberOfSamples : nat)
    (MAX B0 : float) (attachedTables : Schema -> list string) (e : Handle)
    (h : MigrateHandle) :
  reachableFrom assertions numberOfSamples MAX B0 attachedTables e h ->
  tracks (MigrateHandle_new numberOfSamples e) h.
Proof.
  induction 1 as [|info h r h' _ IH E|info h ok h' _ IH E
                 |userInfo h r h' _ IH E|p s h ok h' _ IH E].
  - apply tracks_refl.
  - eapply tracks_trans; [exact IH|].
    pose proof (migrateRows_tracks assertions numberOfSamples MAX B0 info h) as Ht.
    rewrite E in Ht. exact Ht.
  - eapply tracks_trans; [exact IH|].
    pose proof (dropSourceTable_tracks assertions info h) as Ht.
    rewrite E in Ht. exact Ht.
  - eapply tracks_trans; [exact IH|].
    pose proof (sourceTableExists_tracks assertions attachedTables userInfo h) as Ht.
    rewrite E in Ht. exact Ht.
  - eapply tracks_trans; [exact IH|].
    pose proof (reAttach_tracks assertions p s h) as Ht.
    rewrite E in Ht. exact Ht.
Qed.

(** X12.  [m_attached] follows the engine.  Over any call of [reAttach],
    [dropSourceTable], [sourceTableExists] or [migrateRows], however it
    ends, the journal only grows, and the schemas the engine has attached
    beside main, as its successful attaches and detaches leave them, are
    the one [m_attached] names, or none when it names main.  So for the
    stepper constructed on any engine [e], in every state it reaches: the
    engine's journal is the journal of [e] followed by what the stepper
    performed since its construction; the schemas those events leave
    attached, starting from none, are the one in [m_attached], or none when
    that is main; and they are at most one. *)
Theorem operations_track_attached (assertions : bool) (numberOfSamples : nat)
    (MAX B0 : float) :
  (forall p s, respects tracks (reAttach assertions p s))
  /\ (forall info, respects tracks (dropSourceTable assertions info))
  /\ (forall attachedTables userInfo,
         respects tracks (sourceTableExists assertions attachedTables userInfo))
  /\ (forall info, respects tracks (migrateRows assertions numberOfSamples MAX B0 info))
  /\ (forall attachedTables e h,
         reachableFrom assertions numberOfSamples MAX B0 attachedTables e h ->
         let performed := performedBy (MigrateHandle_new numberOfSamples e) h in
         journal (handle h) = journal e ++ performed
         /\ fold_left attachedAfter performed [] = schemasOf (m_attached h)
         /\ length (fold_left attachedAfter performed []) <= 1).
Proof.
  split; [intros; apply reAttach_tracks|].
  split; [intros; apply dropSourceTable_tracks|].
  split; [intros; apply sourceTableExists_tracks|].
  split; [intros; apply migrateRows_tracks|].
  intros attachedTables e h Hh performed.
  destruct (reachableFrom_tracks _ _ _ _ _ _ _ Hh) as (evs & Ej & Hf).
  change (handle (MigrateHandle_new numberOfSamples e)) with e in Ej.
  change (schemasOf (m_attached (MigrateHandle_new numberOfSamples e)))
    with (@nil Schema) in Hf.
  assert (performed = evs) as ->.
  { unfold performed, performedBy.
    change (handle (MigrateHandle_new numberOfSamples e)) with e.
    rewrite Ej. apply drop_app_length. }
  split; [exact Ej|]. split; [exact Hf|].
  rewrite Hf. unfold schemasOf. destruct (isMain (m_attached h)); simpl; lia.
Qed.

Lemma operations_track_attached_witness :
  let e := Handle_example [1; 2; 3]%Z never clock_slow in
  let h := final (migrateRows true 3 MAX_example B0_example info_example
                    (MigrateHandle_new 3 e)) in
  fold_left attachedAfter (performedBy (MigrateHandle_new 3 e) h) []
  = [Schema_named "/old.db" "old"]
  /\ length (fold_left attachedAfter (performedBy (MigrateHandle_new 3 e) h) []) <= 1.
Proof.
  intros e h.
  destruct (operations_track_attached true 3 MAX_example B0_example)
    as (_ & _ & _ & _ & Hreach).
  destruct (Hreach (fun _ => []) e h) as (_ & Hat & Hone).
  - apply (from_migrateRows _ _ _ _ _ _ info_example (MigrateHandle_new 3 e)
             (true, false) h); [apply from_new|].
    vm_compute. reflexivity.
  - split; [rewrite Hat; vm_compute; reflexivity | exact Hone].
Defined.

(** ** The sampler: the ring and its cursor *)

Lemma recorded_ring_shaped (numberOfSamples : nat) (within whole : float)
    (h : MigrateHandle) :
  ring_shaped numberOfSamples h ->
  ring_shaped numberOfSamples (recorded numberOfSamples within whole h).
Proof.
  intros [Hl Hc]. unfold ring_shaped, recorded. simpl.
  rewrite length_insert. split; [exact Hl|].
  case_bool_decide; lia.
Qed.

Lemma same_sampler_ring_shaped (numberOfSamples : nat) (h h' : MigrateHandle) :
  same_sampler h h' -> ring_shaped numberOfSamples h -> ring_shaped numberOfSamples h'.
Proof. intros [E1 E2] [Hl Hc]. unfold ring_shaped. rewrite E1, E2. auto. Qed.

Lemma same_sampler_trans (h1 h2 h3 : MigrateHandle) :
  same_sampler h1 h2 -> same_sampler h2 h3 -> same_sampler h1 h3.
Proof. intros [A1 A2] [B1 B2]. split; congruence. Qed.

Section Ring.

Variable assertions : bool.
Variable numberOfSamples : nat.
Variable MAX B0 : float.

Lemma addSample_ring_shaped (within whole : float) (h : MigrateHandle) :
  ring_shaped numberOfSamples h ->
  ring_shaped numberOfSamples (final (addSample assertions numberOfSamples within whole h)).
Proof.
  intros Hr. rewrite addSample_eq. destruct (_ && _); [exact Hr|].
  apply recorded_ring_shaped, Hr.
Qed.

Lemma migrateRows_ring_shaped (info : MigrationInfo) (h : MigrateHandle) :
  ring_shaped numberOfSamples h ->
  ring_shaped numberOfSamples
    (final (migrateRows assertions numberOfSamples MAX B0 info h)).
Proof.
  intros Hr.
  destruct (migrateRows_cases assertions numberOfSamples MAX B0 info h)
    as [((_ & Hs & _) & _)|(h1 & Hready & Ht)].
  { eapply same_sampler_ring_shaped; eauto. }
  destruct Hready as ((_ & Hs1 & _) & Hm & Hd & _).
  assert (ring_shaped numberOfSamples h1) as Hr1
    by (eapply same_sampler_ring_shaped; eauto).
  inversion Ht as [h' Ejt Hsm Hstm Hrw
                  |h' steps tail Ejt Hsteps Htail Hsm Hstm Hrw
                  |out' h' steps migrated cost whole hl El Ejt Hsteps Hrd Ec Ew Hstm Hrw Hout
                  |h' steps El Ejt Hsteps]; subst; cbn [final].
  - eapply same_sampler_ring_shaped; eauto.
  - eapply same_sampler_ring_shaped; eauto.
  - destruct Hout as [(-> & E1 & E2 & _)|(-> & _ & _ & Hs)]; cbn [final].
    + pose proof (recorded_ring_shaped numberOfSamples
                    (elapsed (handle h1) (reads (handle h') - 2))
                    (elapsed (handle h1) (reads (handle h') - 1)) h1 Hr1) as [A B].
      unfold ring_shaped. rewrite E1, E2. auto.
    + eapply same_sampler_ring_shaped; eauto.
  - assert (stepping (begun h1)) as Hst by (repeat split; assumption).
    destruct (migrateLoop_frame assertions (fuel_of info h1) (budget_of MAX B0 h1)
                (begun h1) Hst) as [(_ & Hs & _) _].
    rewrite El in Hs. cbn [final] in Hs.
    eapply same_sampler_ring_shaped; [exact Hs|]. exact Hr1.
Qed.

Lemma reAttach_ring_shaped (p : string) (s : Schema) (h : MigrateHandle) :
  ring_shaped numberOfSamples h ->
  ring_shaped numberOfSamples (final (reAttach assertions p s h)).
Proof.
  intros Hr. eapply same_sampler_ring_shaped; [|exact Hr].
  apply (reAttach_frame assertions p s h).
Qed.

Lemma dropSourceTable_ring_shaped (info : MigrationInfo) (h : MigrateHandle) :
  ring_shaped numberOfSamples h ->
  ring_shaped numberOfSamples (final (dropSourceTable assertions info h)).
Proof.
  intros Hr.
  pose proof (reAttach_ring_shaped (getSourceDatabase info)
                (getSchemaForSourceDatabase info) h Hr) as H1.
  unfold dropSourceTable. rewrite bind_eval.
  destruct (reAttach assertions _ _ h) as [[] h1|h1|h1]; cbn [final] in *; auto.
Qed.

Lemma sourceTableExists_ring_shaped (attachedTables : Schema -> list string)
    (userInfo : MigrationUserInfo.t) (h : MigrateHandle) :
  ring_shaped numberOfSamples h ->
  ring_shaped numberOfSamples
    (final (sourceTableExists assertions attachedTables userInfo h)).
Proof.
  intros Hr.
  pose proof (reAttach_ring_shaped (MigrationUserInfo.getSourceDatabase userInfo)
                (MigrationUserInfo.getSchemaForSourceDatabase userInfo) h Hr) as H1.
  unfold sourceTableExists. cbv zeta. rewrite bind_eval.
  destruct (reAttach assertions _ _ h) as [[] h1|h1|h1]; cbn [final] in *; auto.
Qed.

End Ring.

(** X13.  The ring keeps its shape.  If the ring has its [numberOfSamples]
    slots and the cursor points at one of them, this is so again after
    [addSample], [migrateRows], [reAttach], [dropSourceTable] and
    [sourceTableExists], however the call ends; it is so for a new stepper
    when [numberOfSamples] is positive, hence in every state the stepper
    reaches.  So [addSample] never writes outside the ring, in a build
    without assertions as well, and its assertion on the cursor never
    fails. *)
Theorem ring_keeps_its_shape (assertions : bool) (numberOfSamples : nat)
    (MAX B0 : float) :
  (forall within whole h,
      ring_shaped numberOfSamples h ->
      ring_shaped numberOfSamples
        (final (addSample assertions numberOfSamples within whole h)))
  /\ (forall info h,
         ring_shaped numberOfSamples h ->
         ring_shaped numberOfSamples
           (final (migrateRows assertions numberOfSamples MAX B0 info h)))
  /\ (forall p s h,
         ring_shaped numberOfSamples h ->
         ring_shaped numberOfSamples (final (reAttach assertions p s h)))
  /\ (forall info h,
         ring_shaped numberOfSamples h ->
         ring_shaped numberOfSamples (final (dropSourceTable assertions info h)))
  /\ (forall attachedTables userInfo h,
         ring_shaped numberOfSamples h ->
         ring_shaped numberOfSamples
           (final (sourceTableExists assertions attachedTables userInfo h)))
  /\ (0 < numberOfSamples ->
      forall h, reachable assertions numberOfSamples MAX B0 h ->
                ring_shaped numberOfSamples h
                /\ is_Some (m_samples h !! m_samplePointing h)).
Proof.
  split; [intros; now apply addSample_ring_shaped|].
  split; [intros; now apply migrateRows_ring_shaped|].
  split; [intros; now apply reAttach_ring_shaped|].
  split; [intros; now apply dropSourceTable_ring_shaped|].
  split; [intros; now apply sourceTableExists_ring_shaped|].
  intros Hn h Hh.
  assert (ring_shaped numberOfSamples h) as Hr.
  { induction Hh as [e|info h r h' _ IH E|info h ok h' _ IH E|p s h ok h' _ IH E].
    - split; [apply length_replicate|exact Hn].
    - pose proof (migrateRows_ring_shaped assertions numberOfSamples MAX B0 info h IH)
        as Hr. rewrite E in Hr. exact Hr.
    - pose proof (dropSourceTable_ring_shaped assertions numberOfSamples info h IH) as Hr.
      rewrite E in Hr. exact Hr.
    - pose proof (reAttach_ring_shaped assertions numberOfSamples p s h IH) as Hr.
      rewrite E in Hr. exact Hr. }
  split; [exact Hr|]. apply lookup_lt_is_Some. destruct Hr as [-> Hc]. exact Hc.
Qed.

Lemma addSamples_app (assertions : bool) (numberOfSamples : nat)
    (l1 l2 : list (Sample float)) (h h1 : MigrateHandle) :
  addSamples assertions numberOfSamples l1 h = Returns tt h1 ->
  addSamples assertions numberOfSamples (l1 ++ l2) h
  = addSamples assertions numberOfSamples l2 h1.
Proof.
  revert h. induction l1 as [|s l1 IH]; intros h.
  - intros [= <-]. reflexivity.
  - cbn [addSamples app]. rewrite !bind_eval.
    destruct (addSample assertions numberOfSamples _ _ h) as [[] x|x|x];
      [apply IH|discriminate|discriminate].
Qed.

(** Samples recorded without passing the end of the ring. *)
Lemma addSamples_up_to_the_end (assertions : bool) (numberOfSamples : nat)
    (l : list (Sample float)) (h : MigrateHandle) :
  ring_shaped numberOfSamples h ->
  m_samplePointing h + length l <= numberOfSamples ->
  (assertions = true -> Forall (fun s => sample_proper s = true) l) ->
  exists h',
    addSamples assertions numberOfSamples l h = Returns tt h'
    /\ m_samples h'
       = take (m_samplePointing h) (m_samples h) ++ l
         ++ drop (m_samplePointing h + length l) (m_samples h)
    /\ m_samplePointing h'
       = (if decide (m_samplePointing h + length l = numberOfSamples) then 0
          else m_samplePointing h + length l)
    /\ handle h' = handle h.
Proof.
  revert h. induction l as [|s l IH]; intros h [Hl Hc] Hle Hp.
  - exists h. cbn [addSamples length]. rewrite Nat.add_0_r, app_nil_l, take_drop.
    rewrite decide_False by lia. auto.
  - cbn [addSamples]. rewrite bind_eval, addSample_eq.
    assert (assertions
            && negb (sample_ok numberOfSamples (m_samplePointing h)
                       (timeIntervalWithinTransaction s) (timeIntervalWholeTransaction s))
            = false) as ->.
    { destruct assertions; [|reflexivity]. specialize (Hp eq_refl).
      apply Forall_cons in Hp as [Hs _]. unfold sample_proper in Hs.
      apply andb_true_iff in Hs as [Hs H3]. apply andb_true_iff in Hs as [H1 H2].
      unfold sample_ok. rewrite H1, H2, H3, bool_decide_eq_true_2 by exact Hc.
      reflexivity. }
    set (h1 := recorded numberOfSamples (timeIntervalWithinTransaction s)
                 (timeIntervalWholeTransaction s) h).
    cbn [length] in Hle |- *.
    assert (m_samples h1 = <[m_samplePointing h := s]> (m_samples h)) as Es1
      by (destruct s; reflexivity).
    assert (<[m_samplePointing h := s]> (m_samples h)
            = take (m_samplePointing h) (m_samples h) ++ s
              :: drop (S (m_samplePointing h)) (m_samples h)) as Eins
      by (apply insert_take_drop; lia).
    destruct (decide (S (m_samplePointing h) = numberOfSamples)) as [Eend|Hnot].
    + destruct l; [|simpl in Hle; lia].
      exists h1. cbn [addSamples length]. split; [reflexivity|].
      rewrite Es1, Eins. rewrite decide_True by lia.
      replace (m_samplePointing h + 1) with (S (m_samplePointing h)) by lia.
      split; [reflexivity|]. split; [|reflexivity].
      unfold h1, recorded. simpl. rewrite bool_decide_eq_true_2 by lia. reflexivity.
    + assert (m_samplePointing h1 = S (m_samplePointing h)) as Ec1.
      { unfold h1, recorded. simpl. rewrite bool_decide_eq_false_2 by lia. reflexivity. }
      destruct (IH h1) as (h' & E & Es & Ec & Eh).
      { split; [rewrite Es1, length_insert; exact Hl|rewrite Ec1; lia]. }
      { rewrite Ec1. lia. }
      { intros Ha. specialize (Hp Ha). now apply Forall_cons in Hp as [_ Hp]. }
      exists h'. split; [exact E|].
      rewrite Ec1 in Es, Ec. rewrite Es1 in Es.
      split; [|split; [|rewrite Eh; reflexivity]].
      * rewrite Es.
        rewrite (take_S_r _ _ s)
          by (apply list_lookup_insert_eq; lia).
        rewrite take_insert_ge by lia.
        rewrite drop_insert_lt by lia.
        rewrite <- app_assoc. cbn [app].
        replace (m_samplePointing h + S (length l))
          with (S (m_samplePointing h) + length l) by lia.
        reflexivity.
      * rewrite Ec.
        replace (m_samplePointing h + S (length l))
          with (S (m_samplePointing h) + length l) by lia.
        reflexivity.
Qed.

(** X14.  The ring holds the last [numberOfSamples] samples.  After
    [addSample] has been called for as many samples as the ring has slots,
    nothing of the former ring is left: the ring holds exactly these
    samples, each in one slot, as a rotation (the oldest stands where the
    cursor was, the samples recorded after the wrap-around stand at the
    front), and the cursor is back where it was.  A build with assertions
    gets there when every sample has both durations positive and the whole
    one the larger. *)
Theorem addSamples_fill_the_ring (assertions : bool) (numberOfSamples : nat)
    (l : list (Sample float)) (h : MigrateHandle) :
  ring_shaped numberOfSamples h ->
  length l = numberOfSamples ->
  (assertions = true -> Forall (fun s => sample_proper s = true) l) ->
  exists h',
    addSamples assertions numberOfSamples l h = Returns tt h'
    /\ m_samples h'
       = drop (numberOfSamples - m_samplePointing h) l
         ++ take (numberOfSamples - m_samplePointing h) l
    /\ m_samplePointing h' = m_samplePointing h
    /\ handle h' = handle h.
Proof.
  intros Hr Hlen Hp. pose proof Hr as [Hl Hc].
  set (c := m_samplePointing h) in *.
  set (l1 := take (numberOfSamples - c) l). set (l2 := drop (numberOfSamples - c) l).
  assert (length l1 = numberOfSamples - c) as Hl1 by (unfold l1; rewrite length_take; lia).
  assert (length l2 = c) as Hl2 by (unfold l2; rewrite length_drop; lia).
  assert (l = l1 ++ l2) as El by (symmetry; apply take_drop).
  assert (assertions = true -> Forall (fun s => sample_proper s = true) l1
                               /\ Forall (fun s => sample_proper s = true) l2) as Hp12.
  { intros Ha. specialize (Hp Ha). rewrite El in Hp. now apply Forall_app in Hp. }
  destruct (addSamples_up_to_the_end assertions numberOfSamples l1 h Hr)
    as (h1 & E1 & Es1 & Ec1 & Eh1).
  { fold c. lia. } { intros Ha. apply (Hp12 Ha). }
  fold c in Es1, Ec1. rewrite Hl1 in Es1, Ec1.
  rewrite decide_True in Ec1 by lia.
  rewrite drop_ge, app_nil_r in Es1 by lia.
  assert (ring_shaped numberOfSamples h1) as Hr1.
  { split; [|lia]. rewrite Es1, length_app, length_take, Hl1. lia. }
  destruct (addSamples_up_to_the_end assertions numberOfSamples l2 h1 Hr1)
    as (h2 & E2 & Es2 & Ec2 & Eh2).
  { rewrite Ec1, Hl2. lia. } { intros Ha. apply (Hp12 Ha). }
  rewrite Ec1, Hl2 in Es2, Ec2. cbn [Nat.add take app] in Es2, Ec2.
  rewrite decide_False in Ec2 by lia.
  exists h2. split; [rewrite El; rewrite (addSamples_app _ _ _ _ _ _ E1); exact E2|].
  split; [|split; [exact Ec2|congruence]].
  rewrite Es2, Es1. rewrite drop_app_length' by (rewrite length_take; lia). reflexivity.
Qed.

Lemma addSamples_fill_the_ring_witness :
  let h := MigrateHandle_new 3 (Handle_example [] never clock_advancing) in
  let l := [mkSample 1 2; mkSample 1 3; mkSample 2 3]%float in
  exists h',
    addSamples true 3 l h = Returns tt h'
    /\ m_samples h' = drop (3 - m_samplePointing h) l ++ take (3 - m_samplePointing h) l
    /\ m_samplePointing h' = m_samplePointing h
    /\ handle h' = handle h.
Proof.
  intros h l. apply (addSamples_fill_the_ring true 3 l h).
  - split; [reflexivity|simpl; lia].
  - reflexivity.
  - intros _. repeat constructor.
Defined.

(** ** The sampler: the range of the budget *)

(** Above zero is what is neither below or at zero nor NaN. *)
Lemma float_positive (t : float) :
  (t <=? 0)%float = false -> PrimFloat.is_nan t = false -> (0 <? t)%float = true.
Proof.
  intros Hle Hn.
  assert (Prim2SF t <> S754_nan) as Hnn.
  { intros E. apply float_is_nan_spec in E. congruence. }
  rewrite FloatAxioms.leb_spec in Hle. rewrite FloatAxioms.ltb_spec.
  change (Prim2SF 0) with (S754_zero false) in *.
  unfold SFleb, SFltb in *.
  destruct (Prim2SF t) as [s|s| |s m e]; try congruence;
    destruct s; cbn in *; congruence.
Qed.

Lemma SFcompare_antisym (x y : spec_float) :
  SFcompare y x = option_map CompOpp (SFcompare x y).
Proof.
  destruct x as [sx|sx| |sx mx ex], y as [sy|sy| |sy my ey]; simpl;
    try reflexivity;
    try (destruct sx; reflexivity); try (destruct sy; reflexivity);
    try (destruct sx, sy; reflexivity).
  destruct sx, sy; simpl; try reflexivity.
  - rewrite (Z.compare_antisym ey ex).
    destruct (ey ?= ex)%Z; simpl; try reflexivity.
    rewrite (Pos.compare_cont_antisym mx my Eq). simpl.
    destruct (Pos.compare_cont Eq mx my); reflexivity.
  - rewrite (Z.compare_antisym ey ex).
    destruct (ey ?= ex)%Z; simpl; try reflexivity.
    rewrite (Pos.compare_cont_antisym mx my Eq). simpl.
    destruct (Pos.compare_cont Eq mx my); reflexivity.
Qed.

(** At or below is what is neither above nor NaN. *)
Lemma float_not_above (t m : float) :
  (m <? t)%float = false -> PrimFloat.is_nan t = false -> PrimFloat.is_nan m = false ->
  (t <=? m)%float = true.
Proof.
  intros Hlt Ht Hm.
  assert (Prim2SF t <> S754_nan) as Htn.
  { intros E. apply float_is_nan_spec in E. congruence. }
  assert (Prim2SF m <> S754_nan) as Hmn.
  { intros E. apply float_is_nan_spec in E. congruence. }
  rewrite FloatAxioms.ltb_spec in Hlt. rewrite FloatAxioms.leb_spec.
  unfold SFltb in Hlt. unfold SFleb. rewrite (SFcompare_antisym (Prim2SF m) (Prim2SF t)).
  destruct (SFcompare (Prim2SF m) (Prim2SF t)) as [[]|] eqn:Ec; simpl; try reflexivity;
    try discriminate.
  destruct (Prim2SF m) as [s|s| |s mm e], (Prim2SF t) as [s'|s'| |s' mt e'];
    simpl in Ec; try congruence; try (destruct s; discriminate);
    try (destruct s'; discriminate); try (destruct s, s'; discriminate).
Qed.

(** X15.  In binary64, whatever the ring holds and whatever the two
    constants are, the budget [calculateTimeIntervalWithinTransaction]
    returns is the initial budget, or a number above zero (so neither a
    NaN nor below or at zero) that is not above the maximum: at or below it,
    when the maximum is a number. *)
Theorem calculateTimeIntervalWithinTransaction_range (MAX B0 : float)
    (l : list (Sample float)) :
  let b := calculateTimeIntervalWithinTransaction MAX B0 l in
  b = B0
  \/ ((0 <? b)%float = true
      /\ (MAX <? b)%float = false
      /\ PrimFloat.is_nan b = false
      /\ (PrimFloat.is_nan MAX = false -> (b <=? MAX)%float = true)).
Proof.
  unfold calculateTimeIntervalWithinTransaction. cbv zeta.
  match goal with
  | |- context [ddiv ?a ?c] => set (t := ddiv a c)
  end.
  unfold dgt. cbn [dlt dle disnan dzero binary64].
  destruct (MAX <? t)%float eqn:Egt; [left; reflexivity|].
  destruct (t <=? 0)%float eqn:Ele; [left; reflexivity|].
  destruct (PrimFloat.is_nan t) eqn:En; [left; reflexivity|].
  right. cbn [orb]. split; [apply float_positive; assumption|].
  split; [exact Egt|]. split; [exact En|].
  intros Hm. apply float_not_above; assumption.
Qed.

(** ** The sampler: the budget as a share of the maximum *)

(** X16.  In binary64, when nothing underflows or overflows (the maximum,
    the running totals over the valid samples, the product and the quotient
    are normal doubles), the quotient the code computes is within the factor
    [tolerance n], for [n] valid samples, of the maximum times the share of
    the valid samples' time that was spent within transactions, whatever the
    ratios of the single samples are.  The budget is that quotient unless it
    is above the maximum, then it is the initial budget; and it is that
    quotient whenever the whole times sum to at least [tolerance n] times
    the times within transactions. *)
Theorem calculateTimeIntervalWithinTransaction_share (MAX B0 : float)
    (l : list (Sample float)) :
  in_normal_range MAX l = true ->
  let vs := List.filter valid l in
  let share := (sum_of timeIntervalWithinTransaction vs
                / sum_of timeIntervalWholeTransaction vs)%Q in
  let q := (MAX * total timeIntervalWithinTransaction vs
            / total timeIntervalWholeTransaction vs)%float in
  let b := calculateTimeIntervalWithinTransaction MAX B0 l in
  within_factor (tolerance (length vs)) (value q) (value MAX * share)%Q
  /\ b = (if (MAX <? q)%float then B0 else q)
  /\ ((tolerance (length vs) * sum_of timeIntervalWithinTransaction vs
       <= sum_of timeIntervalWholeTransaction vs)%Q -> b = q).
Proof. exact (budget_share MAX B0 l). Qed.

Lemma calculateTimeIntervalWithinTransaction_share_witness :
  let l := [mkSample 2 6; Sample_init; mkSample 1 2]%float in
  within_factor (tolerance 2)
    (value (calculateTimeIntervalWithinTransaction MAX_example B0_example l))
    (value MAX_example * (3 # 8))%Q.
Proof.
  intros l.
  destruct (calculateTimeIntervalWithinTransaction_share MAX_example B0_example l)
    as (Hw & _ & Hb).
  - vm_compute. reflexivity.
  - rewrite Hb.
    + revert Hw. apply within_ext; [reflexivity|reflexivity|].
      vm_compute. reflexivity.
    + apply Qle_bool_iff. vm_compute. reflexivity.
Defined.

(** ** The stepper: one row, and the loop over the rows *)

Lemma stepped_journal (s : Statement) (h : MigrateHandle) :
  journal (handle (stepped s h))
  = journal (handle h) ++ [EvStep s (succeeds (handle h))].
Proof.
  unfold stepped, Handle_step. simpl.
  destruct (succeeds (handle h)); [rewrite run_journal|]; reflexivity.
Qed.

Lemma stepped_succeeds (s : Statement) (h : MigrateHandle) :
  succeeds (handle (stepped s h)) = negb (failing (handle h) (S (calls (handle h)))).
Proof.
  unfold stepped, Handle_step, succeeds. simpl.
  destruct (negb (failing (handle h) (calls (handle h)))); [|reflexivity].
  destruct (run_oracle s (handle h)) as [-> ->]. reflexivity.
Qed.

Lemma migrateRow_steps (assertions : bool) (info : MigrationInfo)
    (h : MigrateHandle) :
  m_migrateStatement h = Some (StatementForMigratingOneRow info) ->
  m_removeMigratedStatement h = Some (StatementForDeletingMigratedOneRow info) ->
  isInTransaction (handle h) = true ->
  let ok1 := succeeds (handle h) in
  let ok2 := negb (failing (handle h) (S (calls (handle h)))) in
  exists h',
    match source (handle h) info with
    | [] =>
        migrateRow assertions h = Returns (ok1, ok1) h'
        /\ performedBy h h' = [EvStep (StatementForMigratingOneRow info) ok1]
        /\ source (handle h') info = []
        /\ destination (handle h') info = destination (handle h) info
    | r :: rest =>
        if ok1 then
          migrateRow assertions h = Returns (ok2, false) h'
          /\ performedBy h h' = [EvStep (StatementForMigratingOneRow info) true;
                                 EvStep (StatementForDeletingMigratedOneRow info) ok2]
          /\ source (handle h') info = (if ok2 then rest else r :: rest)
          /\ destination (handle h') info = r :: destination (handle h) info
        else
          migrateRow assertions h = Returns (false, false) h'
          /\ performedBy h h' = [EvStep (StatementForMigratingOneRow info) false]
          /\ source (handle h') info = r :: rest
          /\ destination (handle h') info = destination (handle h) info
    end.
Proof.
  intros Em Ed Et. cbv zeta.
  rewrite (migrateRow_eq assertions h _ _ Em Ed Et). cbv zeta.
  set (h1 := stepped (StatementForMigratingOneRow info) h).
  set (h2 := stepped (StatementForDeletingMigratedOneRow info) h1).
  destruct (rows_stepped_migrate info h) as [Esrc1 Hm]. fold h1 in Esrc1, Hm.
  destruct (rows_stepped_delete info h1) as [Edst2 Esrc2]. fold h2 in Edst2, Esrc2.
  pose proof (stepped_journal (StatementForMigratingOneRow info) h) as Ej1. fold h1 in Ej1.
  pose proof (stepped_journal (StatementForDeletingMigratedOneRow info) h1) as Ej2.
  fold h2 in Ej2.
  pose proof (stepped_succeeds (StatementForMigratingOneRow info) h) as Eok2.
  fold h1 in Eok2.
  assert (succeeds (handle h) = false ->
          destination (handle h1) info = destination (handle h) info) as Hkeep.
  { intros E. unfold h1, stepped, Handle_step. rewrite E. reflexivity. }
  destruct (succeeds (handle h)) eqn:Eok1.
  - specialize (Hm eq_refl).
    destruct (source (handle h) info) as [|r rest] eqn:Esrc.
    + destruct Hm as [Hc Hd]. rewrite Hc. cbn [Z.eqb negb].
      exists h1. split; [reflexivity|].
      split; [apply performedBy_app; exact Ej1|]. auto.
    + destruct Hm as [Hc Hd]. rewrite Hc. cbn [Z.eqb negb].
      exists h2. rewrite Eok2. split; [reflexivity|].
      split; [apply performedBy_app; rewrite Ej2, Ej1, Eok2, <- app_assoc; reflexivity|].
      split; [|rewrite Edst2; exact Hd].
      rewrite Esrc2, Esrc1, Eok2. reflexivity.
  - exists h1. specialize (Hkeep eq_refl).
    destruct (source (handle h) info) as [|r rest] eqn:Esrc;
      (split; [reflexivity|]); (split; [apply performedBy_app; exact Ej1|]); auto.
Qed.

(** X17.  [migrateRow], called with both statements prepared from [info]
    inside a transaction, returns in every build, and does this.  On an
    empty source table it steps the migrate statement alone and reports
    (true, true), or (false, false) when the step fails.  On a source table
    with a row it copies the first row to the destination and then steps the
    delete statement, whose result is the result of the call; when that
    step fails the row stands in both tables, which only the rollback of the
    transaction undoes.  When the migrate step fails nothing has moved and
    the delete statement is not stepped. *)
Theorem migrateRow_one_row (assertions : bool) (info : MigrationInfo)
    (h : MigrateHandle) :
  m_migrateStatement h = Some (StatementForMigratingOneRow info) ->
  m_removeMigratedStatement h = Some (StatementForDeletingMigratedOneRow info) ->
  isInTransaction (handle h) = true ->
  let ok1 := succeeds (handle h) in
  let ok2 := negb (failing (handle h) (S (calls (handle h)))) in
  exists h',
    match source (handle h) info with
    | [] =>
        migrateRow assertions h = Returns (ok1, ok1) h'
        /\ performedBy h h' = [EvStep (StatementForMigratingOneRow info) ok1]
        /\ source (handle h') info = []
        /\ destination (handle h') info = destination (handle h) info
    | r :: rest =>
        if ok1 then
          migrateRow assertions h = Returns (ok2, false) h'
          /\ performedBy h h' = [EvStep (StatementForMigratingOneRow info) true;
                                 EvStep (StatementForDeletingMigratedOneRow info) ok2]
          /\ source (handle h') info = (if ok2 then rest else r :: rest)
          /\ destination (handle h') info = r :: destination (handle h) info
        else
          migrateRow assertions h = Returns (false, false) h'
          /\ performedBy h h' = [EvStep (StatementForMigratingOneRow info) false]
          /\ source (handle h') info = r :: rest
          /\ destination (handle h') info = destination (handle h) info
    end.
Proof. exact (migrateRow_steps assertions info h). Qed.

Lemma migrateRow_one_row_witness :
  let h := mkMigrateHandle
             (withTransaction true (Handle_example [1; 2]%Z (only 1) clock_advancing))
             (Schema_named "/old.db" "old") (Some info_example)
             (Some (StatementForMigratingOneRow info_example))
             (Some (StatementForDeletingMigratedOneRow info_example))
             (replicate 3 Sample_init) 0 in
  exists h',
    migrateRow true h = Returns (false, false) h'
    /\ performedBy h h' = [EvStep (StatementForMigratingOneRow info_example) true;
                           EvStep (StatementForDeletingMigratedOneRow info_example) false]
    /\ source (handle h') info_example = [1; 2]%Z
    /\ destination (handle h') info_example = [1]%Z.
Proof.
  intros h. exact (migrateRow_one_row true info_example h eq_refl eq_refl eq_refl).
Defined.


Lemma stepped_reads (s : Statement) (h : MigrateHandle) :
  reads (handle (stepped s h)) = reads (handle h).
Proof.
  unfold stepped, Handle_step. simpl.
  destruct (succeeds (handle h)); [|reflexivity]. apply run_engine.
Qed.

(** On an engine that never fails, a row of the source table is moved. *)
Lemma migrateRow_reliable (assertions : bool) (info : MigrationInfo) (h : MigrateHandle) :
  m_migrateStatement h = Some (StatementForMigratingOneRow info) ->
  m_removeMigratedStatement h = Some (StatementForDeletingMigratedOneRow info) ->
  isInTransaction (handle h) = true ->
  reliable h ->
  exists h',
    migrateRow assertions h
    = Returns (true, match source (handle h) info with [] => true | _ => false end) h'
    /\ loop_frame h h'
    /\ reads (handle h') = reads (handle h)
    /\ source (handle h') info = tail (source (handle h) info)
    /\ destination (handle h') info
       = match source (handle h) info with
         | [] => destination (handle h) info
         | r :: _ => r :: destination (handle h) info
         end.
Proof.
  intros Em Ed Et Hr.
  destruct (migrateRow_steps assertions info h Em Ed Et) as [h' Hs]. cbv zeta in Hs.
  destruct (migrateRow_returns assertions h _ _ Em Ed Et) as (s' & m' & x & Er & Hx & _).
  assert (succeeds (handle h) = true) as E1 by (unfold succeeds; rewrite Hr; reflexivity).
  rewrite E1, Hr in Hs. cbn [negb] in Hs.
  exists h'.
  assert (migrateRow assertions h
          = Returns (true, match source (handle h) info with [] => true | _ => false end) h'
          /\ source (handle h') info = tail (source (handle h) info)
          /\ destination (handle h') info
             = match source (handle h) info with
               | [] => destination (handle h) info
               | r :: _ => r :: destination (handle h) info
               end) as (E & Es & Edst).
  { destruct (source (handle h) info) as [|r rest]; destruct Hs as (E & _ & Es & Edst);
      auto. }
  split; [exact E|]. rewrite E in Er. injection Er as <- <- <-.
  split; [|split; [|auto]].
  - destruct Hx as [-> | ->].
    + apply stepped_frame.
    + eapply loop_frame_trans; apply stepped_frame.
  - destruct Hx as [-> | ->]; rewrite ?stepped_reads; reflexivity.
Qed.

Section LoopByTheClock.

Variable assertions : bool.
Variable info : MigrationInfo.
Variable budget : float.

(** The loop on an engine that never fails, by the readings of the clock:
    [j] readings below the budget, and then one that is not unless the
    source table is drained before. *)
Lemma migrateLoop_by_the_clock (j fuel : nat) (h : MigrateHandle) :
  m_migrateStatement h = Some (StatementForMigratingOneRow info) ->
  m_removeMigratedStatement h = Some (StatementForDeletingMigratedOneRow info) ->
  isInTransaction (handle h) = true ->
  reliable h ->
  length (source (handle h) info) < fuel ->
  j <= length (source (handle h) info) ->
  (forall i, i < j ->
             (elapsed (handle h) (reads (handle h) + i) <? budget)%float = true) ->
  (j < length (source (handle h) info) ->
   (elapsed (handle h) (reads (handle h) + j) <? budget)%float = false) ->
  exists h',
    migrateLoop assertions fuel budget h
    = Returns (true, (bool_decide (length (source (handle h) info) <= j),
                      elapsed (handle h) (reads (handle h) + j))) h'
    /\ source (handle h') info = drop (S j) (source (handle h) info)
    /\ destination (handle h') info
       = rev (take (S j) (source (handle h) info)) ++ destination (handle h) info
    /\ reads (handle h') = S (reads (handle h) + j).
Proof.
  revert fuel h. induction j as [|j IH]; intros fuel h Em Ed Et Hr Hfuel Hj Hbelow Hstop.
  - destruct fuel as [|fuel]; [lia|]. rewrite migrateLoop_unfold.
    destruct (migrateRow_reliable assertions info h Em Ed Et Hr)
      as (x & E & (_ & _ & _ & (_ & Ee & _) & _) & Erd & Es & Edst).
    rewrite E. cbv zeta. rewrite Ee, Erd, Nat.add_0_r in *.
    destruct (source (handle h) info) as [|r rest] eqn:Esrc.
    + cbn [andb negb]. eexists. split; [reflexivity|]. simpl. auto.
    + cbn [andb negb length] in *. rewrite Hstop by lia.
      eexists. split; [rewrite bool_decide_eq_false_2 by lia; reflexivity|].
      simpl. rewrite Es, Edst. auto.
  - destruct fuel as [|fuel]; [lia|]. rewrite migrateLoop_unfold.
    destruct (migrateRow_reliable assertions info h Em Ed Et Hr)
      as (x & E & (_ & _ & (Fm & Fd & _) & (Ff & Ee & Ft & _) & _) & Erd & Es & Edst).
    rewrite E. cbv zeta. rewrite Ee, Erd.
    destruct (source (handle h) info) as [|r rest] eqn:Esrc; [simpl in Hj; lia|].
    cbn [andb negb length tail] in *.
    assert ((elapsed (handle h) (reads (handle h)) <? budget)%float = true) as ->.
    { rewrite <- (Nat.add_0_r (reads (handle h))). apply Hbelow. lia. }
    set (x' := withHandle (withRead (handle x)) x).
    destruct (IH fuel x') as (h' & El & Esrc' & Edst' & Erd').
    { simpl. congruence. } { simpl. congruence. } { simpl. congruence. }
    { intros n. simpl. rewrite Ff. apply Hr. }
    { simpl. rewrite Es. lia. } { simpl. rewrite Es. lia. }
    { intros i Hi. simpl. rewrite Ee, Erd, <- Nat.add_succ_r. apply Hbelow. lia. }
    { intros Hlt. simpl in Hlt |- *. rewrite Es in Hlt.
      rewrite Ee, Erd, <- Nat.add_succ_r. apply Hstop. lia. }
    exists h'. simpl in El, Esrc', Edst', Erd'.
    rewrite Es, Ee, Erd, <- Nat.add_succ_r in El.
    rewrite Es in Esrc', Edst'. rewrite Edst in Edst'. rewrite Erd in Erd'.
    split; [|split; [exact Esrc'|split]].
    + rewrite El. repeat f_equal. apply bool_decide_ext. lia.
    + rewrite Edst'. cbn [take rev]. rewrite <- app_assoc. reflexivity.
    + rewrite Erd'. lia.
Qed.

End LoopByTheClock.

(** X18.  One call of [migrateRows] by the readings of the clock, on an
    engine that never fails, for an existing destination table, made with
    invariant S1.  The loop moves a row and reads the clock, and goes on
    while the reading is below the budget computed from the ring: if the
    first [j] readings are below the budget and the next is not, the call
    moves exactly [j + 1] rows; if the source table is drained before a
    reading reaches the budget, it moves them all and reports [done].  A
    first row is moved whatever the budget is.  The sample recorded at the
    cursor is the last reading of the loop and the reading after the commit.
    Only an assertion of a debug build can stop the call before. *)
Theorem migrateRows_by_the_clock (assertions : bool) (numberOfSamples : nat)
    (MAX B0 : float) (info : MigrationInfo) (h : MigrateHandle) (j : nat) :
  prepared_from_info h ->
  reliable h ->
  getTable info ∈ mainTables (handle h) ->
  j <= length (source (handle h) info) ->
  (forall i, i < j ->
             (elapsed (handle h) (reads (handle h) + i) <? budget_of MAX B0 h)%float
             = true) ->
  (j < length (source (handle h) info) ->
   (elapsed (handle h) (reads (handle h) + j) <? budget_of MAX B0 h)%float = false) ->
  (exists h',
      migrateRows assertions numberOfSamples MAX B0 info h
      = Returns (true, bool_decide (length (source (handle h) info) <= j)) h'
      /\ source (handle h') info = drop (S j) (source (handle h) info)
      /\ destination (handle h') info
         = rev (take (S j) (source (handle h) info)) ++ destination (handle h) info
      /\ m_samples h'
         = <[m_samplePointing h :=
               mkSample (elapsed (handle h) (reads (handle h) + j))
                        (elapsed (handle h) (S (reads (handle h) + j)))]> (m_samples h)
      /\ reads (handle h') = S (S (reads (handle h) + j)))
  \/ (assertions = true
      /\ exists x, migrateRows assertions numberOfSamples MAX B0 info h = Aborts x).
Proof.
  intros Hw Hr Ht Hj Hbelow Hstop.
  assert (forall e, failing e = failing (handle h) -> succeeds e = true) as Hok.
  { intros e Ef. unfold succeeds. rewrite Ef, Hr. reflexivity. }
  destruct (migrateRows_prelude_causes assertions numberOfSamples MAX B0 info h Hw Ht
              (Hok _ eq_refl))
    as [(h1 & E & Em & Ed & F)|[(y & e & E & F & Ef & Ee)|(y & E & F & Ea)]].
  2:{ rewrite (Hok e Ef) in Ee. discriminate. }
  2:{ right. eauto. }
  destruct F as (_ & (Fs1 & Fs2) & (Ff & Fe & _) & (Fsrc & Fdst) & Frd).
  assert (budget_of MAX B0 h1 = budget_of MAX B0 h) as Eb
    by (unfold budget_of; rewrite Fs1; reflexivity).
  rewrite E. unfold migrateRows_transaction.
  rewrite (bind_step _ _ h1 (budget_of MAX B0 h1) h1) by reflexivity.
  rewrite (bind_step _ _ h1 (fuel_of info h1) h1) by reflexivity.
  rewrite bind_eval. unfold runTransaction. rewrite (Hok _ Ff). fold (begun h1).
  assert (stepping (begun h1)) as Hs by (repeat split; simpl; eauto).
  destruct (migrateLoop_frame assertions (fuel_of info h1) (budget_of MAX B0 h1)
              (begun h1) Hs) as [Fl _].
  destruct (migrateLoop_by_the_clock assertions info (budget_of MAX B0 h1) j
              (fuel_of info h1) (begun h1)) as (hl & El & Esrc & Edst & Erd).
  { exact Em. } { exact Ed. } { reflexivity. }
  { intros n. simpl. rewrite Ff. apply Hr. }
  { unfold fuel_of. simpl. lia. }
  { simpl. rewrite Fsrc. exact Hj. }
  { intros i Hi. simpl. rewrite Fe, Frd, Eb. apply Hbelow, Hi. }
  { simpl. rewrite Fsrc, Fe, Frd, Eb. exact Hstop. }
  rewrite El in Fl |- *. cbn [final] in Fl.
  destruct Fl as (_ & (Gs1 & Gs2) & _ & (Gf & Ge & _) & _).
  simpl in Esrc, Edst, Erd, Gs1, Gs2, Gf, Ge.
  rewrite Fsrc in Esrc, Edst. rewrite Fdst in Edst. rewrite Frd in Erd.
  assert (succeeds (handle hl) = true) as -> by (apply Hok; congruence).
  set (hc := withHandle (withTransaction false (performed (EvCommit true) (handle hl))) hl).
  unfold timeIntervalSinceSteadyClockToNow.
  rewrite (bind_step _ _ hc (elapsed (handle hc) (reads (handle hc)))
             (withHandle (withRead (handle hc)) hc)) by reflexivity.
  rewrite bind_eval, addSample_eq.
  match goal with |- context [if ?c then _ else _] => destruct c eqn:Ea end.
  - right. apply andb_true_iff in Ea as [Ea _]. eauto.
  - left. eexists. cbn [mret M_ret]. split; [|split; [|split; [|split]]].
    + simpl. rewrite Fsrc. reflexivity.
    + simpl. exact Esrc.
    + simpl. exact Edst.
    + simpl. rewrite Gs1, Gs2, Fs1, Fs2, Ge, Fe, Erd, Frd. reflexivity.
    + simpl. rewrite Erd. reflexivity.
Qed.

Lemma migrateRows_by_the_clock_witness :
  let h := MigrateHandle_new 3 (Handle_example [1; 2; 3]%Z never clock_advancing) in
  (exists h',
      migrateRows false 3 MAX_example B0_example info_example h = Returns (true, true) h'
      /\ source (handle h') info_example = []
      /\ destination (handle h') info_example = [3; 2; 1]%Z
      /\ m_samples h' = <[0 := mkSample 0x1p-19%float 0x1p-19%float]> (m_samples h)
      /\ reads (handle h') = 5)
  \/ (false = true
      /\ exists x, migrateRows false 3 MAX_example B0_example info_example h = Aborts x).
Proof.
  intros h.
  apply (migrateRows_by_the_clock false 3 MAX_example B0_example info_example h 3).
  - split; intros s Hs; discriminate Hs.
  - intros n. reflexivity.
  - apply list_elem_of_here.
  - simpl. lia.
  - intros i Hi. destruct i as [|[|[|i]]]; [reflexivity|reflexivity|reflexivity|lia].
  - simpl. lia.
Defined.

(** ** The stepper: [attach] and [detach] by themselves *)

Lemma isMain_true (s : Schema) : isMain s = true <-> s = Schema_main.
Proof. destruct s; simpl; split; congruence. Qed.

(** X19.  [detach] and [attach] keep [m_attached] in step with the engine.
    [detach] returns true exactly when main is the attached schema
    afterwards, and over it [m_attached] follows the engine in every build.
    [attach], called with main attached, returns true exactly when the
    schema asked for is the attached one afterwards, and [m_attached]
    follows the engine; this is the condition a debug build asserts.  A
    debug build stops [detach] exactly inside a transaction or with the main
    statement prepared, and [attach] exactly then or when a schema other
    than main is attached; a build without assertions stops neither. *)
Theorem attach_detach_track (assertions : bool) :
  (forall h, tracks h (final (detach assertions h)))
  /\ (forall h ok h', detach assertions h = Returns ok h' ->
                      (ok = true <-> m_attached h' = Schema_main))
  /\ (forall h, (exists x, detach assertions h = Aborts x)
                <-> assertions = true /\ violated h = true)
  /\ (forall p s h, isMain (m_attached h) = true ->
                    tracks h (final (attach assertions p s h)))
  /\ (forall p s h ok h',
         isMain (m_attached h) = true ->
         attach assertions p s h = Returns ok h' ->
         (ok = true <-> m_attached h' = s))
  /\ (forall p s h,
         (exists x, attach assertions p s h = Aborts x)
         <-> assertions = true /\ (violated h = true \/ isMain (m_attached h) = false)).
Proof.
  split; [|split; [|split; [|split; [|split]]]].
  - intros h. rewrite detach_eq. cbv zeta.
    destruct (assertions && violated h); [apply tracks_refl|].
    destruct (isMain (m_attached h)); [apply tracks_refl|].
    destruct (succeeds (handle h)) eqn:Es; cbn [final].
    + apply tracks_detached, Es.
    + apply tracks_refused, Es.
  - intros h ok h'. rewrite detach_eq. cbv zeta.
    destruct (assertions && violated h); [discriminate|].
    destruct (isMain (m_attached h)) eqn:Em.
    { intros [= <- <-]. apply isMain_true in Em. tauto. }
    destruct (succeeds (handle h)); intros [= <- <-]; simpl; [tauto|].
    split; [discriminate|]. intros E. rewrite E in Em. discriminate.
  - intros h. rewrite detach_eq. cbv zeta.
    destruct (assertions && violated h) eqn:Ec.
    + apply andb_true_iff in Ec. split; [auto|eauto].
    + split.
      * intros [x Hx]. destruct (isMain (m_attached h)); discriminate.
      * intros [Ea Ev]. rewrite Ea, Ev in Ec. discriminate.
  - intros p s h Em. rewrite attach_eq. cbv zeta.
    destruct (assertions && _); [apply tracks_refl|].
    destruct (isMain s) eqn:En; [apply tracks_refl|].
    destruct (succeeds (handle h)) eqn:Es; cbn [final].
    + apply tracks_attached; assumption.
    + apply tracks_refused, Es.
  - intros p s h ok h' Em. rewrite attach_eq. cbv zeta.
    destruct (assertions && _); [discriminate|].
    destruct (isMain s) eqn:En.
    { intros [= <- <-]. apply isMain_true in Em, En. split; congruence. }
    destruct (succeeds (handle h)); intros [= <- <-]; simpl; [tauto|].
    split; [discriminate|]. intros E. apply isMain_true in Em. rewrite Em in E.
    rewrite <- E in En. discriminate.
  - intros p s h. rewrite attach_eq. cbv zeta.
    destruct (assertions && (violated h || negb (isMain (m_attached h)))) eqn:Ec.
    + apply andb_true_iff in Ec as [Ea Ev]. apply orb_true_iff in Ev.
      rewrite negb_true_iff in Ev. split; [auto|eauto].
    + split.
      * intros [x Hx]. destruct (isMain s); discriminate.
      * intros [Ea Ev]. rewrite Ea in Ec. cbn [andb] in Ec.
        apply orb_false_iff in Ec as [Ec1 Ec2]. rewrite negb_false_iff in Ec2.
        destruct Ev; congruence.
Qed.

(** ** The stepper: the info, the attached schema and the two statements *)

Lemma coherent_same_statements (h h' : MigrateHandle) :
  same_statements h h' -> coherent h -> coherent h'.
Proof.
  intros (Em & Ed & Ei & Ea) [Hi Hs]. unfold coherent, attached_for_info,
    delete_after_migrate. rewrite Em, Ed, Ei, Ea. auto.
Qed.

Lemma coherent_cleared (h : MigrateHandle) :
  m_migratingInfo h = None -> m_removeMigratedStatement h = None -> coherent h.
Proof.
  intros Ei Ed. split.
  - intros i Hi. congruence.
  - intros [s Hs]. congruence.
Qed.

Section Coherence.

Variable assertions : bool.
Variable numberOfSamples : nat.
Variable MAX B0 : float.

Lemma reAttach_coherent (p : string) (s : Schema) (h : MigrateHandle) :
  coherent h -> coherent (final (reAttach assertions p s h)).
Proof.
  intros Hc.
  pose proof (reAttach_outcome assertions p s h) as Ho.
  pose proof (reAttach_Aborts assertions p s h) as Ha.
  destruct (reAttach assertions p s h) as [ok x|x|x]; cbn [final].
  - apply coherent_cleared; tauto.
  - destruct (Ha x eq_refl) as [-> _]. exact Hc.
  - contradiction.
Qed.

Lemma migrateRows_transaction_same_statements (info : MigrationInfo) (h1 : MigrateHandle) :
  is_Some (m_migrateStatement h1) ->
  is_Some (m_removeMigratedStatement h1) ->
  same_statements h1
    (final (migrateRows_transaction assertions numberOfSamples MAX B0 info h1)).
Proof.
  intros Hm Hd.
  pose proof (migrateRows_transaction_cases assertions numberOfSamples MAX B0 info h1 Hm Hd)
    as Ht.
  inversion Ht as [h' Ejt Hsm Hstm Hrw
                  |h' steps tail Ejt Hsteps Htail Hsm Hstm Hrw
                  |out' h' steps migrated cost whole hl El Ejt Hsteps Hrd Ec Ew Hstm Hrw Hout
                  |h' steps El Ejt Hsteps]; cbn [final]; try assumption.
  - destruct Hout as [(-> & _)|(-> & _)]; exact Hstm.
  - assert (stepping (begun h1)) as Hst by (repeat split; assumption).
    destruct (migrateLoop_frame assertions (fuel_of info h1) (budget_of MAX B0 h1)
                (begun h1) Hst) as [(_ & _ & Hs & _) _].
    rewrite El in Hs. exact Hs.
Qed.

Lemma migrateRows_prepare_coherent (info : MigrationInfo) (x : MigrateHandle) :
  coherent x ->
  coherent (final (migrateRows_prepare assertions numberOfSamples MAX B0 info x)).
Proof.
  intros Hc. unfold migrateRows_prepare.
  rewrite (bind_step _ _ x (bool_decide (is_Some (m_migrateStatement x))) x) by reflexivity.
  assert (exists ok1 x1,
             (if bool_decide (is_Some (m_migrateStatement x)) then mret true
              else statement_prepare MigrateStatement (StatementForMigratingOneRow info)) x
             = Returns ok1 x1
             /\ coherent x1
             /\ (ok1 = true -> is_Some (m_migrateStatement x1)))
    as (ok1 & x1 & E1 & Hc1 & Hm1).
  { destruct (bool_decide (is_Some (m_migrateStatement x))) eqn:Hp.
    - apply bool_decide_eq_true in Hp. exists true, x. auto.
    - unfold statement_prepare. destruct Hc as [Hi Hs].
      destruct (succeeds (handle x)); eexists _, _; (split; [reflexivity|]).
      + split; [split; [exact Hi|intros _; simpl; eauto]|intros _; simpl; eauto].
      + split; [split; [exact Hi|exact Hs]|discriminate]. }
  rewrite (bind_step _ _ x ok1 x1) by exact E1.
  destruct ok1; cbn [negb]; [|exact Hc1]. specialize (Hm1 eq_refl).
  rewrite (bind_step _ _ x1 (bool_decide (is_Some (m_removeMigratedStatement x1))) x1)
    by reflexivity.
  assert (exists ok2 x2,
             (if bool_decide (is_Some (m_removeMigratedStatement x1)) then mret true
              else statement_prepare RemoveMigratedStatement
                     (StatementForDeletingMigratedOneRow info)) x1
             = Returns ok2 x2
             /\ coherent x2
             /\ is_Some (m_migrateStatement x2)
             /\ (ok2 = true -> is_Some (m_removeMigratedStatement x2)))
    as (ok2 & x2 & E2 & Hc2 & Hm2 & Hd2).
  { destruct (bool_decide (is_Some (m_removeMigratedStatement x1))) eqn:Hp.
    - apply bool_decide_eq_true in Hp. exists true, x1. auto.
    - unfold statement_prepare. destruct Hc1 as [Hi Hs].
      destruct (succeeds (handle x1)); eexists _, _; (split; [reflexivity|]).
      + split; [split; [exact Hi|intros _; exact Hm1]|].
        split; [exact Hm1|intros _; simpl; eauto].
      + split; [split; [exact Hi|exact Hs]|]. split; [exact Hm1|discriminate]. }
  rewrite (bind_step _ _ x1 ok2 x2) by exact E2.
  destruct ok2; cbn [negb]; [|exact Hc2].
  eapply coherent_same_statements; [|exact Hc2].
  apply migrateRows_transaction_same_statements; auto.
Qed.

Lemma migrateRows_coherent (info : MigrationInfo) (h : MigrateHandle) :
  coherent h -> coherent (final (migrateRows assertions numberOfSamples MAX B0 info h)).
Proof.
  intros Hc. unfold migrateRows.
  fold (migrateRows_prepare assertions numberOfSamples MAX B0 info).
  set (h0 := withHandle (performed (EvTableExists (getTable info) (succeeds (handle h)))
                           (handle h)) h).
  rewrite (bind_step _ _ h
             (succeeds (handle h),
              succeeds (handle h) && bool_decide (getTable info ∈ mainTables (handle h)))
             h0) by reflexivity.
  assert (coherent h0) as Hc0 by exact Hc.
  destruct (succeeds (handle h)); cbn [negb andb]; [|exact Hc0].
  destruct (bool_decide (getTable info ∈ mainTables (handle h))); cbn [negb];
    [|exact Hc0].
  rewrite (bind_step _ _ h0 (m_migratingInfo h) h0) by reflexivity.
  case_bool_decide as Ei.
  - rewrite bind_eval, bind_eval.
    pose proof (reAttach_returns assertions (getSourceDatabase info)
                  (getSchemaForSourceDatabase info) h0) as Hr.
    pose proof (reAttach_coherent (getSourceDatabase info)
                  (getSchemaForSourceDatabase info) h0 Hc0) as Hx.
    pose proof (reAttach_outcome assertions (getSourceDatabase info)
                  (getSchemaForSourceDatabase info) h0) as Ho.
    destruct (reAttach assertions (getSourceDatabase info)
                (getSchemaForSourceDatabase info) h0) as [ok x|x|x]; cbn [final] in Hx;
      [|exact Hx|exact Hx].
    destruct (Hr ok x eq_refl) as (Hat & _). destruct Ho as (_ & Hm & Hd).
    destruct ok; [|exact Hx].
    rewrite (bind_step _ _ x tt (withMigratingInfo (Some info) x)) by reflexivity.
    cbn [negb mret M_ret]. apply migrateRows_prepare_coherent. split.
    + intros i Hi. simpl in Hi. injection Hi as <-. simpl. tauto.
    + intros [s Hs]. simpl in Hs. congruence.
  - rewrite (bind_step _ _ h0 true h0) by reflexivity. cbn [negb].
    apply migrateRows_prepare_coherent, Hc0.
Qed.

Lemma dropSourceTable_coherent (info : MigrationInfo) (h : MigrateHandle) :
  coherent h -> coherent (final (dropSourceTable assertions info h)).
Proof.
  intros Hc.
  pose proof (reAttach_returns assertions (getSourceDatabase info)
                (getSchemaForSourceDatabase info) h) as Hr.
  pose proof (reAttach_coherent (getSourceDatabase info)
                (getSchemaForSourceDatabase info) h Hc) as Hx.
  pose proof (reAttach_outcome assertions (getSourceDatabase info)
                (getSchemaForSourceDatabase info) h) as Ho.
  unfold dropSourceTable. rewrite bind_eval.
  destruct (reAttach assertions _ _ h) as [ok x|x|x]; cbn [final] in Hx;
    [|exact Hx|exact Hx].
  destruct (Hr ok x eq_refl) as (Hat & _). destruct Ho as (_ & Hm & Hd).
  destruct ok; [|exact Hx].
  rewrite (bind_step _ _ x tt (withMigratingInfo (Some info) x)) by reflexivity.
  unfold execute, engine. destruct (Handle_execute _ _) as [ok e]. cbn [final]. split.
  - intros i Hi. simpl in Hi. injection Hi as <-. simpl. tauto.
  - intros [s Hs]. simpl in Hs. congruence.
Qed.

Lemma sourceTableExists_coherent (attachedTables : Schema -> list string)
    (userInfo : MigrationUserInfo.t) (h : MigrateHandle) :
  coherent h -> coherent (final (sourceTableExists assertions attachedTables userInfo h)).
Proof.
  intros Hc.
  pose proof (reAttach_coherent (MigrationUserInfo.getSourceDatabase userInfo)
                (MigrationUserInfo.getSchemaForSourceDatabase userInfo) h Hc) as Hx.
  unfold sourceTableExists. cbv zeta. rewrite bind_eval.
  destruct (reAttach assertions _ _ h) as [[] x|x|x]; cbn [final] in *; exact Hx.
Qed.

End Coherence.

(** X20.  The info, the attached schema and the two statements.  These two
    properties are kept by [migrateRows], [reAttach], [dropSourceTable] and
    [sourceTableExists], however the call ends, and hold for a new stepper,
    hence in every state the stepper reaches: the schema of the info in
    [m_migratingInfo] is the attached one, and the delete statement is
    prepared only when the migrate statement is.  The converse fails: when
    the engine refuses to prepare the delete statement, [migrateRows]
    returns false and leaves the migrate statement alone prepared. *)
Theorem stepper_stays_coherent (assertions : bool) (numberOfSamples : nat)
    (MAX B0 : float) :
  (forall info h,
      coherent h ->
      coherent (final (migrateRows assertions numberOfSamples MAX B0 info h)))
  /\ (forall p s h, coherent h -> coherent (final (reAttach assertions p s h)))
  /\ (forall info h, coherent h -> coherent (final (dropSourceTable assertions info h)))
  /\ (forall attachedTables userInfo h,
         coherent h ->
         coherent (final (sourceTableExists assertions attachedTables userInfo h)))
  /\ (forall h, reachable assertions numberOfSamples MAX B0 h -> coherent h)
  /\ (exists h,
         reachable assertions 3 MAX_example B0_example h
         /\ is_Some (m_migrateStatement h) /\ m_removeMigratedStatement h = None).
Proof.
  split; [intros; now apply migrateRows_coherent|].
  split; [intros; now apply reAttach_coherent|].
  split; [intros; now apply dropSourceTable_coherent|].
  split; [intros; now apply sourceTableExists_coherent|].
  split.
  - induction 1 as [e|info h r h' _ IH E|info h ok h' _ IH E|p s h ok h' _ IH E].
    + apply coherent_cleared; reflexivity.
    + pose proof (migrateRows_coherent assertions numberOfSamples MAX B0 info h IH) as Hc.
      rewrite E in Hc. exact Hc.
    + pose proof (dropSourceTable_coherent assertions info h IH) as Hc.
      rewrite E in Hc. exact Hc.
    + pose proof (reAttach_coherent assertions p s h IH) as Hc.
      rewrite E in Hc. exact Hc.
  - set (h := MigrateHandle_new 3 (Handle_example [1; 2]%Z (only 3) clock_advancing)).
    exists (final (migrateRows assertions 3 MAX_example B0_example info_example h)).
    assert (exists h', migrateRows assertions 3 MAX_example B0_example info_example h
                       = Returns (false, false) h'
                       /\ is_Some (m_migrateStatement h')
                       /\ m_removeMigratedStatement h' = None) as (h' & E & Hm & Hd).
    { destruct assertions; eexists; (split; [vm_compute; reflexivity|]);
        split; [eexists| |eexists|]; reflexivity. }
    rewrite E. cbn [final]. split; [|auto].
    eapply reachable_migrateRows; [apply reachable_new|exact E].
Qed.

(** X21.  After a call of [migrateRows] that returns true for an existing
    destination table the stepper is set up for [info], whatever it was set
    up for before: [m_migratingInfo] is [info], both statements are prepared
    and are those of [info], and the attached schema is that of the source
    database of [info].  The call is made with invariant S1 in a state that
    is coherent, as every reachable state is. *)
Theorem migrateRows_sets_up_for_info (assertions : bool) (numberOfSamples : nat)
    (MAX B0 : float) (info : MigrationInfo) (h : MigrateHandle) (done : bool)
    (h' : MigrateHandle) :
  prepared_from_info h ->
  coherent h ->
  getTable info ∈ mainTables (handle h) ->
  migrateRows assertions numberOfSamples MAX B0 info h = Returns (true, done) h' ->
  m_migratingInfo h' = Some info
  /\ m_migrateStatement h' = Some (StatementForMigratingOneRow info)
  /\ m_removeMigratedStatement h' = Some (StatementForDeletingMigratedOneRow info)
  /\ m_attached h' = getSchemaForSourceDatabase info.
Proof.
  intros Hw Hc Ht E.
  pose proof (migrateRows_prepared_from_info assertions numberOfSamples MAX B0 info h Hw)
    as Hw'.
  pose proof (migrateRows_coherent assertions numberOfSamples MAX B0 info h Hc) as Hc'.
  rewrite E in Hw', Hc'. cbn [final] in Hw', Hc'.
  destruct (succeeds (handle h)) eqn:Es.
  2:{ rewrite migrateRows_tableExists_only in E by (rewrite Es; reflexivity).
      rewrite Es in E. discriminate E. }
  destruct (migrateRows_prelude_causes assertions numberOfSamples MAX B0 info h Hw Ht Es)
    as [(h1 & E1 & Em & Ed & _)|[(y & e & E1 & _)|(y & E1 & _)]];
    rewrite E1 in E; try discriminate E.
  pose proof (migrateRows_transaction_same_statements assertions numberOfSamples MAX B0
                info h1) as Hs.
  rewrite E in Hs. cbn [final] in Hs.
  destruct Hs as (Em' & Ed' & _); [rewrite Em; eauto|rewrite Ed; eauto|].
  rewrite Em in Em'. rewrite Ed in Ed'.
  destruct Hw' as [Hwm _]. destruct (Hwm _ Em') as (i & Hi & Est).
  injection Est as <-.
  split; [exact Hi|]. split; [exact Em'|]. split; [exact Ed'|].
  apply Hc', Hi.
Qed.

Lemma migrateRows_sets_up_for_info_witness :
  let h := MigrateHandle_new 3 (Handle_example [1; 2; 3]%Z never clock_slow) in
  let h' := final (migrateRows true 3 MAX_example B0_example info_example h) in
  m_migratingInfo h' = Some info_example
  /\ m_migrateStatement h' = Some (StatementForMigratingOneRow info_example)
  /\ m_removeMigratedStatement h' = Some (StatementForDeletingMigratedOneRow info_example)
  /\ m_attached h' = getSchemaForSourceDatabase info_example.
Proof.
  intros h h'.
  apply (migrateRows_sets_up_for_info true 3 MAX_example B0_example info_example h false h').
  - split; intros s Hs; discriminate Hs.
  - apply coherent_cleared; reflexivity.
  - apply list_elem_of_here.
  - vm_compute. reflexivity.
Defined.
